(** * Caption detection for Elsevier raw-text XML: a shallow embedding

    The development follows [try04_20251204/qwen_caption_batch.rawtext.py]
    (sentence splitting, the rule-based figure detector, the oracle-response
    parser and the table detector) and the text extractor of
    [try04_20251204/extract_caption_rawtext.py].

    Conventions of the embedding.
    - A Python [str] is a [string]; one [ascii] stands for one code point in
      U+0000..U+00FF.  On that range the character classes below are the
      ones CPython's [str] methods and [re] module use ([\s], [\d], [\w],
      IGNORECASE literals).
    - A Python [int] is a [Z]; a [list] is a [list]; [None] is [None].
    - A computation that can raise is a value of [py]: either [Ret v] or
      [Raise e].  The [while] loop of the table detector is run with fuel,
      and we prove the fuel it is given is always enough. *)

From Stdlib Require Import ZArith NArith Ascii String Bool Lia.
From stdpp Require Import base list strings.

Local Open Scope Z_scope.

(* Let [simpl] compute the concatenation of strings. *)
#[local] Arguments String.append : simpl nomatch.

(** ** Exceptions *)

Inductive exn : Type :=
| IndexError
| AttributeError
| TypeError
| OSError        (* what making the directory, opening the file or dumping raised *)
| OutOfFuel.

Inductive py (A : Type) : Type :=
| Ret (a : A)
| Raise (e : exn).
Arguments Ret {A} a.
Arguments Raise {A} e.

Definition bind {A B : Type} (m : py A) (k : A -> py B) : py B :=
  match m with
  | Ret a => k a
  | Raise e => Raise e
  end.

Notation "x <- m ;; k" := (bind m (fun x => k))
  (at level 100, m at next level, right associativity).

(** ** The Python primitives the program uses *)

Module Py.

Definition ord (c : ascii) : N := N_of_ascii c.

Definition in_range (lo hi : N) (c : ascii) : bool :=
  ((lo <=? ord c) && (ord c <=? hi))%N.

(** [str.isspace], which is also [\s] of [re] and what [split] and [strip]
    remove: TAB..CR, FS..US, space, NEL and NBSP. *)
Definition isspace (c : ascii) : bool :=
  in_range 9 13 c || in_range 28 32 c || (ord c =? 133)%N || (ord c =? 160)%N.

(** [\d]: below U+0100 the only decimal digits are 0..9. *)
Definition isdecimal (c : ascii) : bool := in_range 48 57 c.

(** The class [[0-9]]: the ten ASCII digits, in every alphabet. *)
Definition isdigit_ascii (c : ascii) : bool := in_range 48 57 c.

Definition isupper_ascii (c : ascii) : bool := in_range 65 90 c.
Definition islower_ascii (c : ascii) : bool := in_range 97 122 c.
Definition isalpha_ascii (c : ascii) : bool := isupper_ascii c || islower_ascii c.

(** [\w]: alphanumeric characters and the underscore. *)
Definition isword (c : ascii) : bool :=
  isdecimal c || isalpha_ascii c || (ord c =? 95)%N
  || (ord c =? 170)%N || (ord c =? 178)%N || (ord c =? 179)%N
  || (ord c =? 181)%N || (ord c =? 185)%N || (ord c =? 186)%N
  || in_range 188 190 c || in_range 192 214 c || in_range 216 246 c
  || in_range 248 255 c.

(** The line boundaries of [str.splitlines]. *)
Definition islinebreak (c : ascii) : bool :=
  in_range 10 13 c || in_range 28 30 c || (ord c =? 133)%N.

Definition lower_ascii (c : ascii) : ascii :=
  if isupper_ascii c then ascii_of_N (ord c + 32) else c.

Definition upper_char (c : ascii) : ascii :=
  if islower_ascii c then ascii_of_N (ord c - 32) else c.

(** [str.upper].  Exact on ASCII; the program applies it to a string of
    [A-Z_] only. *)
Fixpoint upper (s : string) : string :=
  match s with
  | EmptyString => EmptyString
  | String a s' => String (upper_char a) (upper s')
  end.

(** [len(s)] *)
Definition len (s : string) : Z := Z.of_nat (String.length s).

(** [s[n:]] and [s[:n]] for [0 <= n]. *)
Definition slice_from (n : nat) (s : string) : string :=
  String.substring n (String.length s - n) s.
Definition slice_to (n : nat) (s : string) : string :=
  String.substring 0 n s.

(** [s.find(sub)]: the lowest index of an occurrence, or -1. *)
Definition find (sub s : string) : Z :=
  match String.index 0 sub s with
  | Some k => Z.of_nat k
  | None => -1
  end.

(** [s.replace(old, new)] for a non-empty [old]: occurrences are replaced
    from left to right and do not overlap.  [skip] counts the characters of
    an occurrence still to be dropped. *)
Fixpoint replace_go (old new : string) (skip : nat) (s : string) : string :=
  match s with
  | EmptyString => EmptyString
  | String a s' =>
      match skip with
      | S k => replace_go old new k s'
      | O =>
          if String.prefix old s
          then new +:+ replace_go old new (String.length old - 1) s'
          else String a (replace_go old new 0 s')
      end
  end.
Definition replace (old new s : string) : string := replace_go old new 0 s.

(** [s.split()]: the maximal runs of non-whitespace characters. *)
Definition starts_word (s : string) : bool :=
  match s with
  | String b _ => negb (isspace b)
  | EmptyString => false
  end.

Fixpoint split (s : string) : list string :=
  match s with
  | EmptyString => []
  | String a s' =>
      if isspace a then split s'
      else if starts_word s' then
        match split s' with
        | w :: ws => String a w :: ws
        | [] => [String a EmptyString]
        end
      else String a EmptyString :: split s'
  end.

(** [s.splitlines()]: a CR LF pair is one boundary; a final boundary opens
    no further line. *)
Fixpoint splitlines (s : string) : list string :=
  match s with
  | EmptyString => []
  | String a s' =>
      if islinebreak a then
        match s' with
        | String b s'' =>
            if (ord a =? 13)%N && (ord b =? 10)%N
            then EmptyString :: splitlines s''
            else EmptyString :: splitlines s'
        | EmptyString => [EmptyString]
        end
      else match splitlines s' with
           | l :: ls => String a l :: ls
           | [] => [String a EmptyString]
           end
  end.

(** [sep.join(parts)] *)
Definition join (sep : string) (parts : list string) : string :=
  String.concat sep parts.

Fixpoint lstrip (s : string) : string :=
  match s with
  | EmptyString => EmptyString
  | String a s' => if isspace a then lstrip s' else s
  end.

Fixpoint rstrip (s : string) : string :=
  match s with
  | EmptyString => EmptyString
  | String a s' =>
      match rstrip s' with
      | EmptyString => if isspace a then EmptyString else String a EmptyString
      | r => String a r
      end
  end.

(** [s.strip()] *)
Definition strip (s : string) : string := rstrip (lstrip s).

(** [int(s)] for the strings the response pattern can hand over: an optional
    minus sign and decimal digits.  [None] is [ValueError]; CPython raises it
    beyond [max_str_digits] digits. *)
Definition max_str_digits : nat := 4300.

Definition digit_value (c : ascii) : Z := Z.of_N (ord c) - 48.

Fixpoint digits_value (acc : Z) (s : string) : option Z :=
  match s with
  | EmptyString => Some acc
  | String a s' =>
      if isdecimal a then digits_value (10 * acc + digit_value a) s' else None
  end.

Definition unsigned_int (s : string) : option Z :=
  match s with
  | EmptyString => None
  | _ => if (String.length s <=? max_str_digits)%nat then digits_value 0 s else None
  end.

Definition int (s : string) : option Z :=
  match s with
  | String "-" s' => Z.opp <$> unsigned_int s'
  | _ => unsigned_int s
  end.

(** [l[i]] and [l[i] = v] on a list: a negative index counts from the end,
    an index out of range raises. *)
Definition norm_index {A} (l : list A) (i : Z) : option nat :=
  let n := Z.of_nat (length l) in
  let j := if i <? 0 then i + n else i in
  if (0 <=? j) && (j <? n) then Some (Z.to_nat j) else None.

Definition getitem {A} (l : list A) (i : Z) : py A :=
  match norm_index l i with
  | Some j => match l !! j with Some x => Ret x | None => Raise IndexError end
  | None => Raise IndexError
  end.

Definition setitem {A} (l : list A) (i : Z) (v : A) : py (list A) :=
  match norm_index l i with
  | Some j => Ret (<[j:=v]> l)
  | None => Raise IndexError
  end.

(** [l[a:b]]: both bounds are clamped to the list, never an error. *)
Definition clamp {A} (l : list A) (i : Z) : nat :=
  let n := Z.of_nat (length l) in
  Z.to_nat (if i <? 0 then Z.max 0 (i + n) else Z.min i n).

Definition slice {A} (l : list A) (a b : Z) : list A :=
  take (clamp l b - clamp l a)%nat (drop (clamp l a) l).

(** [range(a, b)] *)
Definition range (a b : Z) : list Z :=
  (fun k => a + Z.of_nat k) <$> seq 0 (Z.to_nat (b - a)).

End Py.

(** ** The fragment of [re] the program's patterns are written in

    Every pattern of the program is a sequence of single-character tests,
    greedy repetitions of a single-character test, zero-width assertions and
    groups that are not nested.  [run] is the backtracking matcher of [re]
    on such sequences: a repetition first takes as many characters as it can
    and gives them back one at a time while the rest of the pattern fails. *)

Module Re.

Inductive item : Type :=
| One (c : ascii -> bool)              (* a literal, a class, [.] *)
| Many (c : ascii -> bool) (lo : nat)  (* [c*] is [Many c 0], [c+] is [Many c 1] *)
| Opt (c : ascii -> bool)              (* [c?] *)
| WordBoundary                         (* [\b] *)
| LookBehind (c : ascii -> bool)       (* [(?<=c)] *)
| GroupOpen
| GroupClose.

Definition pattern : Type := list item.

(** The groups met so far: the starts of the groups still open, and the
    [(start, end)] of each closed group, in order. *)
Record groups : Type := { opened : list nat; closed : list (nat * nat) }.

Definition no_groups : groups := {| opened := []; closed := [] |}.

Definition word_before (prev : option ascii) : bool :=
  match prev with Some a => Py.isword a | None => false end.

Definition word_here (s : string) : bool :=
  match s with String a _ => Py.isword a | EmptyString => false end.

(** Greedy repetition of [c], at least [lo] times, then the continuation [k].
    [prev] is the character before the current position [pos]; [s] is the
    text from [pos] on. *)
Fixpoint greedy {R : Type} (c : ascii -> bool) (lo : nat)
    (k : option ascii -> string -> nat -> option R)
    (prev : option ascii) (s : string) (pos : nat) : option R :=
  let stop := match lo with O => k prev s pos | S _ => None end in
  match s with
  | String a s' =>
      if c a then
        match greedy c (Nat.pred lo) k (Some a) s' (S pos) with
        | Some r => Some r
        | None => stop
        end
      else stop
  | EmptyString => stop
  end.

(** A match of [p] starting exactly at [pos]: the end position and the
    groups, or [None]. *)
Fixpoint run (p : pattern) (g : groups) (prev : option ascii) (s : string)
    (pos : nat) : option (nat * groups) :=
  match p with
  | [] => Some (pos, g)
  | One c :: p' =>
      match s with
      | String a s' => if c a then run p' g (Some a) s' (S pos) else None
      | EmptyString => None
      end
  | Many c lo :: p' => greedy c lo (run p' g) prev s pos
  | Opt c :: p' =>
      match s with
      | String a s' =>
          if c a then
            match run p' g (Some a) s' (S pos) with
            | Some r => Some r
            | None => run p' g prev s pos
            end
          else run p' g prev s pos
      | EmptyString => run p' g prev s pos
      end
  | WordBoundary :: p' =>
      if xorb (word_before prev) (word_here s) then run p' g prev s pos else None
  | LookBehind c :: p' =>
      match prev with
      | Some a => if c a then run p' g prev s pos else None
      | None => None
      end
  | GroupOpen :: p' =>
      run p' {| opened := pos :: opened g; closed := closed g |} prev s pos
  | GroupClose :: p' =>
      match opened g with
      | st :: o => run p' {| opened := o; closed := closed g ++ [(st, pos)] |} prev s pos
      | [] => None
      end
  end.

(** A match object: [m.start()], [m.end()] and the spans of the groups. *)
Record match_ : Type := { m_start : nat; m_end : nat; m_spans : list (nat * nat) }.

(** The leftmost match at or after the current position. *)
Fixpoint search_from (p : pattern) (prev : option ascii) (s : string)
    (pos : nat) : option match_ :=
  match run p no_groups prev s pos with
  | Some (e, g) => Some {| m_start := pos; m_end := e; m_spans := closed g |}
  | None =>
      match s with
      | String a s' => search_from p (Some a) s' (S pos)
      | EmptyString => None
      end
  end.

(** [re.search(p, s)] *)
Definition search (p : pattern) (s : string) : option match_ :=
  search_from p None s 0.

(** [bool(re.search(p, s))] *)
Definition matches (p : pattern) (s : string) : bool :=
  match search p s with Some _ => true | None => false end.

(** [m.group(k)] for [k >= 1] on the searched string [s]; [None] when the
    match has no such group. *)
Definition group (s : string) (m : match_) (k : nat) : option string :=
  match m_spans m !! Nat.pred k with
  | Some (a, b) => Some (String.substring a (b - a) s)
  | None => None
  end.

(** [re.split(p, s)] for a pattern that matches no empty string: the pieces
    between successive leftmost matches.  A lookbehind at the start of a
    later match sees the last character of the previous one. *)
Fixpoint split_go (fuel : nat) (p : pattern) (prev : option ascii) (s : string)
    : list string :=
  match fuel with
  | O => [s]
  | S fuel' =>
      match search_from p prev s 0 with
      | Some m =>
          Py.slice_to (m_start m) s
            :: split_go fuel' p
                 (match m_end m with
                  | O => prev
                  | S e => String.get e s
                  end)
                 (Py.slice_from (m_end m) s)
      | None => [s]
      end
  end.

Definition split (p : pattern) (s : string) : list string :=
  split_go (S (String.length s)) p None s.

(** Pattern builders: a literal text, with and without IGNORECASE. *)
Definition is_char (c a : ascii) : bool := Ascii.eqb a c.

Definition is_char_nocase (c a : ascii) : bool :=
  Ascii.eqb (Py.lower_ascii a) (Py.lower_ascii c).

(** A class read with IGNORECASE: the characters some case of which is in
    the class.  Below U+0100 the cases of a character are its ASCII ones;
    beyond, CPython takes [[a-zA-Z]] to hold U+0130, U+0131, U+017F and
    U+212A as well. *)
Definition class_nocase (c : ascii -> bool) (a : ascii) : bool :=
  c a || c (Py.lower_ascii a) || c (Py.upper_char a).

Fixpoint lit (t : string) : pattern :=
  match t with
  | EmptyString => []
  | String c t' => One (is_char c) :: lit t'
  end.

Fixpoint lit_nocase (t : string) : pattern :=
  match t with
  | EmptyString => []
  | String c t' => One (is_char_nocase c) :: lit_nocase t'
  end.

End Re.

(** ** qwen_caption_batch.rawtext.py *)

Definition QWEN_MODEL : string := "qwen3:30b-a3b-instruct-2507-q4_K_M".

Definition FIG_TOKEN : string := "FIGSPECIALTOKEN".
Definition FIGS_TOKEN : string := "FIGSSPECIALTOKEN".

Definition is_sentence_end (a : ascii) : bool :=
  Re.is_char "." a || Re.is_char "!" a || Re.is_char "?" a.

(** [r'(?<=[.!?])\s+'] *)
Definition _SENT_SPLIT_RE : Re.pattern :=
  [Re.LookBehind is_sentence_end; Re.Many Py.isspace 1].

(** [len(s)] of a list *)
Definition llen {A} (l : list A) : Z := Z.of_nat (length l).

Definition nonblank (s : string) : bool :=
  match s with
  | EmptyString => false
  | _ => 0 <? Py.len (Py.strip s)
  end.

Definition split_sentences (text : string) : list string :=
  let tmp := Py.replace "Figs." FIGS_TOKEN (Py.replace "Fig." FIG_TOKEN text) in
  let sents := Re.split _SENT_SPLIT_RE tmp in
  let sents := List.map Py.strip (List.filter nonblank sents) in
  List.map
    (fun s => Py.strip (Py.replace FIGS_TOKEN "Figs." (Py.replace FIG_TOKEN "Fig." s)))
    sents.

(** [re.compile(r"\bFig\.\s*\d+", re.IGNORECASE)]: the letters are read
    through [Re.is_char_nocase], [\s] is [Py.isspace] and [\d] is
    [Py.isdecimal]. *)
Definition FIG_PATTERN : Re.pattern :=
  Re.WordBoundary :: Re.lit_nocase "Fig."
    ++ [Re.Many Py.isspace 0; Re.Many Py.isdecimal 1].

(** [r"Fig\.\s*([0-9]+[a-zA-Z]?)"] *)
Definition FIG_NUMBER : Re.pattern :=
  Re.lit "Fig."
    ++ [Re.Many Py.isspace 0; Re.GroupOpen; Re.Many Py.isdigit_ascii 1;
        Re.Opt Py.isalpha_ascii; Re.GroupClose].

Inductive caption_type : Type := FIGURE | TABLE.
Inductive caption_source : Type := RULE_FIG_PATTERN | LLM_TABLE.

(** The dictionaries the detectors append to [results]. *)
Record CaptionRecord : Type := {
  type_ : caption_type;
  id : option string;
  start_sent_idx : Z;
  end_sent_idx : Z;
  caption_text : string;
  source : caption_source;
  raw_window : list string;
  table_label : option string;
  table_end_in_window : option Z;
  table_reason : option string
}.

(** [for k in range(a, b): used[k] = True] *)
Fixpoint mark_used (used : list bool) (ks : list Z) : py (list bool) :=
  match ks with
  | [] => Ret used
  | k :: ks' => used' <- Py.setitem used k true ;; mark_used used' ks'
  end.

Definition figure_number (s : string) (m : Re.match_) : option string :=
  let tail := Py.slice_from (Re.m_start m) s in
  match Re.search FIG_NUMBER tail with
  | Some m_num => Re.group tail m_num 1
  | None => None
  end.

(** The body of [for i, s in enumerate(sentences)]; [todo] is what is left to
    enumerate, starting at index [i]. *)
Fixpoint figure_loop (sentences : list string) (i : Z) (todo : list string)
    (used : list bool) (results : list CaptionRecord) : py (list CaptionRecord) :=
  match todo with
  | [] => Ret results
  | s :: todo' =>
      u <- Py.getitem used i ;;
      if u : bool then figure_loop sentences (i + 1) todo' used results
      else
        match Re.search FIG_PATTERN s with
        | None => figure_loop sentences (i + 1) todo' used results
        | Some m =>
            let fig_no := figure_number s m in
            let start_idx := i in
            let end_idx := Z.min (i + 2) (llen sentences - 1) in
            used' <- mark_used used (Py.range start_idx (end_idx + 1)) ;;
            let caption_text :=
              Py.join " " (Py.slice sentences start_idx (end_idx + 1)) in
            figure_loop sentences (i + 1) todo' used'
              (results ++
               [{| type_ := FIGURE;
                   id := fig_no;
                   start_sent_idx := start_idx;
                   end_sent_idx := end_idx;
                   caption_text := caption_text;
                   source := RULE_FIG_PATTERN;
                   raw_window := Py.slice sentences start_idx (end_idx + 1);
                   table_label := None;
                   table_end_in_window := None;
                   table_reason := None |}])
        end
  end.

Definition detect_figure_captions (sentences : list string) : py (list CaptionRecord) :=
  figure_loop sentences 0 sentences (replicate (length sentences) false) [].

(** *** The oracle request and the response parser *)

Definition nl : string := String (ascii_of_nat 10) EmptyString.
Definition dquote : string := String (ascii_of_nat 34) EmptyString.

(** The f-string of [build_table_prompt], line by line, before [.strip()]. *)
Definition table_prompt_lines (s0 s1 s2 : string) : list string :=
  [ EmptyString;
    "You are helping to detect TABLE captions in Elsevier-style scientific articles.";
    EmptyString;
    "You are given up to three sentences, S0, S1, S2. S0 contains the word "
      +:+ dquote +:+ "Table" +:+ dquote +:+ " or " +:+ dquote +:+ "Tables" +:+ dquote +:+ ".";
    "In Elsevier articles, a table caption is usually a short block of text describing the content of the table.";
    EmptyString;
    "Your task:";
    "1) Decide if these sentences form a TABLE CAPTION or NOT.";
    "2) If it is a TABLE CAPTION, determine up to which sentence the caption extends:";
    "   - 0: only S0 is the caption.";
    "   - 1: S0 and S1 together form the caption.";
    "   - 2: S0, S1, and S2 together form the caption.";
    "3) If it is NOT a caption, use -1.";
    EmptyString;
    "Respond in EXACTLY ONE LINE with the following format:";
    EmptyString;
    "LABEL=<TABLE_CAPTION or NOT_CAPTION>; END_INDEX=< -1 or 0 or 1 or 2 >; REASON=<very short explanation in English>";
    EmptyString;
    "Do NOT add anything before 'LABEL='. Do NOT add extra lines.";
    EmptyString;
    "Here are the sentences:";
    EmptyString;
    "[S0] " +:+ s0;
    "[S1] " +:+ s1;
    "[S2] " +:+ s2;
    EmptyString ].

Definition build_table_prompt (s0 s1 s2 : string) : string :=
  Py.strip (Py.join nl (table_prompt_lines s0 s1 s2)).

(** The dictionary [{"label": .., "end_index": .., "reason": ..}]. *)
Record TableResponse : Type := {
  label : string;
  end_index : Z;
  reason : string
}.

Definition is_label_char (a : ascii) : bool :=
  Py.isupper_ascii a || Re.is_char "_" a.

(** [.] of [re]: any character but a newline. *)
Definition not_newline (a : ascii) : bool := negb (Py.ord a =? 10)%N.

(** [r"LABEL\s*=\s*([A-Z_]+)\s*;\s*END_INDEX\s*=\s*(-?\d+)\s*;\s*REASON\s*=\s*(.+)"] *)
Definition RESPONSE_PATTERN : Re.pattern :=
  Re.lit "LABEL" ++ [Re.Many Py.isspace 0] ++ Re.lit "="
    ++ [Re.Many Py.isspace 0;
        Re.GroupOpen; Re.Many is_label_char 1; Re.GroupClose;
        Re.Many Py.isspace 0]
    ++ Re.lit ";" ++ [Re.Many Py.isspace 0]
    ++ Re.lit "END_INDEX" ++ [Re.Many Py.isspace 0] ++ Re.lit "="
    ++ [Re.Many Py.isspace 0;
        Re.GroupOpen; Re.Opt (Re.is_char "-"); Re.Many Py.isdecimal 1; Re.GroupClose;
        Re.Many Py.isspace 0]
    ++ Re.lit ";" ++ [Re.Many Py.isspace 0]
    ++ Re.lit "REASON" ++ [Re.Many Py.isspace 0] ++ Re.lit "="
    ++ [Re.Many Py.isspace 0;
        Re.GroupOpen; Re.Many not_newline 1; Re.GroupClose].

(** A method call on [m.group(k)]: on [None] it raises [AttributeError]. *)
Definition method_on (g : option string) : py string :=
  match g with
  | Some s => Ret s
  | None => Raise AttributeError
  end.

(** [int(m.group(2))] under [try ... except ValueError: end_idx = -1];
    [int(None)] is a [TypeError], which that handler lets through. *)
Definition int_or_minus_one (g : option string) : py Z :=
  match g with
  | Some s => Ret (match Py.int s with Some z => z | None => -1 end)
  | None => Raise TypeError
  end.

(** The text the pattern is matched against: from the first ["LABEL="] on,
    lines joined and whitespace runs reduced to one space each. *)
Definition response_line (text : string) : string :=
  let idx := Py.find "LABEL=" text in
  let text := if idx >=? 0 then Py.slice_from (Z.to_nat idx) text else text in
  let text_one := Py.join " " (Py.splitlines text) in
  Py.join " " (Py.split text_one).

Definition known_label (l : string) : bool :=
  String.eqb l "TABLE_CAPTION" || String.eqb l "NOT_CAPTION".

Definition known_end_index (e : Z) : bool :=
  (e =? -1) || (e =? 0) || (e =? 1) || (e =? 2).

Definition parse_table_response (text : string) : py TableResponse :=
  let text_one := response_line text in
  match Re.search RESPONSE_PATTERN text_one with
  | None =>
      Ret {| label := "PARSE_ERROR";
             end_index := -1;
             reason := "raw: " +:+ Py.slice_to 200 text_one |}
  | Some m =>
      g1 <- method_on (Re.group text_one m 1) ;;
      let label := Py.upper g1 in
      end_idx <- int_or_minus_one (Re.group text_one m 2) ;;
      g3 <- method_on (Re.group text_one m 3) ;;
      let reason := Py.strip g3 in
      let label := if known_label label then label else "PARSE_ERROR" in
      let end_idx := if known_end_index end_idx then end_idx else -1 in
      Ret {| label := label; end_index := end_idx; reason := reason |}
  end.

(** What [ollama.chat(...)] followed by [resp["message"]["content"]] gives:
    the content, or an exception with its message. *)
Inductive chat_result : Type :=
| Content (content : string)
| Failed (message : string).

(** [r"\bTable[s]?\b"] with IGNORECASE *)
Definition TABLE_KEYWORD_PAT : Re.pattern :=
  Re.WordBoundary :: Re.lit_nocase "Table"
    ++ [Re.Opt (Re.is_char_nocase "s"); Re.WordBoundary].

(** [r"\bTable\s*([0-9]+[a-zA-Z]?)"] with IGNORECASE *)
Definition TABLE_NUMBER : Re.pattern :=
  Re.WordBoundary :: Re.lit_nocase "Table"
    ++ [Re.Many Py.isspace 0; Re.GroupOpen; Re.Many Py.isdigit_ascii 1;
        Re.Opt (Re.class_nocase Py.isalpha_ascii); Re.GroupClose].

Section Oracle.

(** The oracle is any stateful service: [chat w model prompt] is the state
    after the call and what the call gave. *)
Context {World : Type}.
Variable chat : World -> string -> string -> World * chat_result.

Definition call_qwen_table (w : World) (s0 s1 s2 : string)
    : py (World * TableResponse) :=
  let prompt := build_table_prompt s0 s1 s2 in
  match chat w QWEN_MODEL prompt with
  | (w', Content content) =>
      parsed <- parse_table_response (Py.strip content) ;;
      Ret (w', parsed)
  | (w', Failed e) =>
      Ret (w', {| label := "ERROR";
                  end_index := -1;
                  reason := "Qwen call error: " +:+ e |})
  end.

(** The variables of the [while] loop of [detect_table_captions]. *)
Record table_state : Type := {
  t_i : Z;
  t_used : list bool;
  t_results : list CaptionRecord;
  t_world : World
}.

Definition advance (st : table_state) (i : Z) : table_state :=
  {| t_i := i; t_used := t_used st; t_results := t_results st; t_world := t_world st |}.

Definition table_id (text_window : string) : option string :=
  match Re.search TABLE_NUMBER text_window with
  | Some m => Re.group text_window m 1
  | None => None
  end.

(** [sentences[k] if k < n else ""] *)
Definition sentence_or_empty (sentences : list string) (k : Z) : py string :=
  if k <? llen sentences then Py.getitem sentences k else Ret EmptyString.

(** One pass through the body of [while i < n]. *)
Definition table_body (sentences : list string) (st : table_state) : py table_state :=
  let n := llen sentences in
  let i := t_i st in
  u <- Py.getitem (t_used st) i ;;
  if u : bool then Ret (advance st (i + 1))
  else
    s <- Py.getitem sentences i ;;
    if negb (Re.matches TABLE_KEYWORD_PAT s) then Ret (advance st (i + 1))
    else
      let s0 := s in
      s1 <- sentence_or_empty sentences (i + 1) ;;
      s2 <- sentence_or_empty sentences (i + 2) ;;
      q <- call_qwen_table (t_world st) s0 s1 s2 ;;
      let q_res := snd q in
      let label := label q_res in
      let end_in_win := end_index q_res in
      let reason := reason q_res in
      if String.eqb label "TABLE_CAPTION" && (end_in_win >=? 0) then
        let end_idx := Z.min (i + end_in_win) (n - 1) in
        let start_idx := i in
        used' <- mark_used (t_used st) (Py.range start_idx (end_idx + 1)) ;;
        let text_window := Py.join " " (Py.slice sentences start_idx (end_idx + 1)) in
        let caption_text := Py.join " " (Py.slice sentences start_idx (end_idx + 1)) in
        Ret {| t_i := end_idx + 1;
               t_used := used';
               t_results := t_results st ++
                 [{| type_ := TABLE;
                     id := table_id text_window;
                     start_sent_idx := start_idx;
                     end_sent_idx := end_idx;
                     caption_text := caption_text;
                     source := LLM_TABLE;
                     raw_window := [s0; s1; s2];
                     table_label := Some label;
                     table_end_in_window := Some end_in_win;
                     table_reason := Some reason |}];
               t_world := fst q |}
      else
        Ret {| t_i := i + 1;
               t_used := t_used st;
               t_results := t_results st ++
                 [{| type_ := TABLE;
                     id := None;
                     start_sent_idx := i;
                     end_sent_idx := i;
                     caption_text := s0;
                     source := LLM_TABLE;
                     raw_window := [s0; s1; s2];
                     table_label := Some label;
                     table_end_in_window := Some end_in_win;
                     table_reason := Some reason |}];
               t_world := fst q |}.

Fixpoint table_loop (fuel : nat) (sentences : list string) (st : table_state)
    : py table_state :=
  if t_i st <? llen sentences then
    match fuel with
    | O => Raise OutOfFuel
    | S fuel' => st' <- table_body sentences st ;; table_loop fuel' sentences st'
    end
  else Ret st.

Definition table_init (w : World) (sentences : list string) : table_state :=
  {| t_i := 0;
     t_used := replicate (length sentences) false;
     t_results := [];
     t_world := w |}.

Definition detect_table_captions (w : World) (sentences : list string)
    : py (World * list CaptionRecord) :=
  st <- table_loop (length sentences) sentences (table_init w sentences) ;;
  Ret (t_world st, t_results st).

End Oracle.

(** *** Text extraction and the per-document pipeline *)

(** The parsed document as XPath sees it: text nodes and elements with their
    children in document order. *)
#[warnings="-register-all"]
Inductive xml : Type :=
| Text (t : string)
| Element (local_name : string) (children : list xml).

(** The text nodes below [n] in document order; with [inside = false] only
    those that have an ancestor-or-self element named [name]. *)
Fixpoint texts_within (name : string) (inside : bool) (n : xml) : list string :=
  match n with
  | Text t => if inside then [t] else []
  | Element nm children =>
      List.flat_map (texts_within name (inside || String.eqb nm name)) children
  end.

(** [root.xpath("//*[local-name()='name']//text()")] *)
Definition xpath_texts_under (name : string) (root : xml) : list string :=
  texts_within name false root.

(** [root.xpath("//text()")] *)
Definition xpath_all_texts (root : xml) : list string :=
  texts_within EmptyString true root.

(** [" ".join(text.split())] *)
Definition squeeze (text : string) : string := Py.join " " (Py.split text).

Definition CR : string := String (ascii_of_nat 13) EmptyString.

(** [parsed] is what [etree.parse(path).getroot()] gave, [None] when it
    raised. *)
Definition extract_rawtext_from_xml (parsed : option xml) : option string :=
  match parsed with
  | None => None
  | Some root =>
      match xpath_texts_under "rawtext" root with
      | [] => None
      | nodes =>
          let text := Py.join " " nodes in
          let text := Py.replace CR " " text in
          let text := squeeze text in
          Some (Py.strip text)
      end
  end.

(** [if not x] for an optional string: [None] and the empty string. *)
Definition falsy (x : option string) : bool :=
  match x with
  | None | Some EmptyString => true
  | Some _ => false
  end.

Section Pipeline.

Context {World : Type}.
Variable chat : World -> string -> string -> World * chat_result.

(** [os.makedirs(out_json_dir, exist_ok=True)], then
    [open(os.path.join(out_json_dir, name), "w", encoding="utf-8")] and
    [json.dump(all_records, f, ...)]: the state after them, and [Some] of a
    message when one of them raised. *)
Variable save_json :
  World -> string -> string -> list (string * CaptionRecord) -> World * option string.

(** [process_single_xml]: the records of one document, each with the file
    name added.  [fname] is [os.path.basename(path)] and [parsed] what
    parsing [path] gave.  The records, if there are any, are written before
    they are returned, and nothing guards the writing. *)
Definition process_single_xml (w : World) (fname out_json_dir : string)
    (parsed : option xml) : py (World * list (string * CaptionRecord)) :=
  let rawtext := extract_rawtext_from_xml parsed in
  if falsy rawtext then Ret (w, [])
  else
    let sentences := split_sentences (default EmptyString rawtext) in
    match sentences with
    | [] => Ret (w, [])
    | _ =>
        fig_caps <- detect_figure_captions sentences ;;
        t <- detect_table_captions chat w sentences ;;
        let tab_caps := snd t in
        let all_records := List.map (fun r => (fname, r)) (fig_caps ++ tab_caps) in
        match all_records with
        | [] => Ret (fst t, [])
        | _ =>
            match save_json (fst t) out_json_dir
                    (Py.replace ".xml" ".json" fname) all_records with
            | (w', None) => Ret (w', all_records)
            | (_, Some _) => Raise OSError
            end
        end
    end.

End Pipeline.

(** ** extract_caption_rawtext.py *)

Module ExtractCaption.

Definition extract_text_from_xml (parsed : option xml) : option string :=
  match parsed with
  | None => None
  | Some root =>
      match xpath_texts_under "rawtext" root with
      | (_ :: _) as raw_nodes => Some (squeeze (Py.join " " raw_nodes))
      | [] =>
          match xpath_texts_under "body" root with
          | (_ :: _) as body_nodes => Some (squeeze (Py.join " " body_nodes))
          | [] =>
              match xpath_all_texts root with
              | (_ :: _) as all_nodes => Some (squeeze (Py.join " " all_nodes))
              | [] => None
              end
          end
      end
  end.

End ExtractCaption.

(** ** Vocabulary of the statements *)

(** [0 <= start <= end <= len(sentences) - 1] *)
Definition span_valid (sentences : list string) (r : CaptionRecord) : Prop :=
  0 <= start_sent_idx r
  /\ start_sent_idx r <= end_sent_idx r
  /\ end_sent_idx r <= llen sentences - 1.

(** The inclusive spans of two records share no index. *)
Definition spans_disjoint (r1 r2 : CaptionRecord) : Prop :=
  end_sent_idx r1 < start_sent_idx r2 \/ end_sent_idx r2 < start_sent_idx r1.

Definition non_overlapping (rs : list CaptionRecord) : Prop :=
  forall (i j : nat) r1 r2,
    i <> j -> rs !! i = Some r1 -> rs !! j = Some r2 -> spans_disjoint r1 r2.

(** Every record lies wholly before the next one. *)
Definition in_order (rs : list CaptionRecord) : Prop :=
  forall (i j : nat) r1 r2,
    (i < j)%nat -> rs !! i = Some r1 -> rs !! j = Some r2 ->
    end_sent_idx r1 < start_sent_idx r2.

(** [sentences[k]] where it exists, the empty string elsewhere. *)
Definition sentence_at (sentences : list string) (k : Z) : string :=
  if (0 <=? k) && (k <? llen sentences)
  then default EmptyString (sentences !! Z.to_nat k)
  else EmptyString.

(** The window [S0, S1, S2] of a table candidate at index [i]. *)
Definition window (sentences : list string) (i : Z) : list string :=
  [sentence_at sentences i; sentence_at sentences (i + 1); sentence_at sentences (i + 2)].

(** Index [k] is marked in [used]. *)
Definition claimed (used : list bool) (k : Z) : Prop :=
  0 <= k /\ used !! Z.to_nat k = Some true.

(** A pattern is well bracketed from [depth] open groups on. *)
Fixpoint bracketed (depth : nat) (p : Re.pattern) : bool :=
  match p with
  | [] => true
  | Re.GroupOpen :: p' => bracketed (S depth) p'
  | Re.GroupClose :: p' =>
      match depth with
      | O => false
      | S d => bracketed d p'
      end
  | _ :: p' => bracketed depth p'
  end.

Fixpoint count_closes (p : Re.pattern) : nat :=
  match p with
  | [] => O
  | Re.GroupClose :: p' => S (count_closes p')
  | _ :: p' => count_closes p'
  end.

(** All characters of [w] satisfy [c]. *)
Fixpoint all_chars (c : ascii -> bool) (w : string) : bool :=
  match w with
  | EmptyString => true
  | String a w' => c a && all_chars c w'
  end.

(** The character before the position reached after reading [w]. *)
Fixpoint last_char (prev : option ascii) (w : string) : option ascii :=
  match w with
  | EmptyString => prev
  | String a w' => last_char (Some a) w'
  end.

(** What it means for [p] to match at the start of [s], [prev] being the
    character before: the usual reading of the pattern, with no reference to
    the order in which the matcher tries the alternatives. *)
Fixpoint accepts (p : Re.pattern) (prev : option ascii) (s : string) : Prop :=
  match p with
  | [] => True
  | Re.One c :: p' =>
      exists a s', s = String a s' /\ c a = true /\ accepts p' (Some a) s'
  | Re.Many c lo :: p' =>
      exists w s', s = w +:+ s' /\ all_chars c w = true
        /\ (lo <= String.length w)%nat /\ accepts p' (last_char prev w) s'
  | Re.Opt c :: p' =>
      accepts p' prev s
      \/ exists a s', s = String a s' /\ c a = true /\ accepts p' (Some a) s'
  | Re.WordBoundary :: p' =>
      xorb (Re.word_before prev) (Re.word_here s) = true /\ accepts p' prev s
  | Re.LookBehind c :: p' =>
      (exists a, prev = Some a /\ c a = true) /\ accepts p' prev s
  | Re.GroupOpen :: p' => accepts p' prev s
  | Re.GroupClose :: p' => accepts p' prev s
  end.

(** [w] is a run of whitespace-free characters, at least one. *)
Definition is_word (w : string) : Prop :=
  w <> EmptyString /\ all_chars (fun a => negb (Py.isspace a)) w = true.

(** The extractor as the interface description words it: the first of the
    raw-text region, the body region and the whole document whose text is
    not empty. *)
Definition first_nonempty_text (root : xml) : option string :=
  let region nodes := squeeze (Py.join " " nodes) in
  match region (xpath_texts_under "rawtext" root) with
  | String _ _ as t => Some t
  | EmptyString =>
      match region (xpath_texts_under "body" root) with
      | String _ _ as t => Some t
      | EmptyString =>
          match region (xpath_all_texts root) with
          | String _ _ as t => Some t
          | EmptyString => None
          end
      end
  end.

(** What every record of the figure detector looks like. *)
Definition figure_record (sentences : list string) (r : CaptionRecord) : Prop :=
  type_ r = FIGURE
  /\ source r = RULE_FIG_PATTERN
  /\ end_sent_idx r = Z.min (start_sent_idx r + 2) (llen sentences - 1)
  /\ raw_window r = Py.slice sentences (start_sent_idx r) (end_sent_idx r + 1)
  /\ caption_text r
     = Py.join " " (Py.slice sentences (start_sent_idx r) (end_sent_idx r + 1))
  /\ table_label r = None
  /\ table_end_in_window r = None
  /\ table_reason r = None.

(** What every record of the table detector looks like. *)
Definition table_record (sentences : list string) (r : CaptionRecord) : Prop :=
  type_ r = TABLE
  /\ source r = LLM_TABLE
  /\ raw_window r = window sentences (start_sent_idx r)
  /\ end_sent_idx r <= start_sent_idx r + 2
  /\ is_Some (table_label r)
  /\ is_Some (table_end_in_window r)
  /\ is_Some (table_reason r).

(** The invariant of the loop of [detect_figure_captions] on entering the
    iteration of index [i]. *)
Definition figure_inv (sentences : list string) (i : Z) (used : list bool)
    (results : list CaptionRecord) : Prop :=
  length used = length sentences
  /\ in_order results
  /\ Forall (fun r =>
       span_valid sentences r
       /\ figure_record sentences r
       /\ start_sent_idx r < i
       /\ forall k, start_sent_idx r <= k <= end_sent_idx r -> claimed used k)
     results.

(** A response as the table detector can receive it from [call_qwen_table]. *)
Definition normal_response (q : TableResponse) : Prop :=
  (label q = "TABLE_CAPTION" \/ label q = "NOT_CAPTION"
   \/ label q = "PARSE_ERROR" \/ label q = "ERROR")
  /\ (end_index q = -1 \/ end_index q = 0 \/ end_index q = 1 \/ end_index q = 2).

(** The acceptance condition as the design states it. *)
Definition accepted (q : TableResponse) : bool :=
  String.eqb (label q) "TABLE_CAPTION"
  && ((end_index q =? 0) || (end_index q =? 1) || (end_index q =? 2)).

(** The invariant of the loop of [detect_table_captions] on testing
    [i < n]. *)
Definition table_inv (sentences : list string) (i : Z) (used : list bool)
    (results : list CaptionRecord) : Prop :=
  0 <= i
  /\ length used = length sentences
  /\ in_order results
  /\ Forall (fun r =>
       span_valid sentences r
       /\ table_record sentences r
       /\ end_sent_idx r < i)
     results.

(** The state after the iteration that accepts the candidate at [t_i st]
    on the response [q], and after the one that rejects it. *)
Definition accepted_step {World : Type} (sentences : list string)
    (st st' : @table_state World) (w' : World) (q : TableResponse) : Prop :=
  let i := t_i st in
  let e := Z.min (i + end_index q) (llen sentences - 1) in
  t_i st' = e + 1
  /\ t_world st' = w'
  /\ length (t_used st') = length (t_used st)
  /\ (forall k, i <= k <= e -> claimed (t_used st') k)
  /\ (forall j : nat, ~ (i <= Z.of_nat j <= e) -> t_used st' !! j = t_used st !! j)
  /\ exists r,
       t_results st' = t_results st ++ [r]
       /\ type_ r = TABLE
       /\ source r = LLM_TABLE
       /\ start_sent_idx r = i
       /\ end_sent_idx r = e
       /\ caption_text r = Py.join " " (Py.slice sentences i (e + 1))
       /\ id r = table_id (Py.join " " (Py.slice sentences i (e + 1)))
       /\ raw_window r = window sentences i
       /\ table_label r = Some (label q)
       /\ table_end_in_window r = Some (end_index q)
       /\ table_reason r = Some (reason q).

Definition rejected_step {World : Type} (sentences : list string)
    (st st' : @table_state World) (w' : World) (q : TableResponse) : Prop :=
  let i := t_i st in
  t_i st' = i + 1
  /\ t_world st' = w'
  /\ t_used st' = t_used st
  /\ exists r,
       t_results st' = t_results st ++ [r]
       /\ type_ r = TABLE
       /\ source r = LLM_TABLE
       /\ start_sent_idx r = i
       /\ end_sent_idx r = i
       /\ caption_text r = sentence_at sentences i
       /\ id r = None
       /\ raw_window r = window sentences i
       /\ table_label r = Some (label q)
       /\ table_end_in_window r = Some (end_index q)
       /\ table_reason r = Some (reason q).

(** A reading of [p] that keeps track of the text: [read] is what lies
    before the current position and [s] what lies after it; the result is
    the text read when the pattern ends, what is left, and the groups. *)
Fixpoint derives (p : Re.pattern) (g : Re.groups) (read s : string)
    (res : string * string * Re.groups) : Prop :=
  match p with
  | [] => res = (read, s, g)
  | Re.One c :: p' =>
      exists a s', s = String a s' /\ c a = true
        /\ derives p' g (read +:+ String a EmptyString) s' res
  | Re.Many c lo :: p' =>
      exists w s', s = w +:+ s' /\ all_chars c w = true
        /\ (lo <= String.length w)%nat /\ derives p' g (read +:+ w) s' res
  | Re.Opt c :: p' =>
      derives p' g read s res
      \/ exists a s', s = String a s' /\ c a = true
           /\ derives p' g (read +:+ String a EmptyString) s' res
  | Re.WordBoundary :: p' =>
      xorb (Re.word_before (last_char None read)) (Re.word_here s) = true
      /\ derives p' g read s res
  | Re.LookBehind c :: p' =>
      (exists a, last_char None read = Some a /\ c a = true)
      /\ derives p' g read s res
  | Re.GroupOpen :: p' =>
      derives p'
        {| Re.opened := String.length read :: Re.opened g; Re.closed := Re.closed g |}
        read s res
  | Re.GroupClose :: p' =>
      exists st o, Re.opened g = st :: o
        /\ derives p'
             {| Re.opened := o;
                Re.closed := Re.closed g ++ [(st, String.length read)] |}
             read s res
  end.

(** The pattern has no group. *)
Fixpoint group_free (p : Re.pattern) : bool :=
  match p with
  | [] => true
  | Re.GroupOpen :: _ | Re.GroupClose :: _ => false
  | _ :: p' => group_free p'
  end.

(** An optional minus sign and at least one decimal digit. *)
Definition is_integer_text (t : string) : Prop :=
  exists ds,
    ds <> EmptyString /\ all_chars Py.isdecimal ds = true
    /\ (t = ds \/ t = String "-" ds).

(** ** Concrete inputs *)

Definition degree_sign : string := String (ascii_of_nat 176) EmptyString.

(** "See Fig. 3. It shows the TGA curve. Conditions were 600(degree)C." *)
Definition scenario_A : string :=
  "See Fig. 3. It shows the TGA curve. Conditions were 600" +:+ degree_sign +:+ "C.".

(** An oracle without state that gives the same content to every request,
    and one whose every call raises. *)
Definition constant_oracle (content : string)
    : unit -> string -> string -> unit * chat_result :=
  fun w _ _ => (w, Content content).

Definition failing_oracle (message : string)
    : unit -> string -> string -> unit * chat_result :=
  fun w _ _ => (w, Failed message).

Definition caption_answer : string :=
  "LABEL=TABLE_CAPTION; END_INDEX=0; REASON=short caption".

(** A document whose raw text is one sentence naming a figure and a table. *)
Definition figure_and_table_doc : xml :=
  Element "doc" [Element "rawtext" [Text "Fig. 1 and Table 2 compare the yields."]].

(** A document with a body and no raw-text region, and one whose raw-text
    region is blank. *)
Definition body_only_doc : xml :=
  Element "doc" [Element "body" [Text "See Fig. 3."]].

Definition blank_rawtext_doc : xml :=
  Element "doc" [Element "rawtext" [Text "  "]; Element "body" [Text "See Fig. 3."]].

(** Writers of the JSON file: one that succeeds and one that raises. *)
Definition writing_ok
    : unit -> string -> string -> list (string * CaptionRecord) -> unit * option string :=
  fun w _ _ _ => (w, None).

Definition writing_fails (message : string)
    : unit -> string -> string -> list (string * CaptionRecord) -> unit * option string :=
  fun w _ _ _ => (w, Some message).

(** An answer that accepts the candidate together with the sentence after
    it, three sentences of which the first is a candidate, and the state of
    the table loop after its first iteration on them with that answer. *)
Definition two_sentence_answer : string :=
  "LABEL=TABLE_CAPTION; END_INDEX=1; REASON=caption and note".

Definition yields_sentences : list string :=
  ["Table 1 lists the yields."; "Values are in wt%."; "The char yield rose."].

Definition after_first_caption : @table_state unit :=
  {| t_i := 2;
     t_used := [true; true; false];
     t_results :=
       [{| type_ := TABLE;
           id := Some "1"%string;
           start_sent_idx := 0;
           end_sent_idx := 1;
           caption_text := "Table 1 lists the yields. Values are in wt%.";
           source := LLM_TABLE;
           raw_window := yields_sentences;
           table_label := Some "TABLE_CAPTION"%string;
           table_end_in_window := Some 1;
           table_reason := Some "caption and note"%string |}];
     t_world := tt |}.

(** ** The states the table loop goes through *)

(** The states of the [while] loop of [detect_table_captions] each time its
    condition is tested. *)
Inductive table_reachable {World : Type}
    (chat : World -> string -> string -> World * chat_result)
    (sentences : list string) (w : World) : @table_state World -> Prop :=
| reach_init : table_reachable chat sentences w (table_init w sentences)
| reach_step st st' :
    table_reachable chat sentences w st ->
    t_i st < llen sentences ->
    table_body chat sentences st = Ret st' ->
    table_reachable chat sentences w st'.

(** An oracle that also counts the calls made to it. *)
Definition counting {World : Type}
    (chat : World -> string -> string -> World * chat_result)
    : World * nat -> string -> string -> (World * nat) * chat_result :=
  fun wc model prompt =>
    let r := chat (fst wc) model prompt in
    ((fst r, S (snd wc)), snd r).

(** The span of [r] holds index [k]. *)
Definition covers (r : CaptionRecord) (k : Z) : Prop :=
  start_sent_idx r <= k <= end_sent_idx r.

(** The marks of the table detector lie before its scan index. *)
Definition marks_behind {World : Type} (sentences : list string)
    (st : @table_state World) : Prop :=
  0 <= t_i st
  /\ length (t_used st) = length sentences
  /\ forall k : nat, t_i st <= Z.of_nat k -> t_used st !! k <> Some true.

(** A record of the table detector, read from the response it stores: an
    accepted response gives the span and the joined caption, any other one a
    single sentence. *)
Definition table_record_from_response (sentences : list string)
    (r : CaptionRecord) : Prop :=
  exists lab e rsn,
    table_label r = Some lab
    /\ table_end_in_window r = Some e
    /\ table_reason r = Some rsn
    /\ normal_response {| label := lab; end_index := e; reason := rsn |}
    /\ type_ r = TABLE
    /\ source r = LLM_TABLE
    /\ raw_window r = window sentences (start_sent_idx r)
    /\ if accepted {| label := lab; end_index := e; reason := rsn |}
       then end_sent_idx r = Z.min (start_sent_idx r + e) (llen sentences - 1)
            /\ caption_text r
               = Py.join " "
                   (Py.slice sentences (start_sent_idx r) (end_sent_idx r + 1))
            /\ id r = table_id (caption_text r)
       else end_sent_idx r = start_sent_idx r
            /\ caption_text r = sentence_at sentences (start_sent_idx r)
            /\ id r = None.

(** The sentence at the start of [r] has the pattern [p]. *)
Definition starts_at_match (p : Re.pattern) (sentences : list string)
    (r : CaptionRecord) : Prop :=
  exists s,
    sentences !! Z.to_nat (start_sent_idx r) = Some s /\ Re.matches p s = true.

(** A state of the table loop run with the counting oracle: the count is
    [c0] plus the number of records made so far. *)
Definition with_count {World : Type} (c0 : nat) (st : @table_state World)
    : @table_state (World * nat) :=
  {| t_i := t_i st;
     t_used := t_used st;
     t_results := t_results st;
     t_world := (t_world st, (c0 + length (t_results st))%nat) |}.

(** [f] applied to what a computation returns. *)
Definition py_map {A B : Type} (f : A -> B) (m : py A) : py B :=
  match m with
  | Ret a => Ret (f a)
  | Raise e => Raise e
  end.

(** Every call of the oracle raises. *)
Definition always_fails {World : Type}
    (chat : World -> string -> string -> World * chat_result) : Prop :=
  forall w model prompt, exists msg, snd (chat w model prompt) = Failed msg.

(** [t] is words joined by single spaces: it has no other whitespace, and
    none at its ends. *)
Definition single_spaced (t : string) : Prop :=
  exists ws, t = Py.join " " ws /\ Forall is_word ws.

(** [s] has a character that is no whitespace. *)
Definition has_text (s : string) : Prop :=
  all_chars Py.isspace s = false.

(** The text [s] does not go on with a character of the class [c]. *)
Definition no_more (c : ascii -> bool) (s : string) : Prop :=
  match s with
  | String b _ => c b = false
  | EmptyString => True
  end.

(** The one-line answer the prompt asks for. *)
Definition answer_line (lab e rsn : string) : string :=
  "LABEL=" +:+ lab +:+ "; END_INDEX=" +:+ e +:+ "; REASON=" +:+ rsn.

(** Digits 0..9, at least one, then at most one character of the class
    [letter]. *)
Definition is_number_text (letter : ascii -> bool) (t : string) : Prop :=
  exists ds l,
    t = ds +:+ l /\ ds <> EmptyString /\ all_chars Py.isdigit_ascii ds = true
    /\ (l = EmptyString \/ exists a, l = String a EmptyString /\ letter a = true).

(** The id of [r], if it has one, is a number text that stands in its
    caption. *)
Definition id_in_caption (letter : ascii -> bool) (r : CaptionRecord) : Prop :=
  forall t, id r = Some t ->
    is_number_text letter t /\ exists x y, caption_text r = x +:+ t +:+ y.

(** The group [([0-9]+[a-zA-Z]?)] at the end of the number patterns;
    [letter] is how the pattern's flags read [[a-zA-Z]]. *)
Definition NUMBER_GROUP (letter : ascii -> bool) : Re.pattern :=
  [Re.GroupOpen; Re.Many Py.isdigit_ascii 1; Re.Opt letter; Re.GroupClose].

(** *** extract_caption_rawtext.py: the keyword filter *)

(** The branches of the alternation [(Fig\.?|Figure|Figs\.?|Table|Tables?)],
    read with IGNORECASE. *)
Definition FIG_TABLE_BRANCHES : list Re.pattern :=
  [ Re.lit_nocase "Fig" ++ [Re.Opt (Re.is_char_nocase ".")];
    Re.lit_nocase "Figure";
    Re.lit_nocase "Figs" ++ [Re.Opt (Re.is_char_nocase ".")];
    Re.lit_nocase "Table";
    Re.lit_nocase "Table" ++ [Re.Opt (Re.is_char_nocase "s")] ].

(** [r"\b(Fig\.?|Figure|Figs\.?|Table|Tables?)\b"] with IGNORECASE: the
    pattern with each branch in the place of the alternation.  A
    backtracking matcher finds a match of the alternation at a position
    exactly when it finds one of some branch there, the rest of the pattern
    included. *)
Definition FIG_TABLE_PATTERN : list Re.pattern :=
  (fun b => Re.WordBoundary :: Re.GroupOpen :: b ++ [Re.GroupClose; Re.WordBoundary])
    <$> FIG_TABLE_BRANCHES.

(** [bool(p.search(s))] for a pattern with an alternation *)
Definition search_any (ps : list Re.pattern) (s : string) : bool :=
  existsb (fun p => Re.matches p s) ps.

Definition filter_fig_table_sentences (sentences : list string) : list string :=
  List.filter (search_any FIG_TABLE_PATTERN) sentences.

(** ** Tactics *)

(** A statement about one character, checked on each of the 256. *)
Ltac each_char a :=
  destruct a as [[] [] [] [] [] [] [] []]; vm_compute;
  try discriminate; try tauto; intuition discriminate.
(** ** The matcher: groups, soundness and completeness of backtracking *)
Lemma greedy_from_k {R : Type} c (k : option ascii -> string -> nat -> option R) s :
  forall lo prev pos r,
    Re.greedy c lo k prev s pos = Some r ->
    exists prev' s' pos', k prev' s' pos' = Some r.
Proof.
  induction s as [|a s IH]; intros lo prev pos r H; simpl in H.
  - destruct lo; [eauto | discriminate].
  - destruct (c a).
    + destruct (Re.greedy c (Nat.pred lo) k (Some a) s (S pos)) eqn:E.
      * inversion H; subst. eapply IH; eauto.
      * destruct lo; [eauto | discriminate].
    + destruct lo; [eauto | discriminate].
Qed.

Lemma run_closed_length p :
  forall g prev s pos e g',
    Re.run p g prev s pos = Some (e, g') ->
    length (Re.closed g') = (length (Re.closed g) + count_closes p)%nat.
Proof.
  induction p as [|it p IH]; intros g prev s pos e g' H; simpl in H.
  - inversion H; subst. simpl. lia.
  - destruct it; simpl.
    + destruct s as [|a s]; [discriminate|]. destruct (c a); [|discriminate]. eauto.
    + apply greedy_from_k in H as (prev' & s' & pos' & H). eauto.
    + destruct s as [|a s]; [eauto|].
      destruct (c a); [|eauto].
      destruct (Re.run p g (Some a) s (S pos)) eqn:E; [|eauto].
      inversion H; subst. eauto.
    + destruct (xorb _ _); [eauto | discriminate].
    + destruct prev as [a|]; [|discriminate]. destruct (c a); [eauto | discriminate].
    + apply IH in H. simpl in H. lia.
    + destruct (Re.opened g) as [|st o]; [discriminate|].
      apply IH in H. simpl in H. rewrite length_app in H. simpl in H. lia.
Qed.

Lemma search_from_spans p s :
  forall prev pos m,
    Re.search_from p prev s pos = Some m ->
    length (Re.m_spans m) = count_closes p.
Proof.
  induction s as [|a s IH]; intros prev pos m H; simpl in H.
  - destruct (Re.run p Re.no_groups prev "" pos) as [[e g]|] eqn:E; [|discriminate].
    inversion H; subst; simpl. apply run_closed_length in E. simpl in E. lia.
  - destruct (Re.run p Re.no_groups prev (String a s) pos) as [[e g]|] eqn:E.
    + inversion H; subst; simpl. apply run_closed_length in E. simpl in E. lia.
    + eauto.
Qed.

Lemma group_is_Some p s m (k : nat) :
  Re.search p s = Some m -> (1 <= k <= count_closes p)%nat ->
  is_Some (Re.group s m k).
Proof.
  intros H Hk. apply search_from_spans in H.
  unfold Re.group.
  destruct (Re.m_spans m !! Nat.pred k) as [[a b]|] eqn:E; [eauto|].
  apply lookup_ge_None in E. lia.
Qed.

Lemma greedy_sound {R : Type} c (k : option ascii -> string -> nat -> option R) s :
  forall lo prev pos r,
    Re.greedy c lo k prev s pos = Some r ->
    exists w s', s = w +:+ s' /\ all_chars c w = true
      /\ (lo <= String.length w)%nat
      /\ k (last_char prev w) s' (pos + String.length w)%nat = Some r.
Proof.
  induction s as [|a s IH]; intros lo prev pos r H; simpl in H.
  - destruct lo; [|discriminate].
    exists EmptyString, EmptyString. simpl. rewrite Nat.add_0_r. auto.
  - assert (Hstop : match lo with O => k prev (String a s) pos | S _ => None end = Some r ->
              exists w s', String a s = w +:+ s' /\ all_chars c w = true
                /\ (lo <= String.length w)%nat
                /\ k (last_char prev w) s' (pos + String.length w)%nat = Some r).
    { destruct lo; [|discriminate]. intros Hk.
      exists EmptyString, (String a s). simpl. rewrite Nat.add_0_r. auto. }
    destruct (c a) eqn:Ca; [|auto].
    destruct (Re.greedy c (Nat.pred lo) k (Some a) s (S pos)) eqn:E; [|auto].
    inversion H; subst.
    apply IH in E as (w & s' & -> & Hw & Hlo & Hk).
    exists (String a w), s'. simpl. rewrite Ca, Hw.
    replace (pos + S (String.length w))%nat with (S pos + String.length w)%nat by lia.
    repeat split; auto. lia.
Qed.

Lemma greedy_complete {R : Type} c (k : option ascii -> string -> nat -> option R) w :
  forall lo prev pos s',
    all_chars c w = true -> (lo <= String.length w)%nat ->
    is_Some (k (last_char prev w) s' (pos + String.length w)%nat) ->
    is_Some (Re.greedy c lo k prev (w +:+ s') pos).
Proof.
  induction w as [|a w IH]; intros lo prev pos s' Hw Hlo Hk; simpl in *.
  - rewrite Nat.add_0_r in Hk. assert (lo = O) by lia. subst lo.
    destruct s' as [|b s']; simpl; [done|].
    destruct (c b); [|done].
    destruct (Re.greedy c _ k (Some b) s' (S pos)); [eauto | done].
  - apply andb_true_iff in Hw as [Ca Hw]. rewrite Ca.
    destruct (IH (Nat.pred lo) (Some a) (S pos) s') as [r Hr]; [done | lia | |].
    + replace (S pos + String.length w)%nat with (pos + S (String.length w))%nat by lia. done.
    + rewrite Hr. eauto.
Qed.

Lemma run_accepts p :
  forall g prev s pos,
    bracketed (length (Re.opened g)) p = true ->
    is_Some (Re.run p g prev s pos) <-> accepts p prev s.
Proof.
  induction p as [|it p IH]; intros g prev s pos Hb; simpl.
  - split; eauto.
  - destruct it; simpl in Hb.
    + destruct s as [|a s].
      * split; [intros [? ?]; discriminate | intros (a & s' & ? & _); discriminate].
      * destruct (c a) eqn:Ca.
        -- rewrite IH by done. split; [eauto|].
           intros (a' & s' & Heq & _ & H). inversion Heq; subst. done.
        -- split; [intros [? ?]; discriminate|].
           intros (a' & s' & Heq & Ca' & _). inversion Heq; subst. congruence.
    + split.
      * intros [r Hr]. apply greedy_sound in Hr as (w & s' & -> & Hw & Hlo & Hk).
        exists w, s'. repeat split; auto. eapply IH; eauto.
      * intros (w & s' & -> & Hw & Hlo & Hk).
        apply greedy_complete; auto. eapply IH; eauto.
    + destruct s as [|a s].
      * rewrite IH by done. split; [auto|]. intros [H | (a & s' & ? & _)]; [done | discriminate].
      * destruct (c a) eqn:Ca.
        -- destruct (Re.run p g (Some a) s (S pos)) eqn:E.
           ++ split; [|eauto]. intros _. right. exists a, s. repeat split; auto.
              eapply IH; eauto.
           ++ rewrite IH by done. split; [auto|].
              intros [H | (a' & s' & Heq & _ & H)]; [done|].
              inversion Heq; subst. eapply IH in H; eauto. rewrite E in H.
              destruct H; discriminate.
        -- rewrite IH by done. split; [auto|].
           intros [H | (a' & s' & Heq & Ca' & _)]; [done|].
           inversion Heq; subst. congruence.
    + destruct (xorb _ _).
      * rewrite IH by done. tauto.
      * split; [intros [? ?]; discriminate | intros [? _]; discriminate].
    + destruct prev as [a|].
      * destruct (c a) eqn:Ca.
        -- rewrite IH by done. split; [eauto | tauto].
        -- split; [intros [? ?]; discriminate|].
           intros [(a' & Heq & Ca') _]. inversion Heq; subst. congruence.
      * split; [intros [? ?]; discriminate | intros [(a' & ? & _) _]; discriminate].
    + apply IH. done.
    + destruct (Re.opened g) as [|st o]; simpl in Hb; [discriminate|].
      apply IH. done.
Qed.

Lemma search_from_accepts p s :
  bracketed 0 p = true ->
  forall prev pos,
    is_Some (Re.search_from p prev s pos)
    <-> exists pre post, s = pre +:+ post /\ accepts p (last_char prev pre) post.
Proof.
  intros Hb. induction s as [|a s IH]; intros prev pos; simpl.
  - destruct (Re.run p Re.no_groups prev "" pos) as [[e g]|] eqn:E.
    + split; [|eauto]. intros _. exists EmptyString, EmptyString. split; [done|].
      simpl. apply (run_accepts p Re.no_groups prev EmptyString pos Hb). rewrite E. eauto.
    + split; [intros [? ?]; discriminate|].
      intros (pre & post & Heq & H).
      destruct pre; [|discriminate]. simpl in Heq. subst post. simpl in H.
      apply (run_accepts p Re.no_groups prev _ pos Hb) in H. rewrite E in H. destruct H; discriminate.
  - destruct (Re.run p Re.no_groups prev (String a s) pos) as [[e g]|] eqn:E.
    + split; [|eauto]. intros _. exists EmptyString, (String a s). split; [done|].
      simpl. apply (run_accepts p Re.no_groups prev (String a s) pos Hb). rewrite E. eauto.
    + rewrite IH. split.
      * intros (pre & post & -> & H). exists (String a pre), post. done.
      * intros (pre & post & Heq & H). destruct pre as [|a' pre]; simpl in Heq.
        -- subst post. simpl in H.
           apply (run_accepts p Re.no_groups prev _ pos Hb) in H. rewrite E in H. destruct H; discriminate.
        -- inversion Heq; subst. exists pre, post. done.
Qed.

Lemma matches_accepts p s :
  bracketed 0 p = true ->
  Re.matches p s = true
  <-> exists pre post, s = pre +:+ post /\ accepts p (last_char None pre) post.
Proof.
  intros Hb. unfold Re.matches, Re.search.
  rewrite <- (search_from_accepts p s Hb None 0%nat).
  destruct (Re.search_from p None s 0); split; eauto; try discriminate.
  intros [? ?]; discriminate.
Qed.

(** ** The response parser always returns *)

Lemma parse_table_response_returns text :
  exists r, parse_table_response text = Ret r.
Proof.
  unfold parse_table_response.
  destruct (Re.search RESPONSE_PATTERN (response_line text)) as [m|] eqn:E; [|eauto].
  destruct (group_is_Some _ _ _ 1%nat E) as [g1 H1]; [vm_compute; lia|].
  destruct (group_is_Some _ _ _ 2%nat E) as [g2 H2]; [vm_compute; lia|].
  destruct (group_is_Some _ _ _ 3%nat E) as [g3 H3]; [vm_compute; lia|].
  rewrite H1, H2, H3. simpl. eauto.
Qed.

(** ** Lists as Python uses them *)

Lemma norm_index_in_range {A} (l : list A) (i : Z) :
  0 <= i < llen l -> Py.norm_index l i = Some (Z.to_nat i).
Proof.
  unfold Py.norm_index, llen. intros [H0 H1].
  destruct (Z.ltb_spec i 0); [lia|].
  destruct (Z.leb_spec 0 i); [|lia].
  destruct (Z.ltb_spec i (Z.of_nat (length l))); [done | lia].
Qed.

Lemma getitem_in_range {A} (l : list A) (i : Z) :
  0 <= i < llen l ->
  exists x, Py.getitem l i = Ret x /\ l !! Z.to_nat i = Some x.
Proof.
  intros H. unfold Py.getitem. rewrite norm_index_in_range by done.
  destruct (l !! Z.to_nat i) as [x|] eqn:E; [eauto|].
  apply lookup_ge_None in E. unfold llen in H. lia.
Qed.

Lemma setitem_in_range {A} (l : list A) (i : Z) (v : A) :
  0 <= i < llen l -> Py.setitem l i v = Ret (<[Z.to_nat i := v]> l).
Proof.
  intros H. unfold Py.setitem. by rewrite norm_index_in_range.
Qed.

Lemma range_elem (a b k : Z) : k ∈ Py.range a b <-> a <= k < b.
Proof.
  unfold Py.range. rewrite list_elem_of_fmap. split.
  - intros (j & -> & Hj). apply elem_of_seq in Hj. lia.
  - intros H. exists (Z.to_nat (k - a)). split; [lia|]. apply elem_of_seq. lia.
Qed.

Lemma mark_used_spec ks :
  forall used,
    (forall k, k ∈ ks -> 0 <= k < llen used) ->
    exists used',
      mark_used used ks = Ret used'
      /\ length used' = length used
      /\ (forall k, k ∈ ks -> used' !! Z.to_nat k = Some true)
      /\ (forall j : nat, Z.of_nat j ∉ ks -> used' !! j = used !! j).
Proof.
  induction ks as [|k ks IH]; intros used Hin; simpl.
  - exists used. repeat split; auto. intros k Hk. by apply elem_of_nil in Hk.
  - assert (Hk : 0 <= k < llen used) by (apply Hin; left).
    rewrite setitem_in_range by done. simpl.
    destruct (IH (<[Z.to_nat k := true]> used)) as (used' & -> & Hlen & Hset & Hkeep).
    { intros k' Hk'. unfold llen. rewrite length_insert. apply Hin. by right. }
    exists used'. rewrite length_insert in Hlen. repeat split; auto.
    + intros k' Hk'. destruct (decide (k' ∈ ks)) as [|Hn]; [auto|].
      apply elem_of_cons in Hk' as [->|]; [|done].
      rewrite Hkeep.
      * apply list_lookup_insert_eq. unfold llen in Hk. lia.
      * rewrite Z2Nat.id by lia. done.
    + intros j Hj. rewrite not_elem_of_cons in Hj. destruct Hj as [Hne Hj].
      rewrite Hkeep by done. apply list_lookup_insert_ne. lia.
Qed.

Lemma mark_used_range (used : list bool) (a b : Z) :
  0 <= a -> b < llen used ->
  exists used',
    mark_used used (Py.range a (b + 1)) = Ret used'
    /\ length used' = length used
    /\ (forall k, a <= k <= b -> used' !! Z.to_nat k = Some true)
    /\ (forall j : nat, ~ (a <= Z.of_nat j <= b) -> used' !! j = used !! j).
Proof.
  intros Ha Hb.
  destruct (mark_used_spec (Py.range a (b + 1)) used) as (used' & H & Hlen & Hset & Hkeep).
  { intros k Hk. apply range_elem in Hk. lia. }
  exists used'. repeat split; auto.
  - intros k Hk. apply Hset. apply range_elem. lia.
  - intros j Hj. apply Hkeep. rewrite range_elem. lia.
Qed.

Lemma mark_used_keeps (used used' : list bool) (a b : Z) (j : nat) :
  (forall k, a <= k <= b -> used' !! Z.to_nat k = Some true) ->
  (forall j : nat, ~ (a <= Z.of_nat j <= b) -> used' !! j = used !! j) ->
  used !! j = Some true -> used' !! j = Some true.
Proof.
  intros Hset Hkeep Hj.
  destruct (decide (a <= Z.of_nat j <= b)) as [Hin|Hout].
  - rewrite <- (Nat2Z.id j). by apply Hset.
  - by rewrite Hkeep.
Qed.

Lemma clamp_in_range {A} (l : list A) (i : Z) :
  0 <= i <= llen l -> Py.clamp l i = Z.to_nat i.
Proof.
  unfold Py.clamp, llen. intros H.
  destruct (Z.ltb_spec i 0); [lia|]. f_equal. lia.
Qed.

Lemma slice_length {A} (l : list A) (a b : Z) :
  0 <= a <= b -> b <= llen l -> length (Py.slice l a b) = Z.to_nat (b - a).
Proof.
  intros Ha Hb. unfold Py.slice.
  rewrite !clamp_in_range by lia.
  rewrite length_take, length_drop. unfold llen in Hb. lia.
Qed.

Lemma in_order_snoc (rs : list CaptionRecord) r0 :
  in_order rs ->
  Forall (fun r => end_sent_idx r < start_sent_idx r0) rs ->
  in_order (rs ++ [r0]).
Proof.
  intros Hord Hall i j r1 r2 Hij H1 H2.
  assert (Hj : (j < length (rs ++ [r0]))%nat) by (eapply lookup_lt_Some; eauto).
  rewrite length_app in Hj. simpl in Hj.
  assert (Hi : (i < length rs)%nat) by lia.
  rewrite lookup_app_l in H1 by done.
  destruct (decide (j < length rs)%nat) as [Hlt|Hge].
  - rewrite lookup_app_l in H2 by done. eauto.
  - rewrite lookup_app_r in H2 by lia.
    replace (j - length rs)%nat with O in H2 by lia. simpl in H2. inversion H2; subst.
    rewrite Forall_lookup in Hall. eauto.
Qed.

Lemma in_order_non_overlapping rs : in_order rs -> non_overlapping rs.
Proof.
  intros Hord i j r1 r2 Hij H1 H2. unfold spans_disjoint.
  destruct (decide (i < j)%nat).
  - left. by apply (Hord i j r1 r2).
  - right. apply (Hord j i r2 r1); [lia | done | done].
Qed.

(** ** The figure detector *)

Lemma figure_loop_spec sentences todo :
  forall i used results,
    0 <= i -> llen sentences = i + llen todo ->
    figure_inv sentences i used results ->
    exists rs,
      figure_loop sentences i todo used results = Ret rs
      /\ in_order rs
      /\ Forall (fun r => span_valid sentences r /\ figure_record sentences r) rs.
Proof.
  induction todo as [|s todo IH]; intros i used results Hi Hn Hinv; simpl.
  - exists results. destruct Hinv as (_ & Hord & Hall). split; [done|]. split; [done|].
    eapply Forall_impl; [exact Hall|]. simpl. tauto.
  - assert (Hn' : llen sentences = i + 1 + llen todo)
      by (unfold llen in *; rewrite length_cons in Hn; lia).
    clear Hn. unfold llen in Hn'.
    destruct Hinv as (Hlen & Hord & Hall).
    assert (Hiu : 0 <= i < llen used). { unfold llen. lia. }
    destruct (getitem_in_range used i) as (u & -> & Hu); [done|]. simpl.
    assert (Hnext : figure_inv sentences (i + 1) used results).
    { split; [done|]. split; [done|]. eapply Forall_impl; [exact Hall|].
      simpl. intros r (Hv & Hf & Hs & Hc). split; [done|]. split; [done|]. split; [lia | done]. }
    destruct u; [apply IH; auto; unfold llen; lia|].
    destruct (Re.search FIG_PATTERN s) as [m|]; [|apply IH; auto; unfold llen; lia].
    set (e := Z.min (i + 2) (llen sentences - 1)).
    assert (He : i <= e < llen sentences) by (unfold e, llen; lia).
    destruct (mark_used_range used i e) as (used' & -> & Hlen' & Hset & Hkeep);
      [lia | unfold llen in *; lia |]. simpl.
    apply IH; [lia | unfold llen in *; lia |].
    split; [congruence|]. split.
    + apply in_order_snoc; [done|]. simpl.
      eapply Forall_impl; [exact Hall|]. simpl.
      intros r (Hv & _ & Hstart & Hclaimed).
      destruct (Z.lt_ge_cases (end_sent_idx r) i) as [|Hge]; [done|].
      destruct (Hclaimed i) as [_ Hc]; [lia|]. congruence.
    + apply Forall_app. split.
      * eapply Forall_impl; [exact Hall|]. simpl.
        intros r (Hv & Hf & Hs & Hclaimed).
        split; [done|]. split; [done|]. split; [lia|].
        intros k Hk. destruct (Hclaimed k Hk) as [Hk0 Hku]. split; [done|].
        eapply mark_used_keeps; eauto.
      * apply Forall_singleton. unfold span_valid, figure_record, claimed. simpl.
        fold e. unfold llen in *.
        repeat split; auto; try lia.
Qed.

Lemma detect_figure_captions_spec sentences :
  exists figs,
    detect_figure_captions sentences = Ret figs
    /\ in_order figs
    /\ Forall (fun r => span_valid sentences r /\ figure_record sentences r) figs.
Proof.
  apply figure_loop_spec; [lia | unfold llen; lia |].
  split; [apply length_replicate|]. split; [|constructor].
  intros i j r1 r2 _ H. by rewrite lookup_nil in H.
Qed.

(** ** The table detector *)

Lemma known_label_cases l :
  known_label l = true -> l = "TABLE_CAPTION" \/ l = "NOT_CAPTION".
Proof.
  unfold known_label. intros H. apply orb_true_iff in H as [H|H];
    apply String.eqb_eq in H; auto.
Qed.

Lemma known_end_index_cases e :
  known_end_index e = true <-> e = -1 \/ e = 0 \/ e = 1 \/ e = 2.
Proof. unfold known_end_index. lia. Qed.

Lemma parse_table_response_normal text :
  exists r,
    parse_table_response text = Ret r
    /\ (label r = "TABLE_CAPTION" \/ label r = "NOT_CAPTION" \/ label r = "PARSE_ERROR")
    /\ (end_index r = -1 \/ end_index r = 0 \/ end_index r = 1 \/ end_index r = 2).
Proof.
  unfold parse_table_response.
  destruct (Re.search RESPONSE_PATTERN (response_line text)) as [m|] eqn:E.
  - destruct (group_is_Some _ _ _ 1%nat E) as [g1 H1]; [vm_compute; lia|].
    destruct (group_is_Some _ _ _ 2%nat E) as [g2 H2]; [vm_compute; lia|].
    destruct (group_is_Some _ _ _ 3%nat E) as [g3 H3]; [vm_compute; lia|].
    rewrite H1, H2, H3. simpl. eexists. split; [reflexivity|]. simpl. split.
    + destruct (known_label (Py.upper g1)) eqn:K; [|auto].
      apply known_label_cases in K. tauto.
    + destruct (known_end_index _) eqn:K; [|auto].
      by apply known_end_index_cases in K.
  - eexists. split; [reflexivity|]. simpl. auto.
Qed.

Section OracleFacts.

Context {World : Type}.
Variable chat : World -> string -> string -> World * chat_result.

Lemma call_qwen_table_spec (w : World) s0 s1 s2 :
  exists w' q,
    call_qwen_table chat w s0 s1 s2 = Ret (w', q)
    /\ w' = fst (chat w QWEN_MODEL (build_table_prompt s0 s1 s2))
    /\ normal_response q
    /\ (forall msg,
          snd (chat w QWEN_MODEL (build_table_prompt s0 s1 s2)) = Failed msg ->
          q = {| label := "ERROR"; end_index := -1;
                 reason := "Qwen call error: " +:+ msg |})
    /\ (forall content,
          snd (chat w QWEN_MODEL (build_table_prompt s0 s1 s2)) = Content content ->
          parse_table_response (Py.strip content) = Ret q).
Proof.
  unfold call_qwen_table.
  destruct (chat w QWEN_MODEL (build_table_prompt s0 s1 s2)) as [w' [content|msg]]; simpl.
  - destruct (parse_table_response_normal (Py.strip content)) as (r & Hp & Hl & He).
    rewrite Hp. simpl.
    exists w', r. split; [done|]. split; [done|]. split; [split; tauto|].
    split; [intros msg Hm; discriminate|]. intros c Hc. inversion Hc; subst c. exact Hp.
  - eexists w', _. split; [reflexivity|]. split; [done|]. split.
    + split; simpl; auto.
    + split; [|intros c Hc; discriminate]. intros m Hm. by inversion Hm.
Qed.

Lemma sentence_or_empty_spec sentences (k : Z) :
  0 <= k -> sentence_or_empty sentences k = Ret (sentence_at sentences k).
Proof.
  intros Hk. unfold sentence_or_empty, sentence_at.
  destruct (Z.ltb_spec k (llen sentences)).
  - destruct (getitem_in_range sentences k) as (x & -> & Hx); [lia|].
    rewrite Hx. destruct (Z.leb_spec 0 k); [done | lia].
  - by rewrite andb_false_r.
Qed.

Lemma accepted_iff (q : TableResponse) :
  normal_response q ->
  String.eqb (label q) "TABLE_CAPTION" && (end_index q >=? 0) = accepted q.
Proof.
  intros [_ He]. unfold accepted. f_equal. lia.
Qed.

Lemma sentence_at_lookup sentences (i : Z) s :
  0 <= i -> sentences !! Z.to_nat i = Some s -> sentence_at sentences i = s.
Proof.
  intros Hi Hs. unfold sentence_at. rewrite Hs.
  apply lookup_lt_Some in Hs. unfold llen.
  destruct (Z.leb_spec 0 i); [|lia].
  destruct (Z.ltb_spec i (Z.of_nat (length sentences))); [done | lia].
Qed.

(** The iteration at a candidate: the oracle is called once on the window,
    and the state changes as the response says. *)
Lemma table_body_candidate sentences (st : @table_state World) s :
  0 <= t_i st ->
  length (t_used st) = length sentences ->
  t_used st !! Z.to_nat (t_i st) = Some false ->
  sentences !! Z.to_nat (t_i st) = Some s ->
  Re.matches TABLE_KEYWORD_PAT s = true ->
  exists w' q st',
    call_qwen_table chat (t_world st) s
      (sentence_at sentences (t_i st + 1)) (sentence_at sentences (t_i st + 2))
      = Ret (w', q)
    /\ table_body chat sentences st = Ret st'
    /\ if accepted q then accepted_step sentences st st' w' q
       else rejected_step sentences st st' w' q.
Proof.
  intros Hi Hlen Hu Hs Hm.
  assert (Hin : 0 <= t_i st < llen sentences).
  { apply lookup_lt_Some in Hs. unfold llen. lia. }
  destruct (call_qwen_table_spec (t_world st) s
              (sentence_at sentences (t_i st + 1)) (sentence_at sentences (t_i st + 2)))
    as (w' & q & Hcall & _ & Hq & _).
  unfold table_body.
  destruct (getitem_in_range (t_used st) (t_i st)) as (u & -> & Hu');
    [unfold llen in *; lia|].
  rewrite Hu in Hu'. inversion Hu'; subst u. simpl.
  destruct (getitem_in_range sentences (t_i st)) as (s' & -> & Hs'); [done|].
  rewrite Hs in Hs'. inversion Hs'; subst s'. simpl.
  rewrite Hm. simpl.
  rewrite !sentence_or_empty_spec by lia. simpl.
  rewrite Hcall. simpl.
  rewrite (accepted_iff q Hq).
  assert (Hwin : [s; sentence_at sentences (t_i st + 1); sentence_at sentences (t_i st + 2)]
                 = window sentences (t_i st)).
  { unfold window. by rewrite (sentence_at_lookup sentences (t_i st) s). }
  destruct (accepted q) eqn:Hacc.
  - pose proof Hacc as Hacc'.
    unfold accepted in Hacc'. apply andb_true_iff in Hacc' as [_ He].
    set (e := Z.min (t_i st + end_index q) (llen sentences - 1)).
    assert (Hrange : t_i st <= e < llen sentences) by (unfold e; lia).
    destruct (mark_used_range (t_used st) (t_i st) e) as (used' & -> & Hlen' & Hset & Hkeep);
      [lia | unfold llen in *; lia |]. simpl.
    exists w', q. eexists. split; [done|]. split; [reflexivity|].
    rewrite Hacc. unfold accepted_step. simpl. fold e.
    split; [done|]. split; [done|]. split; [done|]. split.
    { intros k Hk. split; [lia|]. by apply Hset. }
    split; [done|].
    eexists. split; [reflexivity|]. simpl. rewrite Hwin. repeat split; done.
  - exists w', q. eexists. split; [done|]. split; [reflexivity|].
    rewrite Hacc. unfold rejected_step. simpl.
    split; [done|]. split; [done|]. split; [done|].
    eexists. split; [reflexivity|]. simpl. rewrite Hwin.
    rewrite (sentence_at_lookup sentences (t_i st) s) by done. repeat split; done.
Qed.

Lemma table_body_spec sentences (st : @table_state World) :
  table_inv sentences (t_i st) (t_used st) (t_results st) ->
  t_i st < llen sentences ->
  exists st',
    table_body chat sentences st = Ret st'
    /\ table_inv sentences (t_i st') (t_used st') (t_results st')
    /\ t_i st < t_i st'.
Proof.
  intros (Hi & Hlen & Hord & Hall) Hlt.
  assert (Hskip : table_inv sentences (t_i st + 1) (t_used st) (t_results st)).
  { split; [lia|]. split; [done|]. split; [done|].
    eapply Forall_impl; [exact Hall|]. simpl. intros r (Hv & Ht & He).
    split; [done|]. split; [done | lia]. }
  destruct (getitem_in_range (t_used st) (t_i st)) as (u & Hgu & Hu);
    [unfold llen in *; lia|].
  destruct (getitem_in_range sentences (t_i st)) as (s & Hgs & Hs); [lia|].
  destruct u.
  { unfold table_body. rewrite Hgu. simpl. eexists. split; [reflexivity|]. simpl.
    split; [done | lia]. }
  destruct (Re.matches TABLE_KEYWORD_PAT s) eqn:Hm.
  2:{ unfold table_body. rewrite Hgu. simpl. rewrite Hgs. simpl. rewrite Hm. simpl.
      eexists. split; [reflexivity|]. simpl. split; [done | lia]. }
  destruct (table_body_candidate sentences st s Hi Hlen Hu Hs Hm)
    as (w' & q & st' & Hcall & -> & Hstep).
  destruct (call_qwen_table_spec (t_world st) s
              (sentence_at sentences (t_i st + 1)) (sentence_at sentences (t_i st + 2)))
    as (w'' & q' & Hcall' & _ & Hq & _).
  rewrite Hcall in Hcall'. inversion Hcall'; subst w'' q'. clear Hcall'.
  exists st'. split; [done|].
  destruct (accepted q) eqn:Hacc.
  - destruct Hstep as (Hi' & _ & Hlen' & _ & _ & r & Hres & Hty & Hsrc & Hst & Hen & _ & _ & Hwin & Hl & Hei & Hr).
    unfold accepted in Hacc. apply andb_true_iff in Hacc as [_ He].
    assert (Hrange : t_i st <= end_sent_idx r < llen sentences) by lia.
    split; [|lia].
    split; [lia|]. split; [congruence|]. rewrite Hres. split.
    + apply in_order_snoc; [done|].
      eapply Forall_impl; [exact Hall|]. simpl. intros r0 (_ & _ & Hlt0). lia.
    + apply Forall_app. split.
      * eapply Forall_impl; [exact Hall|]. simpl. intros r0 (Hv & Ht & Hlt0).
        split; [done|]. split; [done | lia].
      * apply Forall_singleton. split; [unfold span_valid; lia|].
        split; [|lia].
        unfold table_record. destruct Hq as [_ Hq].
        split; [done|]. split; [done|]. split; [by rewrite Hwin, Hst|].
        split; [lia|]. rewrite Hl, Hei, Hr. eauto.
  - destruct Hstep as (Hi' & _ & Hused & r & Hres & Hty & Hsrc & Hst & Hen & _ & _ & Hwin & Hl & Hei & Hr).
    split; [|lia].
    split; [lia|]. split; [congruence|]. rewrite Hres. split.
    + apply in_order_snoc; [done|].
      eapply Forall_impl; [exact Hall|]. simpl. intros r0 (_ & _ & Hlt0). lia.
    + apply Forall_app. split.
      * eapply Forall_impl; [exact Hall|]. simpl. intros r0 (Hv & Ht & Hlt0).
        split; [done|]. split; [done | lia].
      * apply Forall_singleton. split; [unfold span_valid; lia|].
        split; [|lia].
        unfold table_record. destruct Hq as [_ Hq].
        split; [done|]. split; [done|]. split; [by rewrite Hwin, Hst|].
        split; [lia|]. rewrite Hl, Hei, Hr. eauto.
Qed.

Lemma table_loop_spec sentences (fuel : nat) :
  forall st : @table_state World,
    table_inv sentences (t_i st) (t_used st) (t_results st) ->
    llen sentences - t_i st <= Z.of_nat fuel ->
    exists st',
      table_loop chat fuel sentences st = Ret st'
      /\ table_inv sentences (t_i st') (t_used st') (t_results st').
Proof.
  induction fuel as [|fuel IH]; intros st Hinv Hfuel; simpl.
  - destruct (Z.ltb_spec (t_i st) (llen sentences)); [lia | eauto].
  - destruct (Z.ltb_spec (t_i st) (llen sentences)); [|eauto].
    destruct (table_body_spec sentences st Hinv) as (st1 & -> & Hinv1 & Hlt); [done|]. simpl.
    apply IH; [done | lia].
Qed.

Lemma detect_table_captions_spec (w : World) sentences :
  exists w' tabs,
    detect_table_captions chat w sentences = Ret (w', tabs)
    /\ in_order tabs
    /\ Forall (fun r => span_valid sentences r /\ table_record sentences r) tabs.
Proof.
  unfold detect_table_captions.
  destruct (table_loop_spec sentences (length sentences) (table_init w sentences))
    as (st' & -> & (_ & _ & Hord & Hall)).
  - split; [simpl; lia|]. split; [apply length_replicate|]. split; [|constructor].
    intros i j r1 r2 _ H. simpl in H. by rewrite lookup_nil in H.
  - simpl. unfold llen. lia.
  - simpl. eexists _, _. split; [reflexivity|]. split; [done|].
    eapply Forall_impl; [exact Hall|]. simpl. tauto.
Qed.

End OracleFacts.

(** ** Whitespace: [split], [splitlines] and [join] *)

Lemma linebreak_is_space a : Py.islinebreak a = true -> Py.isspace a = true.
Proof. destruct a as [[] [] [] [] [] [] [] []]; vm_compute; congruence. Qed.

Lemma split_words s : Forall is_word (Py.split s).
Proof.
  induction s as [|a s IH]; simpl; [constructor|].
  destruct (Py.isspace a) eqn:Ha; [done|].
  assert (Hone : is_word (String a EmptyString)).
  { split; [discriminate|]. simpl. by rewrite Ha. }
  destruct (Py.starts_word s).
  - destruct (Py.split s) as [|w ws]; [by constructor|].
    inversion IH as [|? ? [Hne Hw] Hws]; subst. constructor; [|done].
    split; [discriminate|]. simpl. by rewrite Ha, Hw.
  - by constructor.
Qed.

Lemma join_blank_line (lines : list string) :
  Py.split (Py.join " " (EmptyString :: lines)) = Py.split (Py.join " " lines)
  /\ Py.starts_word (Py.join " " (EmptyString :: lines)) = false.
Proof. destruct lines as [|l ls]; simpl; done. Qed.

Lemma join_first_char a l (ls : list string) :
  Py.join " " (String a l :: ls) = String a (Py.join " " (l :: ls)).
Proof. destruct ls; reflexivity. Qed.

Lemma splitlines_nil s : Py.splitlines s = [] -> s = EmptyString.
Proof.
  destruct s as [|a s]; [done|]. simpl.
  destruct (Py.islinebreak a).
  - destruct s as [|b s]; [discriminate|]. by destruct (_ && _).
  - by destruct (Py.splitlines s).
Qed.

Lemma split_join_splitlines_bounded (n : nat) :
  forall s, (String.length s <= n)%nat ->
    Py.split (Py.join " " (Py.splitlines s)) = Py.split s
    /\ Py.starts_word (Py.join " " (Py.splitlines s)) = Py.starts_word s.
Proof.
  induction n as [|n IH]; intros s Hn.
  - destruct s; [done | simpl in Hn; lia].
  - destruct s as [|a s]; [done|]. simpl in Hn.
    destruct (IH s) as [IHsplit IHstart]; [lia|].
    change (Py.splitlines (String a s)) with
      (if Py.islinebreak a then
         match s with
         | String b s'' =>
             if (Py.ord a =? 13)%N && (Py.ord b =? 10)%N
             then EmptyString :: Py.splitlines s''
             else EmptyString :: Py.splitlines s
         | EmptyString => [EmptyString]
         end
       else match Py.splitlines s with
            | l :: ls => String a l :: ls
            | [] => [String a EmptyString]
            end).
    destruct (Py.islinebreak a) eqn:Hlb.
    + pose proof (linebreak_is_space a Hlb) as Hsp.
      assert (Hgoal : forall lines,
                Py.split (Py.join " " lines) = Py.split s ->
                Py.split (Py.join " " (EmptyString :: lines)) = Py.split (String a s)
                /\ Py.starts_word (Py.join " " (EmptyString :: lines))
                   = Py.starts_word (String a s)).
      { intros lines Hl. destruct (join_blank_line lines) as [-> ->].
        simpl. rewrite Hsp. done. }
      destruct s as [|b s'']; [simpl; by rewrite Hsp|].
      destruct ((Py.ord a =? 13)%N && (Py.ord b =? 10)%N) eqn:Hcrlf; [|by apply Hgoal].
      apply Hgoal. simpl in Hn. destruct (IH s'') as [-> _]; [lia|].
      apply andb_true_iff in Hcrlf as [_ Hb]. simpl.
      assert (Hbs : Py.isspace b = true).
      { apply linebreak_is_space. unfold Py.islinebreak, Py.in_range.
        apply N.eqb_eq in Hb. rewrite Hb. reflexivity. }
      by rewrite Hbs.
    + assert (Hj : Py.join " " (match Py.splitlines s with
                                | l :: ls => String a l :: ls
                                | [] => [String a EmptyString]
                                end)
                   = String a (Py.join " " (Py.splitlines s))).
      { destruct (Py.splitlines s) as [|l ls]; [reflexivity|]. apply join_first_char. }
      rewrite Hj. simpl. by rewrite IHsplit, IHstart.
Qed.

Lemma split_join_splitlines s :
  Py.split (Py.join " " (Py.splitlines s)) = Py.split s.
Proof. by apply (split_join_splitlines_bounded (String.length s)). Qed.

(** [s.find(sub)] is the first occurrence. *)
Lemma find_first sub s :
  sub <> EmptyString ->
  (Py.find sub s = -1
   /\ forall p, String.substring p (String.length sub) s <> sub)
  \/ (exists k,
        Py.find sub s = Z.of_nat k
        /\ String.substring k (String.length sub) s = sub
        /\ forall p, (p < k)%nat -> String.substring p (String.length sub) s <> sub).
Proof.
  intros Hne. unfold Py.find. destruct (String.index 0 sub s) as [k|] eqn:E.
  - right. exists k. split; [done|]. split.
    + by apply (String.index_correct1 0).
    + intros p Hp. apply (String.index_correct2 0 k); [done | lia | done].
  - left. split; [done|]. intros p.
    apply (String.index_correct3 0); [done | done | lia].
Qed.

Lemma response_line_spec text :
  exists suffix,
    response_line text = Py.join " " (Py.split suffix)
    /\ Forall is_word (Py.split suffix)
    /\ ((suffix = text
         /\ forall p, String.substring p 6 text <> "LABEL=")
        \/ exists k,
             suffix = Py.slice_from k text
             /\ String.substring k 6 text = "LABEL="
             /\ forall p, (p < k)%nat -> String.substring p 6 text <> "LABEL=").
Proof.
  unfold response_line.
  destruct (find_first "LABEL=" text) as [[Hf Hnone] | (k & Hf & Hk & Hfirst)];
    [discriminate | |]; rewrite Hf.
  - exists text. simpl. rewrite split_join_splitlines.
    split; [done|]. split; [apply split_words|]. left. done.
  - exists (Py.slice_from k text).
    destruct (Z.geb_spec (Z.of_nat k) 0); [|lia].
    rewrite Nat2Z.id, split_join_splitlines.
    split; [done|]. split; [apply split_words|]. right. exists k. done.
Qed.

(** ** What the groups of a match hold *)

Lemma str_app_assoc (x y z : string) : (x +:+ y) +:+ z = x +:+ y +:+ z.
Proof. induction x as [|a x IH]; simpl; [done|]. by rewrite IH. Qed.

Lemma str_app_nil_r (x : string) : x +:+ EmptyString = x.
Proof. induction x as [|a x IH]; simpl; [done|]. by rewrite IH. Qed.

Lemma str_app_length (x y : string) :
  String.length (x +:+ y) = (String.length x + String.length y)%nat.
Proof. induction x as [|a x IH]; simpl; [done|]. by rewrite IH. Qed.

Lemma str_app_inv_nil (x y : string) :
  String.length (x +:+ y) = String.length x -> y = EmptyString.
Proof.
  rewrite str_app_length. destruct y; [done|]. simpl. lia.
Qed.

Lemma all_chars_app c (x y : string) :
  all_chars c (x +:+ y) = all_chars c x && all_chars c y.
Proof.
  induction x as [|a x IH]; simpl; [done|]. rewrite IH. by rewrite andb_assoc.
Qed.

Lemma last_char_app prev (x y : string) :
  last_char prev (x +:+ y) = last_char (last_char prev x) y.
Proof. revert prev. induction x as [|a x IH]; intros prev; simpl; [done|]. apply IH. Qed.

Lemma substring_skip (x y : string) (n : nat) :
  String.substring (String.length x) n (x +:+ y) = String.substring 0 n y.
Proof. induction x as [|a x IH]; simpl; [done|]. apply IH. Qed.

Lemma substring_take (w y : string) :
  String.substring 0 (String.length w) (w +:+ y) = w.
Proof.
  induction w as [|a w IH]; simpl; [by destruct y|]. by rewrite IH.
Qed.

(** The text between two positions of a string. *)
Lemma substring_middle (x w y : string) :
  String.substring (String.length x)
    (String.length (x +:+ w) - String.length x) (x +:+ w +:+ y) = w.
Proof.
  rewrite substring_skip, str_app_length.
  replace (String.length x + String.length w - String.length x)%nat
    with (String.length w) by lia.
  apply substring_take.
Qed.

(** The matcher reads the pattern as [derives] says. *)
Lemma run_derives p :
  forall g read s e g',
    Re.run p g (last_char None read) s (String.length read) = Some (e, g') ->
    exists read' s',
      derives p g read s (read', s', g') /\ e = String.length read'.
Proof.
  induction p as [|it p IH]; intros g read s e g' H; simpl in H.
  - inversion H; subst. by exists read, s.
  - assert (Hone : forall a, last_char None (read +:+ String a EmptyString) = Some a).
    { intros a. by rewrite last_char_app. }
    assert (Hlen : forall a, String.length (read +:+ String a EmptyString)
                             = S (String.length read)).
    { intros a. rewrite str_app_length. simpl. lia. }
    destruct it; simpl.
    + destruct s as [|a s]; [discriminate|].
      destruct (c a) eqn:Ca; [|discriminate].
      rewrite <- (Hone a), <- (Hlen a) in H.
      apply IH in H as (read' & s' & Hd & ->). exists read', s'. split; [|done].
      exists a, s. done.
    + apply greedy_sound in H as (w & s' & -> & Hw & Hlo & Hk).
      rewrite <- last_char_app, <- str_app_length in Hk.
      apply IH in Hk as (read' & s'' & Hd & ->). exists read', s''. split; [|done].
      exists w, s'. done.
    + assert (Hskip : Re.run p g (last_char None read) s (String.length read) = Some (e, g') ->
                exists read' s', (derives p g read s (read', s', g') \/
                   exists a s0, s = String a s0 /\ c a = true
                     /\ derives p g (read +:+ String a EmptyString) s0 (read', s', g'))
                  /\ e = String.length read').
      { intros H'. apply IH in H' as (read' & s' & Hd & ->). exists read', s'. auto. }
      destruct s as [|a s]; [auto|].
      destruct (c a) eqn:Ca; [|auto].
      destruct (Re.run p g (Some a) s (S (String.length read))) as [r|] eqn:E; [|auto].
      inversion H; subst r.
      rewrite <- (Hone a), <- (Hlen a) in E.
      apply IH in E as (read' & s' & Hd & ->). exists read', s'. split; [|done].
      right. exists a, s. done.
    + destruct (xorb _ _) eqn:Hx; [|discriminate].
      apply IH in H as (read' & s' & Hd & ->). exists read', s'. done.
    + destruct (last_char None read) as [a|] eqn:Hp; [|discriminate].
      destruct (c a) eqn:Ca; [|discriminate].
      rewrite <- Hp in H.
      apply IH in H as (read' & s' & Hd & ->). exists read', s'.
      split; [|done]. split; [|done]. by exists a.
    + apply IH in H as (read' & s' & Hd & ->). exists read', s'. done.
    + destruct (Re.opened g) as [|st o] eqn:Ho; [discriminate|].
      apply IH in H as (read' & s' & Hd & ->). exists read', s'. split; [|done].
      exists st, o. done.
Qed.

(** A reading only moves text from what is left to what is read. *)
Lemma derives_extends p :
  forall g read s read' s' g',
    derives p g read s (read', s', g') ->
    exists w, read' = read +:+ w /\ s = w +:+ s'.
Proof.
  induction p as [|it p IH]; intros g read s read' s' g' H; simpl in H.
  - inversion H; subst. exists EmptyString. by rewrite str_app_nil_r.
  - assert (Hchar : forall a s0,
              derives p g (read +:+ String a EmptyString) s0 (read', s', g') ->
              exists w, read' = read +:+ w /\ String a s0 = w +:+ s').
    { intros a s0 Hd. apply IH in Hd as (w & -> & ->).
      exists (String a w). by rewrite str_app_assoc. }
    destruct it.
    + destruct H as (a & s0 & -> & _ & Hd). eauto.
    + destruct H as (w & s0 & -> & _ & _ & Hd).
      apply IH in Hd as (w' & -> & ->). exists (w +:+ w').
      by rewrite !str_app_assoc.
    + destruct H as [Hd | (a & s0 & -> & _ & Hd)]; eauto.
    + destruct H as [_ Hd]. eauto.
    + destruct H as [_ Hd]. eauto.
    + eauto.
    + destruct H as (st & o & _ & Hd). eauto.
Qed.

Lemma derives_whole p g read s read' s' g' :
  derives p g read s (read', s', g') -> read +:+ s = read' +:+ s'.
Proof.
  intros H. apply derives_extends in H as (w & -> & ->). by rewrite str_app_assoc.
Qed.

Lemma derives_group_free p :
  group_free p = true ->
  forall g read s read' s' g',
    derives p g read s (read', s', g') -> g' = g.
Proof.
  induction p as [|it p IH]; intros Hp g read s read' s' g' H; simpl in H.
  - by inversion H.
  - destruct it; simpl in Hp; try discriminate.
    + destruct H as (a & s0 & _ & _ & Hd). eauto.
    + destruct H as (w & s0 & _ & _ & _ & Hd). eauto.
    + destruct H as [Hd | (a & s0 & _ & _ & Hd)]; eauto.
    + destruct H as [_ Hd]. eauto.
    + destruct H as [_ Hd]. eauto.
Qed.

Lemma derives_app p q :
  forall g read s res,
    derives (p ++ q) g read s res ->
    exists read1 s1 g1,
      derives p g read s (read1, s1, g1) /\ derives q g1 read1 s1 res.
Proof.
  induction p as [|it p IH]; intros g read s res H; simpl in H.
  - by exists read, s, g.
  - destruct it; simpl.
    + destruct H as (a & s0 & -> & Ca & Hd).
      apply IH in Hd as (r1 & s1 & g1 & H1 & H2). exists r1, s1, g1.
      split; [|done]. exists a, s0. done.
    + destruct H as (w & s0 & -> & Hw & Hlo & Hd).
      apply IH in Hd as (r1 & s1 & g1 & H1 & H2). exists r1, s1, g1.
      split; [|done]. exists w, s0. done.
    + destruct H as [Hd | (a & s0 & -> & Ca & Hd)];
        apply IH in Hd as (r1 & s1 & g1 & H1 & H2); exists r1, s1, g1.
      * split; [by left | done].
      * split; [|done]. right. exists a, s0. done.
    + destruct H as [Hx Hd].
      apply IH in Hd as (r1 & s1 & g1 & H1 & H2). exists r1, s1, g1. done.
    + destruct H as [Hx Hd].
      apply IH in Hd as (r1 & s1 & g1 & H1 & H2). exists r1, s1, g1. done.
    + apply IH in H as (r1 & s1 & g1 & H1 & H2). exists r1, s1, g1. done.
    + destruct H as (st & o & Ho & Hd).
      apply IH in Hd as (r1 & s1 & g1 & H1 & H2). exists r1, s1, g1.
      split; [|done]. exists st, o. done.
Qed.

(** Where the leftmost match starts, the matcher succeeded. *)
Lemma search_from_run p s :
  forall read m,
    Re.search_from p (last_char None read) s (String.length read) = Some m ->
    exists pre post g,
      s = pre +:+ post
      /\ Re.m_start m = String.length (read +:+ pre)
      /\ Re.run p Re.no_groups (last_char None (read +:+ pre)) post
           (String.length (read +:+ pre)) = Some (Re.m_end m, g)
      /\ Re.m_spans m = Re.closed g.
Proof.
  induction s as [|a s IH]; intros read m H; simpl in H.
  - destruct (Re.run p Re.no_groups _ EmptyString _) as [[e g]|] eqn:E; [|discriminate].
    inversion H; subst; simpl. exists EmptyString, EmptyString, g.
    rewrite !str_app_nil_r. repeat split; auto.
  - destruct (Re.run p Re.no_groups _ (String a s) _) as [[e g]|] eqn:E.
    + inversion H; subst; simpl. exists EmptyString, (String a s), g.
      rewrite !str_app_nil_r. repeat split; auto.
    + replace (Some a) with (last_char None (read +:+ String a EmptyString)) in H
        by (by rewrite last_char_app).
      replace (S (String.length read))
        with (String.length (read +:+ String a EmptyString)) in H
        by (rewrite str_app_length; simpl; lia).
      apply IH in H as (pre & post & g & -> & Hs & Hr & Hg).
      rewrite str_app_assoc in Hs, Hr. simpl in Hs, Hr.
      exists (String a pre), post, g. repeat split; auto.
Qed.

(** A pattern that ends in a group of [c+] takes all of a text of [c]. *)
Lemma greedy_to_end c (k : option ascii -> string -> nat -> option (nat * Re.groups)) s :
  (forall prev s pos e g', k prev s pos = Some (e, g') -> e = pos) ->
  (forall prev s pos prev' s' pos',
     is_Some (k prev s pos) -> is_Some (k prev' s' pos')) ->
  forall lo prev pos e g',
    all_chars c s = true ->
    Re.greedy c lo k prev s pos = Some (e, g') ->
    e = (pos + String.length s)%nat.
Proof.
  intros Hk1 Hk2.
  induction s as [|a s IH]; intros lo prev pos e g' Hall H; simpl in H.
  - destruct lo; [|discriminate]. apply Hk1 in H. simpl. lia.
  - simpl in Hall. apply andb_true_iff in Hall as [Ca Hall]. rewrite Ca in H.
    destruct (Re.greedy c (Nat.pred lo) k (Some a) s (S pos)) as [r|] eqn:E.
    + inversion H; subst r. apply IH in E; [|done]. simpl. lia.
    + exfalso. destruct lo; [|discriminate].
      destruct (greedy_complete c k s 0%nat (Some a) (S pos) EmptyString)
        as [r Hr]; [done | lia | eapply Hk2; eauto |].
      rewrite str_app_nil_r in Hr. simpl in E. rewrite E in Hr. discriminate.
Qed.

Lemma greedy_close_to_end c g s :
  forall lo prev pos e g',
    all_chars c s = true ->
    Re.greedy c lo (Re.run [Re.GroupClose] g) prev s pos = Some (e, g') ->
    e = (pos + String.length s)%nat.
Proof.
  apply greedy_to_end.
  - intros prev s' pos e g' H. simpl in H.
    destruct (Re.opened g); [discriminate|]. by inversion H.
  - intros prev s' pos prev' s'' pos' [r H]. simpl in *.
    destruct (Re.opened g); [discriminate | eauto].
Qed.

Lemma run_to_end c lo p0 :
  forall g prev s pos e g',
    all_chars c s = true ->
    Re.run (p0 ++ [Re.Many c lo; Re.GroupClose]) g prev s pos = Some (e, g') ->
    e = (pos + String.length s)%nat.
Proof.
  induction p0 as [|it p0 IH]; intros g prev s pos e g' Hall H.
  - simpl in H. by apply greedy_close_to_end in H.
  - change ((it :: p0) ++ [Re.Many c lo; Re.GroupClose])
      with (it :: (p0 ++ [Re.Many c lo; Re.GroupClose])) in H.
    destruct it; simpl in H.
    + destruct s as [|a s]; [discriminate|]. destruct (c0 a); [|discriminate].
      simpl in Hall. apply andb_true_iff in Hall as [_ Hall].
      apply IH in H; [|done]. simpl. lia.
    + apply greedy_sound in H as (w & s' & -> & _ & _ & Hk).
      rewrite all_chars_app in Hall. apply andb_true_iff in Hall as [_ Hall].
      apply IH in Hk; [|done]. rewrite str_app_length. lia.
    + assert (Hskip : Re.run (p0 ++ [Re.Many c lo; Re.GroupClose]) g prev s pos
                        = Some (e, g') -> e = (pos + String.length s)%nat) by eauto.
      destruct s as [|a s]; [auto|]. destruct (c0 a); [|auto].
      destruct (Re.run _ g (Some a) s (S pos)) as [r|] eqn:E; [|auto].
      inversion H; subst r.
      simpl in Hall. apply andb_true_iff in Hall as [_ Hall].
      apply IH in E; [|done]. simpl. lia.
    + destruct (xorb _ _); [eauto | discriminate].
    + destruct prev as [a|]; [|discriminate]. destruct (c0 a); [eauto | discriminate].
    + eauto.
    + destruct (Re.opened g); [discriminate | eauto].
Qed.

Lemma all_chars_weaken (c c' : ascii -> bool) s :
  (forall a, c a = true -> c' a = true) ->
  all_chars c s = true -> all_chars c' s = true.
Proof.
  intros Hc. induction s as [|a s IH]; simpl; [done|].
  intros H. apply andb_true_iff in H as [Ha Hs]. by rewrite (Hc a Ha), IH.
Qed.

Lemma not_space_not_newline a : Py.isspace a = false -> not_newline a = true.
Proof. destruct a as [[] [] [] [] [] [] [] []]; vm_compute; congruence. Qed.

(** A line of words joined by single spaces has no newline. *)
Lemma join_words_one_line (ws : list string) :
  Forall is_word ws -> all_chars not_newline (Py.join " " ws) = true.
Proof.
  induction 1 as [|w ws [_ Hw] _ IH]; [done|].
  assert (Hw' : all_chars not_newline w = true).
  { eapply all_chars_weaken; [|exact Hw]. intros a Ha.
    apply negb_true_iff in Ha. by apply not_space_not_newline. }
  destruct ws as [|w2 ws]; [done|].
  change (Py.join " " (w :: w2 :: ws)) with (w +:+ " " +:+ Py.join " " (w2 :: ws)).
  rewrite !all_chars_app, Hw', IH. reflexivity.
Qed.

Lemma response_line_one_line text :
  all_chars not_newline (response_line text) = true.
Proof.
  destruct (response_line_spec text) as (suffix & -> & Hw & _).
  by apply join_words_one_line.
Qed.

Lemma group_of_span t m (k : nat) (x w y : string) :
  Re.m_spans m !! k = Some (String.length x, String.length (x +:+ w)) ->
  t = x +:+ w +:+ y ->
  Re.group t m (S k) = Some w.
Proof.
  intros Hk ->. unfold Re.group. simpl. rewrite Hk. by rewrite substring_middle.
Qed.

Lemma is_minus a : Re.is_char "-" a = true -> a = "-"%char.
Proof. unfold Re.is_char. apply Ascii.eqb_eq. Qed.

(** The three groups of a match of the response pattern in a text of one
    line: a label of capitals and underscores, an integer text, and all
    that is left of the line. *)
Lemma response_groups t m :
  Re.search RESPONSE_PATTERN t = Some m ->
  all_chars not_newline t = true ->
  exists g1 g2 g3,
    Re.group t m 1 = Some g1
    /\ Re.group t m 2 = Some g2
    /\ Re.group t m 3 = Some g3
    /\ g1 <> EmptyString /\ all_chars is_label_char g1 = true
    /\ is_integer_text g2
    /\ g3 <> EmptyString /\ (exists x, t = x +:+ g3).
Proof.
  intros Hm Hline. unfold Re.search in Hm.
  apply (search_from_run RESPONSE_PATTERN t EmptyString) in Hm
    as (pre & post & g & -> & _ & Hrun & Hspans).
  change (EmptyString +:+ pre) with pre in Hrun.
  (* the match ends where the line ends *)
  assert (Hend : Re.m_end m = (String.length pre + String.length post)%nat).
  { rewrite all_chars_app in Hline. apply andb_true_iff in Hline as [_ Hpost].
    revert Hrun.
    change RESPONSE_PATTERN with
      (removelast (removelast RESPONSE_PATTERN)
       ++ [Re.Many not_newline 1; Re.GroupClose]).
    intros Hrun. by apply run_to_end in Hrun. }
  apply run_derives in Hrun as (read' & rest & Hd & Hlen).
  pose proof (derives_whole _ _ _ _ _ _ _ Hd) as Hwhole.
  assert (rest = EmptyString) as ->.
  { apply (str_app_inv_nil read'). rewrite <- Hwhole, str_app_length. lia. }
  rewrite str_app_nil_r in Hwhole.
  (* cut the pattern at its groups *)
  set (sp := Re.Many Py.isspace 0).
  set (P1 := Re.lit "LABEL" ++ [sp] ++ Re.lit "=" ++ [sp]).
  set (G1 := [Re.GroupOpen; Re.Many is_label_char 1; Re.GroupClose]).
  set (P2 := [sp] ++ Re.lit ";" ++ [sp] ++ Re.lit "END_INDEX" ++ [sp]
             ++ Re.lit "=" ++ [sp]).
  set (G2 := [Re.GroupOpen; Re.Opt (Re.is_char "-"); Re.Many Py.isdecimal 1;
              Re.GroupClose]).
  set (P3 := [sp] ++ Re.lit ";" ++ [sp] ++ Re.lit "REASON" ++ [sp]
             ++ Re.lit "=" ++ [sp]).
  set (G3 := [Re.GroupOpen; Re.Many not_newline 1; Re.GroupClose]).
  change RESPONSE_PATTERN with (P1 ++ G1 ++ P2 ++ G2 ++ P3 ++ G3) in Hd.
  apply derives_app in Hd as (r1 & s1 & g1 & Hd1 & Hd).
  apply derives_app in Hd as (r1' & s1' & g1' & Hg1 & Hd).
  apply derives_app in Hd as (r2 & s2 & g2 & Hd2 & Hd).
  apply derives_app in Hd as (r2' & s2' & g2' & Hg2 & Hd).
  apply derives_app in Hd as (r3 & s3 & g3 & Hd3 & Hg3).
  pose proof (derives_group_free P1 eq_refl _ _ _ _ _ _ Hd1) as ->.
  pose proof (derives_group_free P2 eq_refl _ _ _ _ _ _ Hd2) as ->.
  pose proof (derives_group_free P3 eq_refl _ _ _ _ _ _ Hd3) as ->.
  apply derives_whole in Hd1, Hd2, Hd3.
  (* group 1 *)
  subst G1. simpl in Hg1.
  destruct Hg1 as (L & ? & -> & HL & HLlen & st1 & o1 & Ho1 & Hg1).
  simpl in Ho1. inversion Ho1; subst st1 o1. clear Ho1.
  inversion Hg1; subst r1' s1' g1'. clear Hg1.
  (* group 2 *)
  subst G2. simpl in Hg2.
  assert (HN : exists N,
             is_integer_text N /\ r2' = r2 +:+ N /\ s2 = N +:+ s2'
             /\ g2' = {| Re.opened := [];
                         Re.closed := [(String.length r1, String.length (r1 +:+ L));
                                       (String.length r2, String.length (r2 +:+ N))] |}).
  { destruct Hg2 as [Hg2 | (a & ? & -> & Ha & Hg2)].
    - destruct Hg2 as (ds & ? & -> & Hds & Hdlen & st2 & o2 & Ho2 & Hg2).
      simpl in Ho2. inversion Ho2; subst st2 o2.
      inversion Hg2; subst. exists ds. split; [|done].
      exists ds. split; [|auto]. intros ->. simpl in Hdlen. lia.
    - destruct Hg2 as (ds & ? & -> & Hds & Hdlen & st2 & o2 & Ho2 & Hg2).
      simpl in Ho2. inversion Ho2; subst st2 o2.
      apply is_minus in Ha. subst a.
      inversion Hg2; subst. exists (String "-" ds).
      rewrite !str_app_assoc. simpl. split; [|done].
      exists ds. split; [|auto]. intros ->. simpl in Hdlen. lia. }
  destruct HN as (N & HNint & -> & -> & ->). clear Hg2.
  (* group 3 *)
  subst G3. simpl in Hg3.
  destruct Hg3 as (R & ? & -> & HR & HRlen & st3 & o3 & Ho3 & Hg3).
  simpl in Ho3. inversion Ho3; subst st3 o3. clear Ho3.
  inversion Hg3; subst read' g. clear Hg3.
  simpl in Hspans.
  exists L, N, R.
  subst x0.
  assert (Ht2 : pre +:+ post = r2 +:+ N +:+ s2').
  { rewrite Hd1, <- str_app_assoc. exact Hd2. }
  split. { apply (group_of_span _ m 0 r1 L x); [by rewrite Hspans | done]. }
  split. { apply (group_of_span _ m 1 r2 N s2'); [by rewrite Hspans | done]. }
  split. { apply (group_of_span _ m 2 r3 R EmptyString); [by rewrite Hspans|].
           by rewrite str_app_nil_r. }
  split. { intros ->. simpl in HLlen. lia. }
  split; [done|]. split; [done|].
  split. { intros ->. simpl in HRlen. lia. }
  by exists r3.
Qed.

Lemma upper_label g : all_chars is_label_char g = true -> Py.upper g = g.
Proof.
  induction g as [|a g IH]; simpl; [done|]. intros H.
  apply andb_true_iff in H as [Ha Hg]. rewrite (IH Hg). f_equal.
  revert Ha. destruct a as [[] [] [] [] [] [] [] []]; vm_compute; congruence.
Qed.


(** ** Spans and windows of the records *)

(** C8. Span validity: every record of either detector, rejected table
    candidates included, has [0 <= start <= end <= len(sentences) - 1];
    both detectors return on every sentence list and every oracle. *)
Theorem span_validity {World : Type}
    (chat : World -> string -> string -> World * chat_result)
    (w : World) (sentences : list string) :
  (exists figs,
     detect_figure_captions sentences = Ret figs
     /\ Forall (span_valid sentences) figs)
  /\ (exists w' tabs,
        detect_table_captions chat w sentences = Ret (w', tabs)
        /\ Forall (span_valid sentences) tabs).
Proof.
  split.
  - destruct (detect_figure_captions_spec sentences) as (figs & H & _ & Hall).
    exists figs. split; [done|]. eapply Forall_impl; [exact Hall|]. simpl. tauto.
  - destruct (detect_table_captions_spec chat w sentences) as (w' & tabs & H & _ & Hall).
    exists w', tabs. split; [done|]. eapply Forall_impl; [exact Hall|]. simpl. tauto.
Qed.

(** C1, as the code has it. Each detector keeps a consumption state of its
    own, all unclaimed when it starts: among the records of the figure
    detector no two spans intersect, and among the records of the table
    detector no two spans intersect. *)
Theorem non_overlap_within_each_detector {World : Type}
    (chat : World -> string -> string -> World * chat_result)
    (w : World) (sentences : list string) :
  (exists figs,
     detect_figure_captions sentences = Ret figs /\ non_overlapping figs)
  /\ (exists w' tabs,
        detect_table_captions chat w sentences = Ret (w', tabs)
        /\ non_overlapping tabs)
  /\ t_used (table_init w sentences) = replicate (length sentences) false.
Proof.
  split; [|split; [|reflexivity]].
  - destruct (detect_figure_captions_spec sentences) as (figs & H & Hord & _).
    exists figs. split; [done|]. by apply in_order_non_overlapping.
  - destruct (detect_table_captions_spec chat w sentences) as (w' & tabs & H & Hord & _).
    exists w', tabs. split; [done|]. by apply in_order_non_overlapping.
Qed.

(** C1 fails as stated: on a one-sentence document that names a figure and
    a table, the figure pass claims sentence 0 and the table pass still
    takes sentence 0 as a candidate; the two records of the document have
    the same span. *)
Lemma table_pass_ignores_figure_claims :
  exists fig tab,
    process_single_xml (constant_oracle caption_answer) writing_ok tt "a.xml" "out"
      (Some figure_and_table_doc)
    = Ret (tt, [("a.xml", fig); ("a.xml", tab)])
    /\ type_ fig = FIGURE /\ start_sent_idx fig = 0 /\ end_sent_idx fig = 0
    /\ type_ tab = TABLE /\ start_sent_idx tab = 0 /\ end_sent_idx tab = 0
    /\ ~ non_overlapping [fig; tab].
Proof.
  eexists _, _. split; [vm_compute; reflexivity|]. simpl.
  repeat (split; [reflexivity|]).
  intros H. specialize (H 0%nat 1%nat _ _ ltac:(lia) eq_refl eq_refl).
  unfold spans_disjoint in H. simpl in H. lia.
Qed.

(** C6, as the code has it. A FIGURE record carries as [raw_window] the
    sentences of its span, which are never none; a TABLE record carries the
    three strings S0, S1, S2 of its candidate, an absent sentence being the
    empty string. *)
Theorem raw_window_contents {World : Type}
    (chat : World -> string -> string -> World * chat_result)
    (w : World) (sentences : list string) :
  (exists figs,
     detect_figure_captions sentences = Ret figs
     /\ Forall (fun r =>
          type_ r = FIGURE
          /\ raw_window r
             = Py.slice sentences (start_sent_idx r) (end_sent_idx r + 1)
          /\ raw_window r <> []) figs)
  /\ (exists w' tabs,
        detect_table_captions chat w sentences = Ret (w', tabs)
        /\ Forall (fun r =>
             type_ r = TABLE
             /\ raw_window r = window sentences (start_sent_idx r)) tabs).
Proof.
  split.
  - destruct (detect_figure_captions_spec sentences) as (figs & H & _ & Hall).
    exists figs. split; [done|]. eapply Forall_impl; [exact Hall|]. simpl.
    intros r ((H0 & H1 & H2) & Hty & _ & _ & Hwin & _).
    split; [done|]. split; [done|]. rewrite Hwin. intros Hnil.
    apply (f_equal length) in Hnil. rewrite slice_length in Hnil by lia.
    simpl in Hnil. lia.
  - destruct (detect_table_captions_spec chat w sentences) as (w' & tabs & H & _ & Hall).
    exists w', tabs. split; [done|]. eapply Forall_impl; [exact Hall|]. simpl.
    intros r (_ & Hty & _ & Hwin & _). done.
Qed.

(** C6 fails as stated: the FIGURE record of a one-sentence list has that
    sentence as its [raw_window]. *)
Lemma figure_raw_window_not_empty :
  exists r,
    detect_figure_captions ["Fig. 1 shows the TGA curve."] = Ret [r]
    /\ type_ r = FIGURE
    /\ raw_window r = ["Fig. 1 shows the TGA curve."]
    /\ raw_window r <> [].
Proof.
  eexists. split; [vm_compute; reflexivity|]. simpl.
  split; [done|]. split; [done|]. discriminate.
Qed.

(** C9. Scenario A: the text splits into exactly three sentences, and the
    figure detector gives exactly one record, of type FIGURE, with id "3",
    from sentence 0 to sentence 2, whose caption is the three sentences
    joined by spaces. *)
Theorem scenario_A_one_figure :
  let s0 := "See Fig. 3." in
  let s1 := "It shows the TGA curve." in
  let s2 := "Conditions were 600" +:+ degree_sign +:+ "C." in
  split_sentences scenario_A = [s0; s1; s2]
  /\ detect_figure_captions (split_sentences scenario_A)
     = Ret [{| type_ := FIGURE;
               id := Some "3";
               start_sent_idx := 0;
               end_sent_idx := 2;
               caption_text := s0 +:+ " " +:+ s1 +:+ " " +:+ s2;
               source := RULE_FIG_PATTERN;
               raw_window := [s0; s1; s2];
               table_label := None;
               table_end_in_window := None;
               table_reason := None |}]
  /\ Z.min (0 + 2) (llen (split_sentences scenario_A) - 1) = 2.
Proof. vm_compute. repeat split; reflexivity. Qed.

(** What the parser returns when the pattern matches, from the three groups. *)
Lemma parse_table_response_matched text m g1 g2 g3 :
  Re.search RESPONSE_PATTERN (response_line text) = Some m ->
  Re.group (response_line text) m 1 = Some g1 ->
  Re.group (response_line text) m 2 = Some g2 ->
  Re.group (response_line text) m 3 = Some g3 ->
  parse_table_response text
  = Ret {| label := if known_label (Py.upper g1) then Py.upper g1 else "PARSE_ERROR";
           end_index :=
             (let z := match Py.int g2 with Some z => z | None => -1 end in
              if known_end_index z then z else -1);
           reason := Py.strip g3 |}.
Proof.
  intros Hm H1 H2 H3. unfold parse_table_response.
  rewrite Hm, H1, H2, H3. reflexivity.
Qed.

(** C10. The parser's result is normalized on every input: the label is
    TABLE_CAPTION, NOT_CAPTION or PARSE_ERROR and the end index is -1, 0, 1
    or 2; an END_INDEX outside that set is turned into -1.  So no record of
    the table detector ends more than two sentences after its start. *)
Theorem parser_normalizes {World : Type}
    (chat : World -> string -> string -> World * chat_result)
    (w : World) (sentences : list string) (text : string) :
  (exists r,
     parse_table_response text = Ret r
     /\ (label r = "TABLE_CAPTION" \/ label r = "NOT_CAPTION"
         \/ label r = "PARSE_ERROR")
     /\ (end_index r = -1 \/ end_index r = 0 \/ end_index r = 1
         \/ end_index r = 2)
     /\ (forall m g2,
           Re.search RESPONSE_PATTERN (response_line text) = Some m ->
           Re.group (response_line text) m 2 = Some g2 ->
           match Py.int g2 with
           | Some z => ~ (z = -1 \/ z = 0 \/ z = 1 \/ z = 2) -> end_index r = -1
           | None => end_index r = -1
           end))
  /\ (exists w' tabs,
        detect_table_captions chat w sentences = Ret (w', tabs)
        /\ Forall (fun r => end_sent_idx r <= start_sent_idx r + 2) tabs).
Proof.
  split.
  - destruct (parse_table_response_normal text) as (r & Hr & Hl & He).
    exists r. split; [done|]. split; [done|]. split; [done|].
    intros m g2 Hm H2.
    destruct (group_is_Some _ _ _ 1%nat Hm) as [g1 H1]; [vm_compute; lia|].
    destruct (group_is_Some _ _ _ 3%nat Hm) as [g3 H3]; [vm_compute; lia|].
    rewrite (parse_table_response_matched text m g1 g2 g3 Hm H1 H2 H3) in Hr.
    inversion Hr; subst r; simpl.
    destruct (Py.int g2) as [z|]; [|done]. intros Hout.
    destruct (known_end_index z) eqn:K; [|done].
    apply known_end_index_cases in K. tauto.
  - destruct (detect_table_captions_spec chat w sentences) as (w' & tabs & H & _ & Hall).
    exists w', tabs. split; [done|]. eapply Forall_impl; [exact Hall|]. simpl.
    intros r (_ & _ & _ & _ & Hle & _). done.
Qed.

Lemma parser_normalizes_witness :
  exists r,
    parse_table_response "LABEL=TABLE_CAPTION; END_INDEX=5; REASON=x" = Ret r
    /\ end_index r = -1.
Proof.
  destruct (parser_normalizes (constant_oracle caption_answer) tt []
              "LABEL=TABLE_CAPTION; END_INDEX=5; REASON=x")
    as [(r & Hr & _ & _ & Hout) _].
  exists r. split; [exact Hr|].
  pose proof (Hout {| Re.m_start := 0; Re.m_end := 42;
                      Re.m_spans := [(6, 19); (31, 32); (41, 42)]%nat |} "5"
                ltac:(vm_compute; reflexivity) ltac:(vm_compute; reflexivity))
    as Hfive.
  change (Py.int "5") with (Some 5) in Hfive. apply Hfive. lia.
Defined.

(** C4, as the code has it. When the pattern matches, the two fields are
    checked one by one: a label that is not TABLE_CAPTION or NOT_CAPTION
    becomes PARSE_ERROR, an integer outside -1, 0, 1, 2 becomes -1, each
    leaving the other field as it was captured, and the reason is the
    captured remainder, stripped. *)
Theorem parser_checks_fields_separately text m g1 g2 g3 :
  Re.search RESPONSE_PATTERN (response_line text) = Some m ->
  Re.group (response_line text) m 1 = Some g1 ->
  Re.group (response_line text) m 2 = Some g2 ->
  Re.group (response_line text) m 3 = Some g3 ->
  exists r,
    parse_table_response text = Ret r
    /\ reason r = Py.strip g3
    /\ (known_label g1 = false -> label r = "PARSE_ERROR")
    /\ (known_label g1 = true -> label r = g1)
    /\ (forall z, Py.int g2 = Some z ->
          (known_end_index z = true -> end_index r = z)
          /\ (known_end_index z = false -> end_index r = -1))
    /\ (Py.int g2 = None -> end_index r = -1).
Proof.
  intros Hm H1 H2 H3.
  rewrite (parse_table_response_matched text m g1 g2 g3 Hm H1 H2 H3).
  destruct (response_groups _ m Hm (response_line_one_line text))
    as (g1' & _ & _ & H1' & _ & _ & _ & Hl & _).
  rewrite H1 in H1'. inversion H1'; subst g1'. rewrite (upper_label g1 Hl).
  eexists. split; [reflexivity|]. simpl. split; [done|].
  split; [by intros ->|]. split; [by intros ->|]. split.
  - intros z ->. split; by intros ->.
  - by intros ->.
Qed.

Lemma parser_checks_fields_separately_witness :
  exists r,
    parse_table_response "LABEL=FOO; END_INDEX=1; REASON= x " = Ret r
    /\ label r = "PARSE_ERROR" /\ end_index r = 1 /\ reason r = "x".
Proof.
  destruct (parser_checks_fields_separately
              "LABEL=FOO; END_INDEX=1; REASON= x "
              {| Re.m_start := 0; Re.m_end := 33;
                 Re.m_spans := [(6, 9); (21, 22); (32, 33)]%nat |}
              "FOO" "1" "x")
    as (r & Hr & Hreason & Hbad & _ & Hint & _);
    [vm_compute; reflexivity | vm_compute; reflexivity
     | vm_compute; reflexivity | vm_compute; reflexivity |].
  exists r. split; [exact Hr|]. split; [apply Hbad; vm_compute; reflexivity|].
  split; [|exact Hreason].
  apply (Hint 1); vm_compute; reflexivity.
Defined.

(** C4 fails as stated: with an unknown label the end index stays 1 and the
    reason is the captured one; with an end index out of range the label
    stays TABLE_CAPTION. *)
Lemma parse_error_is_not_whole_record :
  Re.matches RESPONSE_PATTERN (response_line "LABEL=FOO; END_INDEX=1; REASON=x") = true
  /\ parse_table_response "LABEL=FOO; END_INDEX=1; REASON=x"
     = Ret {| label := "PARSE_ERROR"; end_index := 1; reason := "x" |}
  /\ Re.matches RESPONSE_PATTERN
       (response_line "LABEL=TABLE_CAPTION; END_INDEX=5; REASON=x") = true
  /\ parse_table_response "LABEL=TABLE_CAPTION; END_INDEX=5; REASON=x"
     = Ret {| label := "TABLE_CAPTION"; end_index := -1; reason := "x" |}
  /\ parse_table_response "LABEL=FOO; END_INDEX=1; REASON=x"
     <> Ret {| label := "PARSE_ERROR"; end_index := -1;
               reason := "raw: LABEL=FOO; END_INDEX=1; REASON=x" |}.
Proof.
  repeat split; try (vm_compute; reflexivity).
  vm_compute. discriminate.
Qed.

(** ** The response parser on every text *)

Lemma substring_all (s : string) : String.substring 0 (String.length s) s = s.
Proof. induction s as [|a s IH]; simpl; [done|]. by rewrite IH. Qed.

Lemma substring_0_prefix (w : string) :
  forall s, String.substring 0 (String.length w) s = w ->
    exists rest, s = w +:+ rest.
Proof.
  induction w as [|a w IH]; intros s H; simpl in *; [by exists s|].
  destruct s as [|b s]; [discriminate|]. inversion H; subst b.
  match goal with H' : String.substring 0 _ s = w |- _ =>
    apply IH in H' as [rest ->] end.
  rewrite substring_take. by exists rest.
Qed.

(** An occurrence of [w] at index [k] cuts the text in three. *)
Lemma occurrence_at (w : string) :
  w <> EmptyString ->
  forall (k : nat) s,
    String.substring k (String.length w) s = w ->
    exists pre rest,
      s = pre +:+ w +:+ rest
      /\ String.length pre = k
      /\ Py.slice_from k s = w +:+ rest.
Proof.
  intros Hw k. induction k as [|k IH]; intros s H.
  - apply substring_0_prefix in H as [rest ->].
    exists EmptyString, rest. split; [done|]. split; [done|].
    unfold Py.slice_from. rewrite Nat.sub_0_r. apply substring_all.
  - destruct s as [|a s].
    + destruct w; [done|]. discriminate.
    + simpl in H. apply IH in H as (pre & rest & -> & Hlen & Hs).
      exists (String a pre), rest. split; [done|]. split; [simpl; lia|].
      exact Hs.
Qed.

(** C3. On every text the parser returns a result and never raises.  It
    works on the text from the first "LABEL=" on (the whole text when there
    is none), with every run of whitespace and line breaks made one space.
    When the pattern matches, its three groups are a label of capitals and
    underscores, an integer text with an optional minus sign, and the rest
    of the line, from which the result is made.  When it does not match,
    the result is PARSE_ERROR with end index -1, the reason being the first
    200 characters of that line after the tag "raw: ". *)
Theorem parser_never_raises (text : string) :
  exists suffix r,
    ((suffix = text /\ forall p, String.substring p 6 text <> "LABEL=")
     \/ exists k pre rest,
          text = pre +:+ "LABEL=" +:+ rest
          /\ String.length pre = k
          /\ suffix = "LABEL=" +:+ rest
          /\ forall p, (p < k)%nat -> String.substring p 6 text <> "LABEL=")
    /\ response_line text = Py.join " " (Py.split suffix)
    /\ Forall is_word (Py.split suffix)
    /\ parse_table_response text = Ret r
    /\ (Re.search RESPONSE_PATTERN (response_line text) = None ->
          r = {| label := "PARSE_ERROR";
                 end_index := -1;
                 reason := "raw: " +:+ Py.slice_to 200 (response_line text) |})
    /\ (forall m,
          Re.search RESPONSE_PATTERN (response_line text) = Some m ->
          exists g1 g2 g3,
            Re.group (response_line text) m 1 = Some g1
            /\ Re.group (response_line text) m 2 = Some g2
            /\ Re.group (response_line text) m 3 = Some g3
            /\ g1 <> EmptyString /\ all_chars is_label_char g1 = true
            /\ is_integer_text g2
            /\ g3 <> EmptyString /\ (exists x, response_line text = x +:+ g3)
            /\ r = {| label := if known_label g1 then g1 else "PARSE_ERROR";
                      end_index :=
                        (let z := match Py.int g2 with Some z => z | None => -1 end in
                         if known_end_index z then z else -1);
                      reason := Py.strip g3 |}).
Proof.
  destruct (response_line_spec text) as (suffix & Hline & Hwords & Hsuffix).
  destruct (parse_table_response_returns text) as [r Hr].
  exists suffix, r. split.
  { destruct Hsuffix as [[-> Hnone] | (k & -> & Hk & Hfirst)]; [by left|].
    right. apply (occurrence_at "LABEL=") in Hk as (pre & rest & Ht & Hlen & Hs);
      [|discriminate].
    exists k, pre, rest. done. }
  split; [done|]. split; [done|]. split; [done|]. split.
  - intros Hnone. unfold parse_table_response in Hr. rewrite Hnone in Hr.
    by inversion Hr.
  - intros m Hm.
    destruct (response_groups _ m Hm (response_line_one_line text))
      as (g1 & g2 & g3 & H1 & H2 & H3 & Hne1 & Hl & Hint & Hne3 & Hrest).
    exists g1, g2, g3. repeat (split; [done|]).
    rewrite (parse_table_response_matched text m g1 g2 g3 Hm H1 H2 H3) in Hr.
    rewrite (upper_label g1 Hl) in Hr. by inversion Hr.
Qed.

Lemma parser_never_raises_witness :
  parse_table_response "no label here"
  = Ret {| label := "PARSE_ERROR"; end_index := -1; reason := "raw: no label here" |}.
Proof.
  destruct (parser_never_raises "no label here")
    as (suffix & r & _ & _ & _ & Hr & Hnone & _).
  rewrite Hr. f_equal. apply Hnone. vm_compute. reflexivity.
Defined.

(** ** Text extraction and the per-document pipeline *)

Lemma flat_map_nil {A B : Type} (f : A -> list B) (l : list A) :
  Forall (fun x => f x = []) l -> List.flat_map f l = [].
Proof.
  induction 1 as [|x l Hx _ IH]; simpl; [done|]. by rewrite Hx, IH.
Qed.

Lemma flat_map_nil_inv {A B : Type} (f : A -> list B) (l : list A) :
  List.flat_map f l = [] -> Forall (fun x => f x = []) l.
Proof.
  induction l as [|x l IH]; simpl; intros H; [constructor|].
  apply app_eq_nil in H as [Hx Hl]. constructor; auto.
Qed.

(** A document without any text node has none under any element. *)
Lemma texts_within_none name :
  forall (n : xml) (inside : bool),
    texts_within name true n = [] -> texts_within name inside n = [].
Proof.
  fix IH 1. intros [t|nm children] inside; simpl.
  - discriminate.
  - intros H. apply flat_map_nil_inv in H. apply flat_map_nil.
    induction children as [|c cs IHcs]; [constructor|].
    inversion H; subst. constructor; [|by apply IHcs].
    destruct (_ || _); [done | by apply IH].
Qed.

Lemma texts_within_inside name name' :
  forall n : xml, texts_within name true n = texts_within name' true n.
Proof.
  fix IH 1. intros [t|nm children]; simpl; [done|].
  induction children as [|c cs IHcs]; simpl; [done|]. by rewrite IH, IHcs.
Qed.

Lemma no_text_no_region name root :
  xpath_all_texts root = [] -> xpath_texts_under name root = [].
Proof.
  unfold xpath_all_texts, xpath_texts_under. intros H.
  apply texts_within_none. by rewrite (texts_within_inside name EmptyString).
Qed.

Section PipelineFacts.

Context {World : Type}.
Variable chat : World -> string -> string -> World * chat_result.
Variable save_json :
  World -> string -> string -> list (string * CaptionRecord) -> World * option string.

Lemma process_single_xml_no_text (w : World) fname out_json_dir parsed :
  falsy (extract_rawtext_from_xml parsed) = true ->
  process_single_xml chat save_json w fname out_json_dir parsed = Ret (w, []).
Proof. unfold process_single_xml. by intros ->. Qed.

End PipelineFacts.

(** C7, as the code has it. The extractor of the sentence-listing script
    tries the raw-text region, then the body, then the whole document, and
    returns the squeezed text of the first of them that has a text node,
    empty or not.  The extractor of the caption pipeline reads the raw-text
    region only.  In the pipeline a document that cannot be parsed, has no
    raw text or has an empty one gives zero records without raising:
    [process_single_xml] returns the empty list, with the oracle not asked
    and nothing written. *)
Theorem extraction_order {World : Type}
    (chat : World -> string -> string -> World * chat_result)
    (save_json :
       World -> string -> string -> list (string * CaptionRecord) -> World * option string)
    (w : World) (fname out_json_dir : string) (parsed : option xml) :
  (parsed = None ->
     ExtractCaption.extract_text_from_xml parsed = None
     /\ extract_rawtext_from_xml parsed = None)
  /\ (forall root, parsed = Some root ->
        let raw := xpath_texts_under "rawtext" root in
        let body := xpath_texts_under "body" root in
        let all := xpath_all_texts root in
        (raw <> [] ->
           ExtractCaption.extract_text_from_xml parsed
             = Some (squeeze (Py.join " " raw))
           /\ extract_rawtext_from_xml parsed
              = Some (Py.strip (squeeze (Py.replace CR " " (Py.join " " raw)))))
        /\ (raw = [] -> extract_rawtext_from_xml parsed = None)
        /\ (raw = [] -> body <> [] ->
              ExtractCaption.extract_text_from_xml parsed
                = Some (squeeze (Py.join " " body)))
        /\ (raw = [] -> body = [] -> all <> [] ->
              ExtractCaption.extract_text_from_xml parsed
                = Some (squeeze (Py.join " " all)))
        /\ (all = [] -> ExtractCaption.extract_text_from_xml parsed = None))
  /\ (falsy (extract_rawtext_from_xml parsed) = true ->
        process_single_xml chat save_json w fname out_json_dir parsed = Ret (w, [])).
Proof.
  split; [by intros ->|]. split.
  - intros root -> raw body all. subst raw body all.
    unfold ExtractCaption.extract_text_from_xml, extract_rawtext_from_xml.
    split; [|split; [|split; [|split]]].
    + intros Hne. destruct (xpath_texts_under "rawtext" root); [done|].
      split; reflexivity.
    + by intros ->.
    + intros -> Hne. destruct (xpath_texts_under "body" root); done.
    + intros -> -> Hne. destruct (xpath_all_texts root); done.
    + intros Hall.
      by rewrite (no_text_no_region "rawtext" root Hall),
                 (no_text_no_region "body" root Hall), Hall.
  - apply process_single_xml_no_text.
Qed.

Lemma extraction_order_witness :
  ExtractCaption.extract_text_from_xml (Some body_only_doc) = Some "See Fig. 3."
  /\ process_single_xml (constant_oracle caption_answer) (writing_fails "disk full") tt
       "a.xml" "out" None = Ret (tt, []).
Proof.
  destruct (extraction_order (constant_oracle caption_answer) (writing_fails "disk full")
              tt "a.xml" "out" (Some body_only_doc)) as (_ & Hdoc & _).
  destruct (Hdoc body_only_doc eq_refl) as (_ & _ & Hbody & _).
  split; [apply Hbody; [reflexivity | discriminate]|].
  destruct (extraction_order (constant_oracle caption_answer) (writing_fails "disk full")
              tt "a.xml" "out" None) as (_ & _ & Hnone).
  apply Hnone. reflexivity.
Defined.

(** C7 fails as stated. A document with a body and no raw-text region: the
    first non-empty text is the body's, yet the pipeline's extractor gives
    none and the pipeline emits no record.  A document with a blank
    raw-text region: the sentence-listing extractor returns the empty text
    instead of going on to the body. *)
Lemma pipeline_extractor_has_no_fallback :
  first_nonempty_text body_only_doc = Some "See Fig. 3."
  /\ extract_rawtext_from_xml (Some body_only_doc) = None
  /\ process_single_xml (constant_oracle caption_answer) writing_ok tt "a.xml" "out"
       (Some body_only_doc) = Ret (tt, [])
  /\ first_nonempty_text blank_rawtext_doc = Some "See Fig. 3."
  /\ ExtractCaption.extract_text_from_xml (Some blank_rawtext_doc)
     = Some EmptyString.
Proof. vm_compute. repeat split; reflexivity. Qed.

(** ** The figure pattern *)

Lemma nocase_F a : Re.is_char_nocase "F" a = true <-> (a = "F" \/ a = "f")%char.
Proof. each_char a. Qed.

Lemma nocase_i a : Re.is_char_nocase "i" a = true <-> (a = "I" \/ a = "i")%char.
Proof. each_char a. Qed.

Lemma nocase_g a : Re.is_char_nocase "g" a = true <-> (a = "G" \/ a = "g")%char.
Proof. each_char a. Qed.

Lemma nocase_dot a : Re.is_char_nocase "." a = true <-> (a = ".")%char.
Proof. each_char a. Qed.

Lemma FIG_PATTERN_matches s :
  Re.matches FIG_PATTERN s = true
  <-> exists pre f i g ws d post,
        s = pre +:+ String f (String i (String g (String "." (ws +:+ String d post))))
        /\ Re.is_char_nocase "F" f = true
        /\ Re.is_char_nocase "i" i = true
        /\ Re.is_char_nocase "g" g = true
        /\ Re.word_before (last_char None pre) = false
        /\ all_chars Py.isspace ws = true
        /\ Py.isdecimal d = true.
Proof.
  rewrite matches_accepts by reflexivity. split.
  - intros (pre & post & -> & H). simpl in H.
    destruct H as (Hb & f & s1 & -> & Hf & i & s2 & -> & Hi & g & s3 & -> & Hg
                   & dot & s4 & -> & Hdot & ws & s5 & -> & Hws & _
                   & ds & s6 & -> & Hds & Hlen & _).
    apply nocase_dot in Hdot. subst dot.
    destruct ds as [|d ds]; [simpl in Hlen; lia|]. simpl in Hds.
    apply andb_true_iff in Hds as [Hd _].
    exists pre, f, i, g, ws, d, (ds +:+ s6). split; [reflexivity|].
    repeat (split; [done|]). split; [|by split].
    assert (Hw : Py.isword f = true)
      by (apply nocase_F in Hf; destruct Hf as [-> | ->]; reflexivity).
    unfold Re.word_here in Hb. rewrite Hw in Hb.
    destruct (Re.word_before _); done.
  - intros (pre & f & i & g & ws & d & post & -> & Hf & Hi & Hg & Hb & Hws & Hd).
    eexists pre, _. split; [reflexivity|]. simpl. split.
    { rewrite Hb. apply nocase_F in Hf. destruct Hf as [-> | ->]; reflexivity. }
    eexists _, _. split; [reflexivity|]. split; [done|].
    eexists _, _. split; [reflexivity|]. split; [done|].
    eexists _, _. split; [reflexivity|]. split; [done|].
    eexists _, _. split; [reflexivity|]. split; [done|].
    exists ws, (String d post). split; [done|]. split; [done|]. split; [lia|].
    exists (String d EmptyString), post. split; [done|]. simpl. rewrite Hd.
    split; [done|]. split; [lia | done].
Qed.

(** The loop only appends, and what it appends starts at [i] or later. *)
Lemma figure_loop_appends sentences todo :
  forall i used results rs,
    figure_loop sentences i todo used results = Ret rs ->
    exists more,
      rs = results ++ more /\ Forall (fun r => i <= start_sent_idx r) more.
Proof.
  induction todo as [|s todo IH]; intros i used results rs H; simpl in H.
  - inversion H; subst. exists []. by rewrite app_nil_r.
  - destruct (Py.getitem used i) as [u|]; [simpl in H | discriminate].
    assert (Hskip : figure_loop sentences (i + 1) todo used results = Ret rs ->
              exists more, rs = results ++ more
                /\ Forall (fun r => i <= start_sent_idx r) more).
    { intros H'. apply IH in H' as (more & -> & Hall). exists more. split; [done|].
      eapply Forall_impl; [exact Hall|]. simpl. lia. }
    destruct u; [auto|].
    destruct (Re.search FIG_PATTERN s) as [m|]; [|auto].
    destruct (mark_used _ _) as [used'|]; [simpl in H | discriminate].
    apply IH in H as (more & -> & Hall).
    eexists (_ :: more). rewrite <- app_assoc. split; [reflexivity|].
    constructor; [simpl; lia|].
    eapply Forall_impl; [exact Hall|]. simpl. lia.
Qed.


(** ** What the figure detector covers *)

Lemma getitem_Ret {A} (l : list A) (i : Z) (x : A) :
  0 <= i -> Py.getitem l i = Ret x -> l !! Z.to_nat i = Some x.
Proof.
  intros Hi. unfold Py.getitem, Py.norm_index.
  destruct (Z.ltb_spec i 0); [lia|].
  destruct (_ && _); [|discriminate].
  destruct (l !! Z.to_nat i); [|discriminate]. by intros [= ->].
Qed.

Lemma figure_loop_covers sentences todo :
  forall i used results rs,
    0 <= i ->
    drop (Z.to_nat i) sentences = todo ->
    length used = length sentences ->
    Forall (fun r => exists s,
              sentences !! Z.to_nat (start_sent_idx r) = Some s
              /\ Re.matches FIG_PATTERN s = true) results ->
    (forall k : nat, used !! k = Some true ->
       exists r, r ∈ results /\ covers r (Z.of_nat k)) ->
    (forall (k : nat) s, Z.of_nat k < i -> sentences !! k = Some s ->
       Re.matches FIG_PATTERN s = true ->
       exists r, r ∈ results /\ covers r (Z.of_nat k)) ->
    figure_loop sentences i todo used results = Ret rs ->
    Forall (fun r => exists s,
              sentences !! Z.to_nat (start_sent_idx r) = Some s
              /\ Re.matches FIG_PATTERN s = true) rs
    /\ (forall (k : nat) s, sentences !! k = Some s ->
          Re.matches FIG_PATTERN s = true ->
          exists r, r ∈ rs /\ covers r (Z.of_nat k)).
Proof.
  induction todo as [|s todo IH]; intros i used results rs Hi Hdrop Hlen Hsound Hused Hcov H.
  - simpl in H. inversion H; subst rs. split; [done|].
    intros k s Hk Hm. apply (Hcov k s); [|done..].
    apply lookup_lt_Some in Hk.
    apply (f_equal length) in Hdrop. rewrite length_drop in Hdrop. simpl in Hdrop. lia.
  - assert (Hs : sentences !! Z.to_nat i = Some s).
    { pose proof (lookup_drop sentences (Z.to_nat i) 0) as Hl.
      rewrite Hdrop, Nat.add_0_r in Hl. done. }
    assert (Hdrop' : drop (Z.to_nat (i + 1)) sentences = todo).
    { replace (Z.to_nat (i + 1)) with (Z.to_nat i + 1)%nat by lia.
      rewrite <- drop_drop, Hdrop. done. }
    pose proof (lookup_lt_Some _ _ _ Hs) as Hin.
    simpl in H.
    destruct (Py.getitem used i) as [u|] eqn:Hg; [simpl in H | discriminate].
    apply getitem_Ret in Hg; [|done].
    assert (Hmatch : Re.matches FIG_PATTERN s
                     = match Re.search FIG_PATTERN s with Some _ => true | None => false end)
      by reflexivity.
    (* an iteration that adds nothing *)
    assert (Hskip : (u = true \/ Re.matches FIG_PATTERN s = false) ->
              figure_loop sentences (i + 1) todo used results = Ret rs ->
              Forall (fun r => exists s,
                        sentences !! Z.to_nat (start_sent_idx r) = Some s
                        /\ Re.matches FIG_PATTERN s = true) rs
              /\ (forall (k : nat) s, sentences !! k = Some s ->
                    Re.matches FIG_PATTERN s = true ->
                    exists r, r ∈ rs /\ covers r (Z.of_nat k))).
    { intros Hwhy. apply IH; [lia | done | done | done | done |].
      intros k s' Hk Hsk Hmk.
      destruct (decide (Z.of_nat k < i)) as [|Hge]; [eauto|].
      assert (k = Z.to_nat i) by lia. subst k.
      rewrite Hs in Hsk. inversion Hsk; subst s'.
      destruct Hwhy as [-> | Hno]; [apply Hused; done | congruence]. }
    destruct u; [apply Hskip; auto|].
    destruct (Re.search FIG_PATTERN s) as [m|] eqn:Hsearch; [|apply Hskip; auto].
    set (e := Z.min (i + 2) (llen sentences - 1)) in *.
    assert (He : i <= e < llen sentences). { unfold e, llen. lia. }
    destruct (mark_used_range used i e) as (used' & Hmark & Hlen' & Hset & Hkeep);
      [lia | unfold llen in *; lia |].
    rewrite Hmark in H. simpl in H.
    match type of H with
    | figure_loop _ _ _ _ (results ++ [?r]) = _ => set (r0 := r) in *
    end.
    assert (Hr0 : covers r0 i /\ forall k, i <= k <= e -> covers r0 k).
    { unfold covers, r0. simpl. fold e. split; [lia | intros k Hk; lia]. }
    apply (IH (i + 1) used' (results ++ [r0]) rs); [lia | done | congruence | | | | done].
    + apply Forall_app. split; [done|]. apply Forall_singleton.
      exists s. unfold r0. simpl. done.
    + intros k Hk. destruct (decide (i <= Z.of_nat k <= e)) as [Hin'|Hout].
      * exists r0. split; [apply elem_of_app; right; by apply list_elem_of_singleton|].
        by apply (proj2 Hr0).
      * rewrite Hkeep in Hk by done. destruct (Hused k Hk) as (r & Hr & Hc).
        exists r. split; [apply elem_of_app; by left | done].
    + intros k s' Hk Hsk Hmk.
      destruct (decide (Z.of_nat k < i)) as [Hlt|Hge].
      * destruct (Hcov k s' Hlt Hsk Hmk) as (r & Hr & Hc).
        exists r. split; [apply elem_of_app; by left | done].
      * exists r0. split; [apply elem_of_app; right; by apply list_elem_of_singleton|].
        assert (Z.of_nat k = i) as -> by lia. apply (proj1 Hr0).
Qed.

(** X1. Every record of the figure detector starts at a sentence that has
    the figure pattern, and every sentence that has the pattern lies in the
    span of some record: it starts one, or an earlier caption took it in. *)
Theorem figure_detector_covers sentences :
  exists figs,
    detect_figure_captions sentences = Ret figs
    /\ Forall (starts_at_match FIG_PATTERN sentences) figs
    /\ (forall (k : nat) s, sentences !! k = Some s ->
          Re.matches FIG_PATTERN s = true ->
          exists r, r ∈ figs /\ covers r (Z.of_nat k)).
Proof.
  destruct (detect_figure_captions_spec sentences) as (figs & Hfigs & _).
  exists figs. split; [done|].
  apply (figure_loop_covers sentences sentences 0
           (replicate (length sentences) false) []); try done.
  - apply length_replicate.
  - intros k Hk. apply lookup_replicate in Hk as [? _]. done.
  - intros k s Hk. lia.
Qed.

(** X2. The records of the figure detector come in the order of the text,
    each wholly before the next.  A record ends at
    [min(start + 2, n - 1)], so it has one to three sentences; these are
    its [raw_window], its caption is their join by spaces, its source is
    RULE_FIG_PATTERN and it has no oracle field. *)
Theorem figure_records_shape sentences :
  exists figs,
    detect_figure_captions sentences = Ret figs
    /\ in_order figs
    /\ Forall (fun r =>
         end_sent_idx r = Z.min (start_sent_idx r + 2) (llen sentences - 1)
         /\ (1 <= length (raw_window r) <= 3)%nat
         /\ Z.of_nat (length (raw_window r))
            = end_sent_idx r - start_sent_idx r + 1
         /\ caption_text r = Py.join " " (raw_window r)
         /\ source r = RULE_FIG_PATTERN
         /\ table_label r = None
         /\ table_end_in_window r = None
         /\ table_reason r = None) figs.
Proof.
  destruct (detect_figure_captions_spec sentences) as (figs & Hfigs & Hord & Hall).
  exists figs. split; [done|]. split; [done|].
  eapply Forall_impl; [exact Hall|]. simpl.
  intros r ((H0 & H1 & H2) & _ & Hsrc & Hend & Hwin & Hcap & Hl & He & Hr).
  assert (Hlen : length (raw_window r)
                 = Z.to_nat (end_sent_idx r + 1 - start_sent_idx r)).
  { rewrite Hwin. apply slice_length; lia. }
  split; [done|]. split; [lia|]. split; [lia|].
  split; [by rewrite Hwin|]. done.
Qed.

(** ** Which sentences start a figure record *)

Lemma figure_loop_starts sentences todo :
  forall i used results rs,
    0 <= i ->
    drop (Z.to_nat i) sentences = todo ->
    length used = length sentences ->
    (forall k : nat, used !! k = Some true <->
       exists r, r ∈ results /\ covers r (Z.of_nat k)) ->
    Forall (fun r => start_sent_idx r < i) results ->
    (forall (k : nat) s, Z.of_nat k < i -> sentences !! k = Some s ->
       ((exists r, r ∈ results /\ start_sent_idx r = Z.of_nat k)
        <-> (Re.matches FIG_PATTERN s = true
             /\ forall r', r' ∈ results ->
                  ~ (start_sent_idx r' < Z.of_nat k <= end_sent_idx r')))) ->
    figure_loop sentences i todo used results = Ret rs ->
    forall (k : nat) s, sentences !! k = Some s ->
      ((exists r, r ∈ rs /\ start_sent_idx r = Z.of_nat k)
       <-> (Re.matches FIG_PATTERN s = true
            /\ forall r', r' ∈ rs ->
                 ~ (start_sent_idx r' < Z.of_nat k <= end_sent_idx r'))).
Proof.
  induction todo as [|s todo IH];
    intros i used results rs Hi Hdrop Hlen Hused Hbefore Hdone H.
  - simpl in H. inversion H; subst rs.
    intros k s Hk. apply Hdone; [|done].
    apply lookup_lt_Some in Hk.
    apply (f_equal length) in Hdrop. rewrite length_drop in Hdrop. simpl in Hdrop. lia.
  - assert (Hs : sentences !! Z.to_nat i = Some s).
    { pose proof (lookup_drop sentences (Z.to_nat i) 0) as Hl.
      rewrite Hdrop, Nat.add_0_r in Hl. done. }
    assert (Hdrop' : drop (Z.to_nat (i + 1)) sentences = todo).
    { replace (Z.to_nat (i + 1)) with (Z.to_nat i + 1)%nat by lia.
      rewrite <- drop_drop, Hdrop. done. }
    pose proof (lookup_lt_Some _ _ _ Hs) as Hin.
    assert (Hnone : ~ exists r, r ∈ results /\ start_sent_idx r = i).
    { intros (r & Hr & Hst). rewrite Forall_forall in Hbefore.
      specialize (Hbefore r Hr). lia. }
    simpl in H.
    destruct (Py.getitem used i) as [u|] eqn:Hg; [simpl in H | discriminate].
    apply getitem_Ret in Hg; [|done].
    assert (Hmatch : Re.matches FIG_PATTERN s
                     = match Re.search FIG_PATTERN s with Some _ => true | None => false end)
      by reflexivity.
    (* an iteration that adds nothing *)
    assert (Hskip : (u = true \/ Re.matches FIG_PATTERN s = false) ->
              figure_loop sentences (i + 1) todo used results = Ret rs ->
              forall (k : nat) s, sentences !! k = Some s ->
                ((exists r, r ∈ rs /\ start_sent_idx r = Z.of_nat k)
                 <-> (Re.matches FIG_PATTERN s = true
                      /\ forall r', r' ∈ rs ->
                           ~ (start_sent_idx r' < Z.of_nat k <= end_sent_idx r')))).
    { intros Hwhy. apply IH; [lia | done | done | done | |].
      - eapply Forall_impl; [exact Hbefore|]. simpl. lia.
      - intros k s' Hk Hsk.
        destruct (decide (Z.of_nat k < i)) as [|Hge]; [by apply Hdone|].
        assert (k = Z.to_nat i) by lia. subst k.
        rewrite Hs in Hsk. inversion Hsk; subst s'.
        replace (Z.of_nat (Z.to_nat i)) with i by lia.
        split; [intros Hex; by destruct Hnone|].
        intros [Hm Hfree]. destruct Hwhy as [-> | Hno]; [|congruence].
        apply Hused in Hg as (r & Hr & Hc). exfalso.
        rewrite Forall_forall in Hbefore. specialize (Hbefore r Hr).
        apply (Hfree r Hr). unfold covers in Hc. lia. }
    destruct u; [apply Hskip; auto|].
    destruct (Re.search FIG_PATTERN s) as [m|] eqn:Hsearch; [|apply Hskip; auto].
    set (e := Z.min (i + 2) (llen sentences - 1)) in *.
    assert (He : i <= e < llen sentences). { unfold e, llen. lia. }
    destruct (mark_used_range used i e) as (used' & Hmark & Hlen' & Hset & Hkeep);
      [lia | unfold llen in *; lia |].
    rewrite Hmark in H. simpl in H.
    match type of H with
    | figure_loop _ _ _ _ (results ++ [?r]) = _ => set (r0 := r) in *
    end.
    assert (Hr0 : start_sent_idx r0 = i /\ end_sent_idx r0 = e) by done.
    revert H. apply IH; [lia | done | congruence | | |].
    + intros k. split.
      * intros Hk. destruct (decide (i <= Z.of_nat k <= e)) as [Hin'|Hout].
        -- exists r0. split; [apply elem_of_app; right; by apply list_elem_of_singleton|].
           unfold covers. lia.
        -- rewrite Hkeep in Hk by done. apply Hused in Hk as (r & Hr & Hc).
           exists r. split; [apply elem_of_app; by left | done].
      * intros (r & Hr & Hc). apply elem_of_app in Hr as [Hr | Hr].
        -- destruct (decide (i <= Z.of_nat k <= e)) as [Hin'|Hout].
           ++ specialize (Hset (Z.of_nat k) Hin'). by rewrite Nat2Z.id in Hset.
           ++ rewrite Hkeep by done. apply Hused. eauto.
        -- apply list_elem_of_singleton in Hr. subst r. unfold covers in Hc.
           specialize (Hset (Z.of_nat k) ltac:(lia)). by rewrite Nat2Z.id in Hset.
    + apply Forall_app. split.
      * eapply Forall_impl; [exact Hbefore|]. simpl. lia.
      * apply Forall_singleton. lia.
    + intros k s' Hk Hsk.
      destruct (decide (Z.of_nat k < i)) as [Hlt|Hge].
      * pose proof (Hdone k s' Hlt Hsk) as Hold. split.
        -- intros (r & Hr & Hst).
           assert (Hr' : r ∈ results).
           { apply elem_of_app in Hr as [Hr | Hr]; [done|].
             apply list_elem_of_singleton in Hr. subst r. lia. }
           destruct (proj1 Hold (ex_intro _ r (conj Hr' Hst))) as [Hm Hfree].
           split; [done|]. intros r' Hin' Hc.
           apply elem_of_app in Hin' as [Hin' | Hin']; [by apply (Hfree r')|].
           apply list_elem_of_singleton in Hin'. subst r'. lia.
        -- intros [Hm Hfree].
           destruct (proj2 Hold) as (r & Hr & Hst).
           { split; [done|]. intros r' Hin'. apply Hfree. apply elem_of_app. by left. }
           exists r. split; [apply elem_of_app; by left | done].
      * assert (k = Z.to_nat i) by lia. subst k.
        rewrite Hs in Hsk. inversion Hsk; subst s'.
        replace (Z.of_nat (Z.to_nat i)) with i by lia.
        split.
        -- intros _. split; [by rewrite Hmatch|].
           intros r' Hr' Hc. apply elem_of_app in Hr' as [Hr' | Hr'].
           ++ assert (Hu : used !! Z.to_nat i = Some true).
              { apply Hused. exists r'. split; [done|]. unfold covers. lia. }
              congruence.
           ++ apply list_elem_of_singleton in Hr'. subst r'. lia.
        -- intros _. exists r0.
           split; [apply elem_of_app; right; by apply list_elem_of_singleton | done].
Qed.

(** C5, as the code has it.  A sentence has the figure pattern exactly when
    it holds, not right after a word character, the letters F, i, g in any
    letter case as IGNORECASE reads them, a period, any number of whitespace
    characters, none included, and then a digit.  In any list of sentences,
    a sentence starts a figure record exactly when it has the pattern and no
    figure record that starts before it reaches it. *)
Theorem figure_start_iff (sentences : list string) :
  (forall s,
     Re.matches FIG_PATTERN s = true
     <-> exists pre f i g ws d post,
           s = pre +:+ String f (String i (String g (String "." (ws +:+ String d post))))
           /\ Re.is_char_nocase "F" f = true
           /\ Re.is_char_nocase "i" i = true
           /\ Re.is_char_nocase "g" g = true
           /\ Re.word_before (last_char None pre) = false
           /\ all_chars Py.isspace ws = true
           /\ Py.isdecimal d = true)
  /\ exists figs,
       detect_figure_captions sentences = Ret figs
       /\ forall (k : nat) s, sentences !! k = Some s ->
            ((exists r, r ∈ figs /\ start_sent_idx r = Z.of_nat k)
             <-> (Re.matches FIG_PATTERN s = true
                  /\ forall r', r' ∈ figs ->
                       ~ (start_sent_idx r' < Z.of_nat k <= end_sent_idx r'))).
Proof.
  split; [apply FIG_PATTERN_matches|].
  destruct (detect_figure_captions_spec sentences) as (figs & Hfigs & _).
  exists figs. split; [done|].
  apply (figure_loop_starts sentences sentences 0
           (replicate (length sentences) false) []); try done.
  - apply length_replicate.
  - intros k. split.
    + intros Hk. apply lookup_replicate in Hk as [? _]. done.
    + intros (r & Hr & _). by apply elem_of_nil in Hr.
  - intros k s Hk. lia.
Qed.

(** C5 fails as stated: "Fig.3", with nothing between the period and the
    digit, is a figure-caption start; "Config. 3" contains "fig." followed
    by a space and a number and is none. *)
Lemma fig_without_space_matches :
  Re.matches FIG_PATTERN "Fig.3" = true
  /\ (exists r,
        detect_figure_captions ["Fig.3 shows the TGA curve."] = Ret [r]
        /\ start_sent_idx r = 0 /\ id r = Some "3")
  /\ Re.matches FIG_PATTERN "Config. 3" = false.
Proof.
  split; [vm_compute; reflexivity|]. split; [|vm_compute; reflexivity].
  eexists. split; [vm_compute; reflexivity|]. split; reflexivity.
Qed.

(** ** The states of the table loop *)

Section TableStates.

Context {World : Type}.
Variable chat : World -> string -> string -> World * chat_result.
Variable sentences : list string.

(** What one iteration does, by cases on the sentence at the scan index. *)
Lemma table_body_cases (st st' : @table_state World) :
  marks_behind sentences st ->
  t_i st < llen sentences ->
  table_body chat sentences st = Ret st' ->
  exists s,
    sentences !! Z.to_nat (t_i st) = Some s
    /\ ((Re.matches TABLE_KEYWORD_PAT s = false /\ st' = advance st (t_i st + 1))
        \/ (Re.matches TABLE_KEYWORD_PAT s = true
            /\ exists w' q,
                 call_qwen_table chat (t_world st) s
                   (sentence_at sentences (t_i st + 1))
                   (sentence_at sentences (t_i st + 2)) = Ret (w', q)
                 /\ normal_response q
                 /\ if accepted q then accepted_step sentences st st' w' q
                    else rejected_step sentences st st' w' q)).
Proof.
  intros (Hi & Hlen & Hbehind) Hlt Hbody.
  destruct (getitem_in_range (t_used st) (t_i st)) as (u & Hgu & Hu);
    [unfold llen in *; lia|].
  destruct (getitem_in_range sentences (t_i st)) as (s & Hgs & Hs); [lia|].
  assert (u = false) as ->.
  { destruct u; [|done]. exfalso. apply (Hbehind (Z.to_nat (t_i st))); [lia | done]. }
  exists s. split; [done|].
  destruct (Re.matches TABLE_KEYWORD_PAT s) eqn:Hm.
  - right. split; [done|].
    destruct (table_body_candidate chat sentences st s Hi Hlen Hu Hs Hm)
      as (w' & q & st'' & Hcall & Hbody' & Hstep).
    rewrite Hbody in Hbody'. inversion Hbody'; subst st''.
    exists w', q. split; [done|]. split; [|done].
    destruct (call_qwen_table_spec chat (t_world st) s
                (sentence_at sentences (t_i st + 1)) (sentence_at sentences (t_i st + 2)))
      as (w'' & q' & Hcall' & _ & Hq & _).
    rewrite Hcall in Hcall'. by inversion Hcall'; subst.
  - left. split; [done|]. unfold table_body in Hbody.
    rewrite Hgu in Hbody. simpl in Hbody. rewrite Hgs in Hbody. simpl in Hbody.
    rewrite Hm in Hbody. simpl in Hbody. by inversion Hbody.
Qed.

Lemma marks_behind_step (st st' : @table_state World) :
  marks_behind sentences st ->
  t_i st < llen sentences ->
  table_body chat sentences st = Ret st' ->
  marks_behind sentences st' /\ t_i st < t_i st'.
Proof.
  intros Hb Hlt Hbody.
  destruct (table_body_cases st st' Hb Hlt Hbody) as (s & Hs & Hcase).
  destruct Hb as (Hi & Hlen & Hbehind).
  destruct Hcase as [[_ ->] | (_ & w' & q & _ & Hq & Hstep)].
  - unfold marks_behind. simpl. split; [|lia]. split; [lia|]. split; [done|].
    intros k Hk. apply Hbehind. lia.
  - destruct (accepted q) eqn:Hacc.
    + destruct Hstep as (Hi' & _ & Hlen' & _ & Hkeep & _).
      unfold accepted in Hacc. apply andb_true_iff in Hacc as [_ He].
      split; [|lia]. split; [lia|]. split; [congruence|].
      intros k Hk. rewrite Hkeep by lia. apply Hbehind. lia.
    + destruct Hstep as (Hi' & _ & Hused & _).
      split; [|lia]. split; [lia|]. split; [congruence|].
      intros k Hk. rewrite Hused. apply Hbehind. lia.
Qed.

Lemma reachable_marks_behind (w : World) (st : @table_state World) :
  table_reachable chat sentences w st -> marks_behind sentences st.
Proof.
  induction 1 as [|st st' _ IH Hlt Hbody].
  - split; [simpl; lia|]. split; [apply length_replicate|].
    intros k _ Hk. simpl in Hk. apply lookup_replicate in Hk as [? _]. done.
  - by apply (marks_behind_step st st').
Qed.

Lemma table_loop_reaches (w : World) (fuel : nat) :
  forall st st' : @table_state World,
    table_reachable chat sentences w st ->
    table_loop chat fuel sentences st = Ret st' ->
    table_reachable chat sentences w st' /\ llen sentences <= t_i st'.
Proof.
  induction fuel as [|fuel IH]; intros st st' Hr H; simpl in H.
  - destruct (Z.ltb_spec (t_i st) (llen sentences)); [discriminate|].
    inversion H; subst. done.
  - destruct (Z.ltb_spec (t_i st) (llen sentences)) as [Hlt|Hge].
    + destruct (table_body chat sentences st) as [st1|] eqn:Hbody; [|discriminate].
      simpl in H. apply (IH st1 st'); [|done]. by apply (reach_step chat sentences w st st1).
    + inversion H; subst. done.
Qed.

(** The detector returns the records and the oracle state of a final state
    of the loop. *)
Lemma detect_table_captions_final (w : World) :
  exists st,
    table_reachable chat sentences w st
    /\ llen sentences <= t_i st
    /\ detect_table_captions chat w sentences = Ret (t_world st, t_results st).
Proof.
  destruct (detect_table_captions_spec chat w sentences) as (w' & tabs & H & _).
  unfold detect_table_captions in *.
  destruct (table_loop chat (length sentences) sentences (table_init w sentences))
    as [st|] eqn:Hloop; [|discriminate].
  exists st.
  destruct (table_loop_reaches w _ _ _ (reach_init chat sentences w) Hloop) as [Hr Hi].
  simpl in H. done.
Qed.

(** From every state it goes through, the loop runs on to the state the
    detector returns. *)
Lemma table_loop_continues (w : World) (st : @table_state World) :
  table_reachable chat sentences w st ->
  exists fuel final,
    table_loop chat fuel sentences st = Ret final
    /\ detect_table_captions chat w sentences = Ret (t_world final, t_results final).
Proof.
  induction 1 as [|st st' Hr (fuel & final & Hloop & Hdet) Hlt Hbody].
  - destruct (detect_table_captions_spec chat w sentences) as (w' & tabs & H & _).
    unfold detect_table_captions in *.
    destruct (table_loop chat (length sentences) sentences (table_init w sentences))
      as [final|] eqn:Hloop; [|discriminate].
    exists (length sentences), final. done.
  - destruct fuel as [|fuel]; simpl in Hloop;
      destruct (Z.ltb_spec (t_i st) (llen sentences)); try lia; [discriminate|].
    rewrite Hbody in Hloop. simpl in Hloop. exists fuel, final. done.
Qed.

(** The loop only appends to the records. *)
Lemma table_loop_grows (w : World) (fuel : nat) :
  forall st final : @table_state World,
    table_reachable chat sentences w st ->
    table_loop chat fuel sentences st = Ret final ->
    exists more, t_results final = t_results st ++ more.
Proof.
  induction fuel as [|fuel IH]; intros st final Hr H; simpl in H.
  - destruct (Z.ltb_spec (t_i st) (llen sentences)); [discriminate|].
    inversion H; subst. exists []. by rewrite app_nil_r.
  - destruct (Z.ltb_spec (t_i st) (llen sentences)) as [Hlt|Hge].
    + destruct (table_body chat sentences st) as [st1|] eqn:Hbody; [|discriminate].
      simpl in H.
      destruct (IH st1 final (reach_step chat sentences w st st1 Hr Hlt Hbody) H)
        as (more & Hmore).
      pose proof (reachable_marks_behind w st Hr) as Hb.
      destruct (table_body_cases st st1 Hb Hlt Hbody) as (s & _ & Hcase).
      destruct Hcase as [[_ ->] | (_ & w' & q & _ & _ & Hstep)].
      * exists more. exact Hmore.
      * assert (Hone : exists r, t_results st1 = t_results st ++ [r]).
        { destruct (accepted q).
          - destruct Hstep as (_ & _ & _ & _ & _ & r & Hres & _). eauto.
          - destruct Hstep as (_ & _ & _ & r & Hres & _). eauto. }
        destruct Hone as (r & Hres). exists (r :: more).
        rewrite Hmore, Hres, <- app_assoc. reflexivity.
    + inversion H; subst. exists []. by rewrite app_nil_r.
Qed.

(** The records of a state the loop goes through are the first records the
    detector returns. *)
Lemma reachable_records_returned (w : World) (st : @table_state World) :
  table_reachable chat sentences w st ->
  exists wf more,
    detect_table_captions chat w sentences = Ret (wf, t_results st ++ more).
Proof.
  intros Hr. destruct (table_loop_continues w st Hr) as (fuel & final & Hloop & Hdet).
  destruct (table_loop_grows w fuel st final Hr Hloop) as (more & Hmore).
  exists (t_world final), more. by rewrite <- Hmore.
Qed.

(** An invariant of the reachable states holds of the final state. *)
Lemma table_invariant (P : @table_state World -> Prop) (w : World) :
  P (table_init w sentences) ->
  (forall st st',
     table_reachable chat sentences w st -> P st ->
     t_i st < llen sentences ->
     table_body chat sentences st = Ret st' -> P st') ->
  forall st, table_reachable chat sentences w st -> P st.
Proof.
  intros Hinit Hstep st Hr. induction Hr; eauto.
Qed.

End TableStates.

(** ** One iteration of the table detector at a candidate *)

(** C2. Let the loop of the table detector, run on any sentence list with
    any oracle, stand at a candidate index [i].  Then [i] is unclaimed, and
    the oracle is asked once, on the window of [i], and gives a response
    [q].  If [q] has label TABLE_CAPTION and an end index among 0, 1, 2, one
    record of source LLM_TABLE is added, from [i] to
    [min(i + end_index, n - 1)], every index of that span is claimed and the
    scan resumes after the span.  For any other response one record with
    start = end = [i] is added, [i] stays unclaimed and the scan resumes at
    [i + 1].  A call that raises gives the response of label ERROR, which is
    such a rejection.  The loop goes on from the new state, and the records
    made so far, the new one last, are the first records the detector
    returns. *)
Theorem table_detector_step {World : Type}
    (chat : World -> string -> string -> World * chat_result)
    (w : World) (sentences : list string) (st : @table_state World) (s : string) :
  table_reachable chat sentences w st ->
  sentences !! Z.to_nat (t_i st) = Some s ->
  Re.matches TABLE_KEYWORD_PAT s = true ->
  let s1 := sentence_at sentences (t_i st + 1) in
  let s2 := sentence_at sentences (t_i st + 2) in
  t_used st !! Z.to_nat (t_i st) = Some false
  /\ exists w' q st',
       call_qwen_table chat (t_world st) s s1 s2 = Ret (w', q)
       /\ table_body chat sentences st = Ret st'
       /\ table_reachable chat sentences w st'
       /\ (if accepted q then accepted_step sentences st st' w' q
           else rejected_step sentences st st' w' q)
       /\ (accepted q = false -> t_used st' !! Z.to_nat (t_i st) = Some false)
       /\ (forall msg,
             snd (chat (t_world st) QWEN_MODEL (build_table_prompt s s1 s2))
               = Failed msg ->
             label q = "ERROR" /\ end_index q = -1 /\ accepted q = false)
       /\ exists wf more,
            detect_table_captions chat w sentences = Ret (wf, t_results st' ++ more).
Proof.
  intros Hr Hs Hm s1 s2.
  destruct (reachable_marks_behind chat sentences w st Hr) as (Hi & Hlen & Hbehind).
  pose proof (lookup_lt_Some _ _ _ Hs) as Hin.
  assert (Hlt : t_i st < llen sentences) by (unfold llen; lia).
  assert (Hu : t_used st !! Z.to_nat (t_i st) = Some false).
  { destruct (t_used st !! Z.to_nat (t_i st)) as [[]|] eqn:E; [|done|].
    - exfalso. apply (Hbehind (Z.to_nat (t_i st))); [lia | done].
    - apply lookup_ge_None in E. lia. }
  split; [done|].
  destruct (table_body_candidate chat sentences st s Hi Hlen Hu Hs Hm)
    as (w' & q & st' & Hcall & Hbody & Hstep).
  pose proof (reach_step chat sentences w st st' Hr Hlt Hbody) as Hr'.
  exists w', q, st'. split; [done|]. split; [done|]. split; [done|].
  split; [done|]. split; [|split].
  - intros Hrej. rewrite Hrej in Hstep.
    destruct Hstep as (_ & _ & -> & _). done.
  - intros msg Hfail.
    destruct (call_qwen_table_spec chat (t_world st) s s1 s2)
      as (w'' & q' & Hcall' & _ & _ & Herr & _).
    fold s1 s2 in Hcall. rewrite Hcall in Hcall'. inversion Hcall'; subst w'' q'.
    rewrite (Herr msg Hfail). done.
  - by apply reachable_records_returned.
Qed.

Lemma table_detector_step_witness :
  t_used (table_init tt yields_sentences) !! 0%nat = Some false
  /\ table_body (constant_oracle two_sentence_answer) yields_sentences
       (table_init tt yields_sentences) = Ret after_first_caption
  /\ exists wf more,
       detect_table_captions (constant_oracle two_sentence_answer) tt yields_sentences
       = Ret (wf, t_results after_first_caption ++ more).
Proof.
  destruct (table_detector_step (constant_oracle two_sentence_answer) tt
              yields_sentences (table_init tt yields_sentences)
              "Table 1 lists the yields.")
    as (Hu & w' & q & st' & _ & Hbody & _ & _ & _ & _ & wf & more & Hdet);
    [apply reach_init | reflexivity | vm_compute; reflexivity |].
  assert (Hst : Ret st' = Ret after_first_caption).
  { rewrite <- Hbody. vm_compute. reflexivity. }
  inversion Hst; subst st'.
  split; [exact Hu|]. split; [exact Hbody|]. exists wf, more. exact Hdet.
Defined.

(** ** What the table detector covers and records *)

Section TableRecords.

Context {World : Type}.
Variable chat : World -> string -> string -> World * chat_result.
Variable sentences : list string.

Lemma reachable_records (w : World) (st : @table_state World) :
  table_reachable chat sentences w st ->
  Forall (fun r => starts_at_match TABLE_KEYWORD_PAT sentences r
                   /\ table_record_from_response sentences r) (t_results st)
  /\ (forall (k : nat) s, Z.of_nat k < t_i st -> sentences !! k = Some s ->
        Re.matches TABLE_KEYWORD_PAT s = true ->
        exists r, r ∈ t_results st /\ covers r (Z.of_nat k)).
Proof.
  induction 1 as [|st st' Hr [IHall IHcov] Hlt Hbody].
  - split; [constructor|]. simpl. intros k s Hk. lia.
  - pose proof (reachable_marks_behind chat sentences w st Hr) as Hb.
    destruct (table_body_cases chat sentences st st' Hb Hlt Hbody) as (s & Hs & Hcase).
    destruct Hb as (Hi & _).
    destruct Hcase as [[Hno ->] | (Hm & w' & q & _ & Hq & Hstep)].
    + simpl. split; [done|]. intros k s' Hk Hsk Hmk.
      destruct (decide (Z.of_nat k < t_i st)) as [|Hge]; [eauto|].
      assert (k = Z.to_nat (t_i st)) by lia. subst k. congruence.
    + assert (Hnew : forall r e,
                t_results st' = t_results st ++ [r] ->
                start_sent_idx r = t_i st -> end_sent_idx r = e ->
                t_i st' = e + 1 ->
                table_record_from_response sentences r ->
                Forall (fun r => starts_at_match TABLE_KEYWORD_PAT sentences r
                                 /\ table_record_from_response sentences r)
                  (t_results st')
                /\ (forall (k : nat) s, Z.of_nat k < t_i st' ->
                      sentences !! k = Some s ->
                      Re.matches TABLE_KEYWORD_PAT s = true ->
                      exists r, r ∈ t_results st' /\ covers r (Z.of_nat k))).
      { intros r e Hres Hst Hen Hi' Hrec. rewrite Hres. split.
        - apply Forall_app. split; [done|]. apply Forall_singleton. split; [|done].
          exists s. by rewrite Hst.
        - intros k s' Hk Hsk Hmk.
          destruct (decide (Z.of_nat k < t_i st)) as [Hlt'|Hge].
          + destruct (IHcov k s' Hlt' Hsk Hmk) as (r' & Hr' & Hc).
            exists r'. split; [apply elem_of_app; by left | done].
          + exists r. split; [apply elem_of_app; right; by apply list_elem_of_singleton|].
            unfold covers. lia. }
      destruct q as [lab e rsn]. simpl in *.
      destruct (accepted {| label := lab; end_index := e; reason := rsn |}) eqn:Hacc.
      * destruct Hstep as (Hi' & _ & _ & _ & _ & r & Hres & Hty & Hsrc & Hst & Hen
                           & Hcap & Hid & Hwin & Hl & Hei & Hrs).
        simpl in *.
        apply (Hnew r (end_sent_idx r)); [done | done | done | by rewrite Hen |].
        exists lab, e, rsn. rewrite Hacc, Hst, Hen, Hcap.
        repeat (split; [done|]). done.
      * destruct Hstep as (Hi' & _ & _ & r & Hres & Hty & Hsrc & Hst & Hen
                           & Hcap & Hid & Hwin & Hl & Hei & Hrs).
        simpl in *.
        apply (Hnew r (t_i st)); [done | done | done | done |].
        exists lab, e, rsn. rewrite Hacc, Hst, Hen, Hcap.
        repeat (split; [done|]). done.
Qed.

End TableRecords.

(** X3. Every record of the table detector starts at a sentence that has
    the word "Table" or "Tables", and every sentence that has it lies in the
    span of some record: it is the start of one, or an accepted caption
    that began before it took it in. *)
Theorem table_detector_covers {World : Type}
    (chat : World -> string -> string -> World * chat_result)
    (w : World) (sentences : list string) :
  exists w' tabs,
    detect_table_captions chat w sentences = Ret (w', tabs)
    /\ Forall (starts_at_match TABLE_KEYWORD_PAT sentences) tabs
    /\ (forall (k : nat) s, sentences !! k = Some s ->
          Re.matches TABLE_KEYWORD_PAT s = true ->
          exists r, r ∈ tabs /\ covers r (Z.of_nat k)).
Proof.
  destruct (detect_table_captions_final chat sentences w) as (st & Hr & Hi & Hd).
  destruct (reachable_records chat sentences w st Hr) as [Hall Hcov].
  exists (t_world st), (t_results st). split; [done|]. split.
  - eapply Forall_impl; [exact Hall|]. simpl. tauto.
  - intros k s Hk Hm. apply (Hcov k s); [|done..].
    apply lookup_lt_Some in Hk. unfold llen in Hi. lia.
Qed.

(** X4. In the table detector the test [used[i]] never succeeds: each time
    the loop condition is tested, no index at or after the scan index is
    marked, so the sentence under the scan index is read as unclaimed. *)
Theorem table_marks_stay_behind {World : Type}
    (chat : World -> string -> string -> World * chat_result)
    (w : World) (sentences : list string) (st : @table_state World) :
  table_reachable chat sentences w st ->
  (forall k : nat, t_i st <= Z.of_nat k -> t_used st !! k <> Some true)
  /\ (t_i st < llen sentences -> Py.getitem (t_used st) (t_i st) = Ret false).
Proof.
  intros Hr. destruct (reachable_marks_behind chat sentences w st Hr) as (Hi & Hlen & Hb).
  split; [done|]. intros Hlt.
  destruct (getitem_in_range (t_used st) (t_i st)) as (u & -> & Hu);
    [unfold llen in *; lia|].
  destruct u; [|done]. exfalso. apply (Hb (Z.to_nat (t_i st))); [lia | done].
Qed.

Lemma table_marks_stay_behind_witness :
  t_used after_first_caption = [true; true; false]
  /\ t_i after_first_caption = 2
  /\ Py.getitem (t_used after_first_caption) (t_i after_first_caption) = Ret false.
Proof.
  split; [reflexivity|]. split; [reflexivity|].
  apply (table_marks_stay_behind (constant_oracle two_sentence_answer) tt
           yields_sentences after_first_caption).
  - apply (reach_step _ _ _ (table_init tt yields_sentences));
      [apply reach_init | reflexivity | vm_compute; reflexivity].
  - reflexivity.
Defined.

(** X5. Every record of the table detector reads from the response it
    stores.  The stored label is TABLE_CAPTION, NOT_CAPTION, PARSE_ERROR or
    ERROR and the stored end index is -1, 0, 1 or 2.  With TABLE_CAPTION and
    an end index of 0, 1 or 2 the record ends at
    [min(start + end_index, n - 1)], its caption is the sentences of the
    span joined by spaces and its id is looked up in that caption; with
    anything else the record is the start sentence alone, without id. *)
Theorem table_records_follow_responses {World : Type}
    (chat : World -> string -> string -> World * chat_result)
    (w : World) (sentences : list string) :
  exists w' tabs,
    detect_table_captions chat w sentences = Ret (w', tabs)
    /\ Forall (table_record_from_response sentences) tabs.
Proof.
  destruct (detect_table_captions_final chat sentences w) as (st & Hr & Hi & Hd).
  destruct (reachable_records chat sentences w st Hr) as [Hall _].
  exists (t_world st), (t_results st). split; [done|].
  eapply Forall_impl; [exact Hall|]. simpl. tauto.
Qed.

(** ** Counting the calls of the oracle *)

Section Counting.

Context {World : Type}.
Variable chat : World -> string -> string -> World * chat_result.
Variable sentences : list string.

Lemma call_qwen_table_counting (w : World) (c : nat) s0 s1 s2 :
  call_qwen_table (counting chat) (w, c) s0 s1 s2
  = py_map (fun wq => ((fst wq, S c), snd wq)) (call_qwen_table chat w s0 s1 s2).
Proof.
  unfold call_qwen_table, counting. simpl.
  destruct (chat w QWEN_MODEL (build_table_prompt s0 s1 s2)) as [w' [content|msg]]; simpl.
  - by destruct (parse_table_response (Py.strip content)).
  - done.
Qed.

Lemma table_body_counting (c0 : nat) (st : @table_state World) :
  table_body (counting chat) sentences (with_count c0 st)
  = py_map (with_count c0) (table_body chat sentences st).
Proof.
  unfold table_body. simpl.
  destruct (Py.getitem (t_used st) (t_i st)) as [u|]; simpl; [|done].
  destruct u; [done|].
  destruct (Py.getitem sentences (t_i st)) as [s|]; simpl; [|done].
  destruct (Re.matches TABLE_KEYWORD_PAT s); simpl; [|done].
  destruct (sentence_or_empty sentences (t_i st + 1)) as [s1|]; simpl; [|done].
  destruct (sentence_or_empty sentences (t_i st + 2)) as [s2|]; simpl; [|done].
  rewrite call_qwen_table_counting.
  destruct (call_qwen_table chat (t_world st) s s1 s2) as [[w' q]|]; simpl; [|done].
  destruct (_ && _); simpl.
  - destruct (mark_used _ _); simpl; [|done].
    unfold with_count. simpl. rewrite length_app. simpl.
    do 2 f_equal. f_equal. lia.
  - unfold with_count. simpl. rewrite length_app. simpl.
    do 2 f_equal. f_equal. lia.
Qed.

Lemma table_loop_counting (c0 : nat) (fuel : nat) :
  forall st : @table_state World,
    table_loop (counting chat) fuel sentences (with_count c0 st)
    = py_map (with_count c0) (table_loop chat fuel sentences st).
Proof.
  induction fuel as [|fuel IH]; intros st; simpl.
  - by destruct (_ <? _).
  - destruct (_ <? _); [|done].
    rewrite table_body_counting.
    destruct (table_body chat sentences st) as [st1|]; simpl; [|done].
    apply IH.
Qed.

End Counting.

(** X6. The oracle is called once for each record of the table detector,
    accepted or rejected, and at no other time: run with an oracle that
    counts its calls from 0, the detector gives the same records and the
    count is their number. *)
Theorem one_oracle_call_per_record {World : Type}
    (chat : World -> string -> string -> World * chat_result)
    (w : World) (sentences : list string) :
  exists w' tabs,
    detect_table_captions chat w sentences = Ret (w', tabs)
    /\ detect_table_captions (counting chat) (w, 0%nat) sentences
       = Ret ((w', length tabs), tabs).
Proof.
  destruct (detect_table_captions_spec chat w sentences) as (w' & tabs & H & _).
  exists w', tabs. split; [done|].
  unfold detect_table_captions in *.
  change (table_init (w, 0%nat) sentences)
    with (with_count 0 (table_init w sentences)).
  rewrite table_loop_counting.
  destruct (table_loop chat (length sentences) sentences (table_init w sentences))
    as [st|]; [|discriminate].
  simpl in *. by inversion H.
Qed.

(** ** An oracle that always fails *)

Lemma reachable_all_errors {World : Type}
    (chat : World -> string -> string -> World * chat_result)
    (sentences : list string) (w : World) (st : @table_state World) :
  always_fails chat ->
  table_reachable chat sentences w st ->
  Forall (fun r => table_label r = Some "ERROR"
                   /\ table_end_in_window r = Some (-1)) (t_results st).
Proof.
  intros Hfail. induction 1 as [|st st' Hr IH Hlt Hbody]; [constructor|].
  pose proof (reachable_marks_behind chat sentences w st Hr) as Hb.
  destruct (table_body_cases chat sentences st st' Hb Hlt Hbody) as (s & Hs & Hcase).
  destruct Hcase as [[_ ->] | (_ & w' & q & Hcall & _ & Hstep)]; [done|].
  destruct (call_qwen_table_spec chat (t_world st) s
              (sentence_at sentences (t_i st + 1)) (sentence_at sentences (t_i st + 2)))
    as (w'' & q' & Hcall' & _ & _ & Herr & _).
  rewrite Hcall in Hcall'. inversion Hcall'; subst w'' q'.
  destruct (Hfail (t_world st) QWEN_MODEL
              (build_table_prompt s (sentence_at sentences (t_i st + 1))
                 (sentence_at sentences (t_i st + 2)))) as [msg Hmsg].
  rewrite (Herr msg Hmsg) in Hstep. simpl in Hstep.
  destruct Hstep as (_ & _ & _ & r & -> & _ & _ & _ & _ & _ & _ & _ & Hl & He & _).
  apply Forall_app. split; [done|]. apply Forall_singleton. done.
Qed.

(** X7. When every call of the oracle raises, the table detector still
    returns: each sentence that has the word "Table" or "Tables" gets a
    record of its own, of label ERROR and end index -1, spanning that
    sentence alone and without id, and there is no other record. *)
Theorem failing_oracle_rejects_every_candidate {World : Type}
    (chat : World -> string -> string -> World * chat_result)
    (w : World) (sentences : list string) :
  always_fails chat ->
  exists w' tabs,
    detect_table_captions chat w sentences = Ret (w', tabs)
    /\ Forall (fun r => table_label r = Some "ERROR"
                        /\ table_end_in_window r = Some (-1)
                        /\ end_sent_idx r = start_sent_idx r
                        /\ id r = None
                        /\ starts_at_match TABLE_KEYWORD_PAT sentences r) tabs
    /\ (forall (k : nat) s, sentences !! k = Some s ->
          Re.matches TABLE_KEYWORD_PAT s = true ->
          exists r, r ∈ tabs /\ start_sent_idx r = Z.of_nat k).
Proof.
  intros Hfail.
  destruct (detect_table_captions_final chat sentences w) as (st & Hr & Hi & Hd).
  destruct (reachable_records chat sentences w st Hr) as [Hall Hcov].
  pose proof (reachable_all_errors chat sentences w st Hfail Hr) as Herr.
  exists (t_world st), (t_results st). split; [done|].
  assert (Hshape : Forall (fun r => table_label r = Some "ERROR"
                        /\ table_end_in_window r = Some (-1)
                        /\ end_sent_idx r = start_sent_idx r
                        /\ id r = None
                        /\ starts_at_match TABLE_KEYWORD_PAT sentences r) (t_results st)).
  { rewrite Forall_forall in *. intros r Hin.
    destruct (Hall r Hin) as [Hstart (lab & e & rsn & Hl & He & _ & _ & _ & _ & _ & Hif)].
    destruct (Herr r Hin) as [Hl' He'].
    rewrite Hl in Hl'. rewrite He in He'. inversion Hl'; inversion He'; subst lab e.
    simpl in Hif. destruct Hif as (Hen & _ & Hid). done. }
  split; [done|].
  intros k s Hk Hm.
  destruct (Hcov k s) as (r & Hin & Hc); [|done..|].
  { apply lookup_lt_Some in Hk. unfold llen in Hi. lia. }
  exists r. split; [done|].
  rewrite Forall_forall in Hshape. destruct (Hshape r Hin) as (_ & _ & Hen & _).
  unfold covers in Hc. lia.
Qed.

Lemma failing_oracle_rejects_every_candidate_witness :
  exists tabs,
    detect_table_captions (failing_oracle "timed out") tt
      ["See Table 1."; "No keyword."; "Tables 2 and 3."] = Ret (tt, tabs)
    /\ exists r, r ∈ tabs /\ start_sent_idx r = 2.
Proof.
  destruct (failing_oracle_rejects_every_candidate (failing_oracle "timed out") tt
              ["See Table 1."; "No keyword."; "Tables 2 and 3."])
    as (w' & tabs & Hd & _ & Hcov).
  { intros w model prompt. by exists "timed out". }
  destruct w'. exists tabs. split; [exact Hd|].
  apply (Hcov 2%nat "Tables 2 and 3."); [reflexivity | vm_compute; reflexivity].
Defined.

(** ** Stripping and squeezing *)

Lemma lstrip_starts_word s : Py.starts_word s = true -> Py.lstrip s = s.
Proof.
  destruct s as [|a s]; [done|]. simpl. intros H.
  apply negb_true_iff in H. by rewrite H.
Qed.

Lemma lstrip_blank s : all_chars Py.isspace s = true -> Py.lstrip s = EmptyString.
Proof.
  induction s as [|a s IH]; simpl; [done|]. intros H.
  apply andb_true_iff in H as [Ha Hs]. rewrite Ha. auto.
Qed.

Lemma lstrip_has_text s :
  has_text s -> Py.starts_word (Py.lstrip s) = true /\ has_text (Py.lstrip s).
Proof.
  unfold has_text. induction s as [|a s IH]; simpl; [done|].
  destruct (Py.isspace a) eqn:Ha; simpl; [auto|]. intros _. by rewrite Ha.
Qed.

Lemma rstrip_blank s : all_chars Py.isspace s = true -> Py.rstrip s = EmptyString.
Proof.
  induction s as [|a s IH]; simpl; [done|]. intros H.
  apply andb_true_iff in H as [Ha Hs]. by rewrite (IH Hs), Ha.
Qed.

Lemma rstrip_nil_blank s : Py.rstrip s = EmptyString -> all_chars Py.isspace s = true.
Proof.
  induction s as [|a s IH]; simpl; [done|].
  destruct (Py.rstrip s) eqn:E; [|discriminate].
  destruct (Py.isspace a); [auto | discriminate].
Qed.

Lemma rstrip_has_text s :
  has_text s -> has_text (Py.rstrip s).
Proof.
  unfold has_text. intros H.
  destruct (all_chars Py.isspace (Py.rstrip s)) eqn:E; [|done].
  (* a blank result is stripped to nothing, so [s] was blank *)
  assert (Hr : Py.rstrip (Py.rstrip s) = EmptyString) by (by apply rstrip_blank).
  assert (Hidem : Py.rstrip (Py.rstrip s) = Py.rstrip s).
  { clear. induction s as [|a s IH]; simpl; [done|].
    destruct (Py.rstrip s) as [|b r] eqn:E.
    - destruct (Py.isspace a) eqn:Ha; simpl; [done|]. by rewrite Ha.
    - simpl in *. by rewrite IH. }
  rewrite Hidem in Hr. apply rstrip_nil_blank in Hr. congruence.
Qed.

Lemma rstrip_idem s : Py.rstrip (Py.rstrip s) = Py.rstrip s.
Proof.
  induction s as [|a s IH]; simpl; [done|].
  destruct (Py.rstrip s) as [|b r] eqn:E.
  - destruct (Py.isspace a) eqn:Ha; simpl; [done|]. by rewrite Ha.
  - simpl in *. by rewrite IH.
Qed.

Lemma rstrip_starts_word s :
  Py.starts_word s = true -> Py.starts_word (Py.rstrip s) = true.
Proof.
  destruct s as [|a s]; [done|]. simpl. intros H.
  apply negb_true_iff in H.
  destruct (Py.rstrip s); [by rewrite H; simpl; rewrite H | simpl; by rewrite H].
Qed.

(** [strip] leaves a text that has no whitespace at its ends. *)
Lemma strip_idem s : Py.strip (Py.strip s) = Py.strip s.
Proof.
  unfold Py.strip.
  destruct (all_chars Py.isspace s) eqn:Hs.
  - by rewrite (lstrip_blank s Hs).
  - destruct (lstrip_has_text s Hs) as [Hw _].
    rewrite (lstrip_starts_word (Py.rstrip (Py.lstrip s))) by (by apply rstrip_starts_word).
    apply rstrip_idem.
Qed.

Lemma strip_has_text s : has_text s -> Py.strip s <> EmptyString.
Proof.
  intros H. unfold Py.strip.
  destruct (lstrip_has_text s H) as [_ Ht]. apply rstrip_has_text in Ht.
  intros E. rewrite E in Ht. discriminate.
Qed.

Lemma strip_nil_blank s : Py.strip s = EmptyString -> all_chars Py.isspace s = true.
Proof.
  intros E. destruct (all_chars Py.isspace s) eqn:H; [done|].
  by apply strip_has_text in H.
Qed.

Lemma last_char_default p q a s :
  last_char p (String a s) = last_char q (String a s).
Proof. done. Qed.

(** The join of words has no whitespace at its ends. *)
Lemma join_words_ends (ws : list string) :
  Forall is_word ws ->
  match ws with
  | [] => True
  | _ => Py.starts_word (Py.join " " ws) = true
         /\ exists c, last_char None (Py.join " " ws) = Some c
                      /\ Py.isspace c = false
  end.
Proof.
  induction 1 as [|w ws [Hne Hw] Hws IH]; [done|].
  destruct w as [|a w]; [done|]. simpl in Hw.
  apply andb_true_iff in Hw as [Ha Hw]. apply negb_true_iff in Ha.
  assert (Hlast : exists c, last_char None (String a w) = Some c /\ Py.isspace c = false).
  { clear -Ha Hw. simpl. revert a Ha Hw. induction w as [|b w IH]; intros a Ha Hw; simpl.
    - eauto.
    - simpl in Hw. apply andb_true_iff in Hw as [Hb Hw]. apply negb_true_iff in Hb. eauto. }
  destruct ws as [|w2 ws].
  - simpl. split; [by rewrite Ha | done].
  - change (Py.join " " (String a w :: w2 :: ws))
      with (String a w +:+ " " +:+ Py.join " " (w2 :: ws)).
    split; [simpl; by rewrite Ha|].
    destruct IH as [Hst (c & Hc & Hsp)].
    exists c. split; [|done].
    rewrite !last_char_app.
    destruct (Py.join " " (w2 :: ws)) as [|b r] eqn:E; [discriminate|].
    rewrite (last_char_default _ None). exact Hc.
Qed.

Lemma rstrip_ends_word s c :
  last_char None s = Some c -> Py.isspace c = false -> Py.rstrip s = s.
Proof.
  revert c. induction s as [|a s IH]; intros c Hc Hsp; simpl; [done|].
  destruct s as [|b s].
  - simpl in *. inversion Hc; subst. by rewrite Hsp.
  - rewrite (IH c); [done | exact Hc | done].
Qed.

Lemma strip_single_spaced t : single_spaced t -> Py.strip t = t.
Proof.
  intros (ws & -> & Hws). pose proof (join_words_ends ws Hws) as H.
  destruct ws as [|w ws]; [done|]. destruct H as [Hstart (c & Hc & Hsp)].
  unfold Py.strip. rewrite (lstrip_starts_word _ Hstart).
  by apply (rstrip_ends_word _ c).
Qed.

Lemma squeeze_single_spaced t : single_spaced (squeeze t).
Proof. exists (Py.split t). split; [done | apply split_words]. Qed.

(** Replacing one whitespace character by a space keeps the words. *)
Lemma split_replace_space (c : ascii) :
  Py.isspace c = true ->
  forall t,
    Py.split (Py.replace (String c EmptyString) " " t) = Py.split t
    /\ Py.starts_word (Py.replace (String c EmptyString) " " t) = Py.starts_word t.
Proof.
  intros Hc. unfold Py.replace. induction t as [|a t [IHs IHw]]; [done|].
  assert (Hp : String.prefix "" t = true) by (by destruct t).
  simpl. destruct (ascii_dec c a) as [<-|Hne].
  - rewrite Hp. simpl. rewrite Hc, IHs. done.
  - simpl. rewrite IHs, IHw. done.
Qed.

(** ** Sentence splitting *)

Lemma has_text_app_l (x y : string) : has_text x -> has_text (x +:+ y).
Proof. unfold has_text. intros H. by rewrite all_chars_app, H. Qed.

Lemma strip_keeps_text s : has_text s -> has_text (Py.strip s).
Proof.
  intros H. unfold Py.strip. apply rstrip_has_text. by apply lstrip_has_text.
Qed.

(** Replacing by a text that is not blank leaves no blank text. *)
Lemma replace_has_text old new s :
  has_text new -> has_text s -> has_text (Py.replace old new s).
Proof.
  intros Hnew. unfold Py.replace. induction s as [|a s IH]; [done|].
  intros Hs.
  change (Py.replace_go old new 0 (String a s))
    with (if String.prefix old (String a s)
          then new +:+ Py.replace_go old new (String.length old - 1) s
          else String a (Py.replace_go old new 0 s)).
  destruct (String.prefix old (String a s)).
  - by apply has_text_app_l.
  - unfold has_text in *. simpl in *. destruct (Py.isspace a); [auto | done].
Qed.

(** A blank text has no occurrence of a text that starts with a visible
    character. *)
Lemma replace_blank c old new s :
  Py.isspace c = false -> all_chars Py.isspace s = true ->
  Py.replace (String c old) new s = s.
Proof.
  intros Hc. unfold Py.replace. induction s as [|a s IH]; [done|].
  simpl. intros H. apply andb_true_iff in H as [Ha Hs].
  destruct (ascii_dec c a) as [->|_]; [congruence|]. by rewrite IH.
Qed.

Lemma substring_all_chars c s : forall n m,
  all_chars c s = true -> all_chars c (String.substring n m s) = true.
Proof.
  induction s as [|a s IH]; intros n m H; [by destruct n, m|].
  simpl in H. apply andb_true_iff in H as [Ha Hs].
  destruct n as [|n]; simpl.
  - destruct m as [|m]; [done|]. simpl. by rewrite Ha, IH.
  - by apply IH.
Qed.

Lemma slice_to_app (x y : string) : Py.slice_to (String.length x) (x +:+ y) = x.
Proof. apply substring_take. Qed.

Lemma slice_from_app (x y : string) : Py.slice_from (String.length x) (x +:+ y) = y.
Proof.
  unfold Py.slice_from. rewrite substring_skip, str_app_length.
  replace (String.length x + String.length y - String.length x)%nat
    with (String.length y) by lia.
  rewrite <- (str_app_nil_r y) at 2. apply substring_take.
Qed.

(** The leftmost match: what lies before it, and the match itself. *)
Lemma search_from_found p s :
  forall prev pos m,
    Re.search_from p prev s pos = Some m ->
    exists pre post g,
      s = pre +:+ post
      /\ Re.m_start m = (pos + String.length pre)%nat
      /\ Re.run p Re.no_groups (last_char prev pre) post (pos + String.length pre)
         = Some (Re.m_end m, g).
Proof.
  induction s as [|a s IH]; intros prev pos m H; simpl in H.
  - destruct (Re.run p Re.no_groups prev EmptyString pos) as [[e g]|] eqn:E; [|discriminate].
    inversion H; subst; simpl. exists EmptyString, EmptyString, g.
    simpl. rewrite Nat.add_0_r. done.
  - destruct (Re.run p Re.no_groups prev (String a s) pos) as [[e g]|] eqn:E.
    + inversion H; subst; simpl. exists EmptyString, (String a s), g.
      simpl. rewrite Nat.add_0_r. done.
    + apply IH in H as (pre & post & g & -> & Hst & Hrun).
      exists (String a pre), post, g. simpl.
      replace (pos + S (String.length pre))%nat with (S pos + String.length pre)%nat by lia.
      done.
Qed.

(** A sentence boundary is a run of whitespace. *)
Lemma sentence_boundary prev s m :
  Re.search_from _SENT_SPLIT_RE prev s 0 = Some m ->
  exists pre w post,
    s = pre +:+ w +:+ post
    /\ all_chars Py.isspace w = true
    /\ Re.m_start m = String.length pre
    /\ Re.m_end m = String.length (pre +:+ w).
Proof.
  intros H. apply search_from_found in H as (pre & post & g & -> & Hst & Hrun).
  simpl in Hst, Hrun.
  destruct (last_char prev pre) as [b|] eqn:Eb; [|discriminate].
  destruct (is_sentence_end b); [|discriminate].
  apply greedy_sound in Hrun as (w & post' & -> & Hw & _ & Hk).
  simpl in Hk. inversion Hk; subst.
  exists pre, w, post'. rewrite str_app_length. done.
Qed.

Lemma split_go_blank fuel : forall prev s,
  all_chars Py.isspace s = true ->
  Forall (fun x => all_chars Py.isspace x = true) (Re.split_go fuel _SENT_SPLIT_RE prev s).
Proof.
  induction fuel as [|fuel IH]; intros prev s Hs; simpl; [by constructor|].
  destruct (Re.search_from _ prev s 0) as [m|]; [|by constructor].
  constructor.
  - by apply substring_all_chars.
  - apply IH. by apply substring_all_chars.
Qed.

Lemma split_go_has_text fuel : forall prev s,
  has_text s -> Exists has_text (Re.split_go fuel _SENT_SPLIT_RE prev s).
Proof.
  induction fuel as [|fuel IH]; intros prev s Hs; simpl; [by constructor|].
  destruct (Re.search_from _ prev s 0) as [m|] eqn:E; [|by constructor].
  apply sentence_boundary in E as (pre & w & post & -> & Hw & -> & ->).
  rewrite slice_to_app. rewrite <- str_app_assoc, slice_from_app.
  unfold has_text in Hs. rewrite !all_chars_app, Hw in Hs. simpl in Hs.
  destruct (all_chars Py.isspace pre) eqn:Hpre.
  - apply Exists_cons_tl. apply IH. exact Hs.
  - by apply Exists_cons_hd.
Qed.

Lemma nonblank_has_text s : nonblank s = true <-> has_text s.
Proof.
  unfold nonblank, has_text. destruct s as [|a s]; [done|].
  unfold Py.len. split.
  - intros H. destruct (all_chars Py.isspace (String a s)) eqn:E; [|done].
    unfold Py.strip in H. rewrite (lstrip_blank _ E) in H. simpl in H. discriminate.
  - intros H. apply strip_has_text in H.
    destruct (Py.strip (String a s)); [done|]. simpl. apply Z.ltb_lt. lia.
Qed.

(** Every sentence is stripped and has a visible character. *)
Lemma split_sentences_elements text :
  Forall (fun s => has_text s /\ Py.strip s = s) (split_sentences text).
Proof.
  unfold split_sentences. apply List.Forall_forall. intros s Hs.
  rewrite !in_map_iff in Hs.
  destruct Hs as (s1 & <- & (s0 & <- & Hin)%in_map_iff).
  apply filter_In in Hin as [_ Hnb]. apply nonblank_has_text in Hnb.
  split; [|apply strip_idem].
  apply strip_keeps_text. apply replace_has_text; [done|].
  apply replace_has_text; [done|]. by apply strip_keeps_text.
Qed.

Lemma split_sentences_blank text :
  all_chars Py.isspace text = true -> split_sentences text = [].
Proof.
  intros H. unfold split_sentences.
  change "Fig." with (String "F" "ig."). change "Figs." with (String "F" "igs.").
  rewrite (replace_blank "F" "ig." _ text), (replace_blank "F" "igs." _ text); try done.
  unfold Re.split.
  pose proof (split_go_blank (S (String.length text)) None text H) as Hall.
  induction Hall as [|x l Hx _ IH]; [done|].
  simpl. destruct (nonblank x) eqn:E; [|exact IH].
  apply nonblank_has_text in E. unfold has_text in E. congruence.
Qed.

Lemma split_sentences_has_text text :
  has_text text -> split_sentences text <> [].
Proof.
  intros H. unfold split_sentences.
  set (tmp := Py.replace "Figs." FIGS_TOKEN (Py.replace "Fig." FIG_TOKEN text)).
  assert (Htmp : has_text tmp).
  { apply replace_has_text; [done|]. by apply replace_has_text. }
  unfold Re.split.
  pose proof (split_go_has_text (S (String.length tmp)) None tmp Htmp) as Hex.
  apply List.Exists_exists in Hex as (x & Hin & Hx).
  apply nonblank_has_text in Hx.
  intros Hnil. apply map_eq_nil in Hnil. apply map_eq_nil in Hnil.
  assert (Hin' : In x (List.filter nonblank
            (Re.split_go (S (String.length tmp)) _SENT_SPLIT_RE None tmp))).
  { apply filter_In. split; done. }
  rewrite Hnil in Hin'. destruct Hin'.
Qed.

(** ** Raw text and sentences *)

Lemma extract_rawtext_squeezed root :
  xpath_texts_under "rawtext" root <> [] ->
  extract_rawtext_from_xml (Some root)
  = Some (squeeze (Py.join " " (xpath_texts_under "rawtext" root))).
Proof.
  intros Hne. unfold extract_rawtext_from_xml.
  destruct (xpath_texts_under "rawtext" root) as [|n ns] eqn:E; [done|].
  f_equal. rewrite strip_single_spaced by apply squeeze_single_spaced.
  unfold squeeze. f_equal. by apply split_replace_space.
Qed.

Lemma rawtext_single_spaced parsed t :
  extract_rawtext_from_xml parsed = Some t -> single_spaced t.
Proof.
  destruct parsed as [root|]; [|discriminate].
  destruct (xpath_texts_under "rawtext" root) as [|n ns] eqn:E.
  - unfold extract_rawtext_from_xml. by rewrite E.
  - rewrite extract_rawtext_squeezed by (by rewrite E).
    intros [= <-]. apply squeeze_single_spaced.
Qed.

(** X8. Where the document has raw text nodes, the extractor of the batch
    script returns what the extractor of extract_caption_rawtext.py returns:
    replacing carriage returns and the final strip change nothing.  The text
    is words joined by single spaces. *)
Theorem rawtext_extractors_agree parsed t :
  extract_rawtext_from_xml parsed = Some t ->
  ExtractCaption.extract_text_from_xml parsed = Some t /\ single_spaced t.
Proof.
  destruct parsed as [root|]; [|discriminate].
  destruct (xpath_texts_under "rawtext" root) as [|n ns] eqn:E.
  - unfold extract_rawtext_from_xml. by rewrite E.
  - rewrite extract_rawtext_squeezed by (by rewrite E).
    intros [= <-]. split; [|apply squeeze_single_spaced].
    unfold ExtractCaption.extract_text_from_xml. by rewrite E.
Qed.

Lemma rawtext_extractors_agree_witness :
  ExtractCaption.extract_text_from_xml (Some figure_and_table_doc)
  = Some "Fig. 1 and Table 2 compare the yields."
  /\ single_spaced "Fig. 1 and Table 2 compare the yields.".
Proof.
  apply (rawtext_extractors_agree (Some figure_and_table_doc)
           "Fig. 1 and Table 2 compare the yields.").
  reflexivity.
Defined.

(** X9. No sentence of [split_sentences] is empty, and none begins or ends
    with whitespace. *)
Theorem split_sentences_clean text :
  Forall (fun s => s <> EmptyString /\ Py.strip s = s) (split_sentences text).
Proof.
  eapply Forall_impl; [apply split_sentences_elements|].
  intros s [Ht Hs]. split; [|done]. intros ->. discriminate.
Qed.

(** X10. [split_sentences] returns no sentence exactly for the texts that
    are empty or all whitespace. *)
Theorem split_sentences_nil_iff text :
  split_sentences text = [] <-> all_chars Py.isspace text = true.
Proof.
  split.
  - intros Hnil. destruct (all_chars Py.isspace text) eqn:E; [done|].
    by apply split_sentences_has_text in E.
  - apply split_sentences_blank.
Qed.

(** X11. A document whose raw text is not empty always has sentences: the
    second early return of [process_single_xml] is never taken.  The
    records are those of the figure detector followed by those of the table
    detector, both run on the sentences of the raw text, each with the file
    name.  If there is none, the empty list is returned and nothing is
    written.  Otherwise they are written once, under the file name with
    ".xml" replaced by ".json"; they are returned if the writing succeeds,
    and if it raises, so does [process_single_xml]. *)
Theorem process_single_xml_composes {World : Type}
    (chat : World -> string -> string -> World * chat_result)
    (save_json :
       World -> string -> string -> list (string * CaptionRecord) -> World * option string)
    (w : World) (fname out_json_dir : string) (parsed : option xml) (t : string) :
  extract_rawtext_from_xml parsed = Some t ->
  t <> EmptyString ->
  split_sentences t <> []
  /\ exists figs w' tabs,
       detect_figure_captions (split_sentences t) = Ret figs
       /\ detect_table_captions chat w (split_sentences t) = Ret (w', tabs)
       /\ let all_records := List.map (fun r => (fname, r)) (figs ++ tabs) in
          let written :=
            save_json w' out_json_dir (Py.replace ".xml" ".json" fname) all_records in
          (all_records = [] ->
             process_single_xml chat save_json w fname out_json_dir parsed = Ret (w', []))
          /\ (all_records <> [] -> snd written = None ->
                process_single_xml chat save_json w fname out_json_dir parsed
                = Ret (fst written, all_records))
          /\ (all_records <> [] -> snd written <> None ->
                process_single_xml chat save_json w fname out_json_dir parsed
                = Raise OSError).
Proof.
  intros Hraw Hne.
  assert (Hsent : split_sentences t <> []).
  { apply split_sentences_has_text.
    pose proof (rawtext_single_spaced parsed t Hraw) as Hss.
    apply strip_single_spaced in Hss. unfold has_text.
    destruct (all_chars Py.isspace t) eqn:E; [|done].
    unfold Py.strip in Hss. rewrite (lstrip_blank t E) in Hss. simpl in Hss. congruence. }
  split; [done|].
  destruct (detect_figure_captions_spec (split_sentences t)) as (figs & Hf & _).
  destruct (detect_table_captions_spec chat w (split_sentences t)) as (w' & tabs & Ht & _).
  exists figs, w', tabs. split; [done|]. split; [done|].
  intros all_records written.
  assert (Hrun : process_single_xml chat save_json w fname out_json_dir parsed
                 = match all_records with
                   | [] => Ret (w', [])
                   | _ => match written with
                          | (w'', None) => Ret (w'', all_records)
                          | (_, Some _) => Raise OSError
                          end
                   end).
  { unfold process_single_xml. rewrite Hraw. simpl.
    destruct t as [|a t]; [done|].
    destruct (split_sentences (String a t)) as [|s ss] eqn:E; [done|].
    rewrite Hf, Ht. reflexivity. }
  rewrite Hrun. split; [by intros ->|].
  destruct all_records as [|r rs]; [by split|].
  destruct written as [w'' [e|]]; simpl; split; intros _ Hw; done.
Qed.

Lemma process_single_xml_composes_witness :
  split_sentences "Fig. 1 and Table 2 compare the yields." <> []
  /\ process_single_xml (constant_oracle caption_answer) writing_ok tt "a.xml" "out"
       (Some figure_and_table_doc)
     <> Ret (tt, [])
  /\ process_single_xml (constant_oracle caption_answer) (writing_fails "disk full") tt
       "a.xml" "out" (Some figure_and_table_doc)
     = Raise OSError.
Proof.
  destruct (process_single_xml_composes (constant_oracle caption_answer)
              (writing_fails "disk full") tt "a.xml" "out"
              (Some figure_and_table_doc) "Fig. 1 and Table 2 compare the yields.")
    as (Hsent & figs & w' & tabs & Hf & Ht & _ & _ & Hraise);
    [reflexivity | discriminate |].
  split; [exact Hsent|]. split; [vm_compute; discriminate|].
  assert (Hfigs : Ret figs = detect_figure_captions
                    (split_sentences "Fig. 1 and Table 2 compare the yields."))
    by (by rewrite Hf).
  vm_compute in Hfigs. inversion Hfigs; subst figs.
  apply Hraise; discriminate.
Defined.

(** ** Running the matcher forwards *)

(** A repetition that can take all of [w] and no more, with a rest on which
    the continuation succeeds, takes [w]. *)
Lemma greedy_take {R : Type} c (k : option ascii -> string -> nat -> option R) w :
  forall lo prev pos rest r,
    all_chars c w = true -> (lo <= String.length w)%nat -> no_more c rest ->
    k (last_char prev w) rest (pos + String.length w)%nat = Some r ->
    Re.greedy c lo k prev (w +:+ rest) pos = Some r.
Proof.
  induction w as [|a w IH]; intros lo prev pos rest r Hw Hlo Hrest Hk; simpl in *.
  - rewrite Nat.add_0_r in Hk. assert (lo = O) by lia. subst lo.
    destruct rest as [|b rest]; simpl; [done|]. simpl in Hrest. by rewrite Hrest.
  - apply andb_true_iff in Hw as [Ha Hw]. rewrite Ha.
    rewrite (IH (Nat.pred lo) (Some a) (S pos) rest r); try done; [lia|].
    by replace (S pos + String.length w)%nat with (pos + S (String.length w))%nat by lia.
Qed.

Lemma run_many c lo w p g prev pos rest r :
  all_chars c w = true -> (lo <= String.length w)%nat -> no_more c rest ->
  Re.run p g (last_char prev w) rest (pos + String.length w)%nat = Some r ->
  Re.run (Re.Many c lo :: p) g prev (w +:+ rest) pos = Some r.
Proof. apply greedy_take. Qed.

Lemma run_lit x : forall p g prev pos s r,
  Re.run p g (last_char prev x) s (pos + String.length x)%nat = Some r ->
  Re.run (Re.lit x ++ p) g prev (x +:+ s) pos = Some r.
Proof.
  induction x as [|a x IH]; intros p g prev pos s r H; simpl in *.
  - by rewrite Nat.add_0_r in H.
  - unfold Re.is_char at 1. rewrite Ascii.eqb_refl. apply IH.
    by replace (S pos + String.length x)%nat with (pos + S (String.length x))%nat by lia.
Qed.

Lemma run_opt_skip c p g prev pos s r :
  no_more c s ->
  Re.run p g prev s pos = Some r ->
  Re.run (Re.Opt c :: p) g prev s pos = Some r.
Proof.
  intros Hs H. simpl. destruct s as [|a s]; [done|]. simpl in Hs. by rewrite Hs.
Qed.

Lemma run_opt_take c p g prev pos a s r :
  c a = true ->
  Re.run p g (Some a) s (S pos) = Some r ->
  Re.run (Re.Opt c :: p) g prev (String a s) pos = Some r.
Proof. intros Ha H. simpl. by rewrite Ha, H. Qed.

Lemma run_open p g prev pos s r :
  Re.run p {| Re.opened := pos :: Re.opened g; Re.closed := Re.closed g |} prev s pos
  = Some r ->
  Re.run (Re.GroupOpen :: p) g prev s pos = Some r.
Proof. done. Qed.

Lemma run_close p g prev pos s r st o :
  Re.opened g = st :: o ->
  Re.run p {| Re.opened := o; Re.closed := Re.closed g ++ [(st, pos)] |} prev s pos
  = Some r ->
  Re.run (Re.GroupClose :: p) g prev s pos = Some r.
Proof. intros Ho H. simpl. by rewrite Ho. Qed.

Lemma search_from_here p prev s pos e g :
  Re.run p Re.no_groups prev s pos = Some (e, g) ->
  Re.search_from p prev s pos
  = Some {| Re.m_start := pos; Re.m_end := e; Re.m_spans := Re.closed g |}.
Proof. intros H. destruct s; simpl; by rewrite H. Qed.

Lemma substring_at (x w y : string) :
  String.substring (String.length x) (String.length w) (x +:+ w +:+ y) = w.
Proof. rewrite substring_skip. apply substring_take. Qed.

(** ** The answer the prompt asks for *)

Lemma label_char_not_space a : is_label_char a = true -> Py.isspace a = false.
Proof. each_char a. Qed.

Lemma decimal_not_space a : Py.isdecimal a = true -> Py.isspace a = false.
Proof. each_char a. Qed.

Lemma decimal_not_minus a : Py.isdecimal a = true -> Re.is_char "-" a = false.
Proof. each_char a. Qed.

Lemma no_more_first (c c' : ascii -> bool) s rest :
  s <> EmptyString -> all_chars c' s = true ->
  (forall a, c' a = true -> c a = false) ->
  no_more c (s +:+ rest).
Proof.
  destruct s as [|a s]; [done|]. simpl. intros _ H Hc.
  apply andb_true_iff in H as [Ha _]. auto.
Qed.

Lemma single_spaced_first rsn rest :
  single_spaced rsn -> rsn <> EmptyString -> no_more Py.isspace (rsn +:+ rest).
Proof.
  intros (ws & -> & Hws) Hne. pose proof (join_words_ends ws Hws) as H.
  destruct ws as [|w ws]; [done|]. destruct H as [Hst _].
  destruct (Py.join " " (w :: ws)) as [|a s]; [done|].
  simpl in *. by apply negb_true_iff.
Qed.

(** The pattern matches the answer line from its start, and its groups are
    the three fields. *)
Lemma answer_line_matches lab e rsn :
  lab <> EmptyString -> all_chars is_label_char lab = true ->
  is_integer_text e ->
  single_spaced rsn -> rsn <> EmptyString ->
  exists m,
    Re.search RESPONSE_PATTERN (answer_line lab e rsn) = Some m
    /\ Re.group (answer_line lab e rsn) m 1 = Some lab
    /\ Re.group (answer_line lab e rsn) m 2 = Some e
    /\ Re.group (answer_line lab e rsn) m 3 = Some rsn.
Proof.
  intros Hlab Hlabc He Hrsn Hrsn0.
  set (line := answer_line lab e rsn).
  assert (Hline : line = "LABEL" +:+ "=" +:+ lab +:+ ";" +:+ " " +:+ "END_INDEX" +:+ "="
                         +:+ e +:+ ";" +:+ " " +:+ "REASON" +:+ "=" +:+ rsn +:+ "").
  { subst line. unfold answer_line. by rewrite (str_app_nil_r rsn). }
  assert (Hone : all_chars not_newline rsn = true).
  { destruct Hrsn as (ws & -> & Hws). by apply join_words_one_line. }
  assert (Hrlen : (1 <= String.length rsn)%nat).
  { destruct rsn; [done | simpl; lia]. }
  assert (Hllen : (1 <= String.length lab)%nat).
  { destruct lab; [done | simpl; lia]. }
  set (L := String.length lab). set (E := String.length e).
  set (R := String.length rsn).
  (* the match from position 0 *)
  assert (Hrun :
    Re.run RESPONSE_PATTERN Re.no_groups None line 0
    = Some ((27 + L + E + R)%nat,
            {| Re.opened := [];
               Re.closed := [(6, 6 + L); (18 + L, 18 + L + E);
                             (27 + L + E, 27 + L + E + R)]%nat |})).
  { rewrite Hline. unfold RESPONSE_PATTERN.
    apply (run_lit "LABEL").
    apply (run_many Py.isspace 0 ""); [done | simpl; lia | done |].
    apply (run_lit "=").
    apply (run_many Py.isspace 0 ""); [done | simpl; lia | |].
    { apply (no_more_first _ is_label_char); auto using label_char_not_space. }
    apply run_open.
    apply (run_many is_label_char 1 lab); [done | lia | done |].
    eapply run_close; [reflexivity|].
    apply (run_many Py.isspace 0 ""); [done | simpl; lia | done |].
    apply (run_lit ";").
    apply (run_many Py.isspace 0 " "); [done | simpl; lia | done |].
    apply (run_lit "END_INDEX").
    apply (run_many Py.isspace 0 ""); [done | simpl; lia | done |].
    apply (run_lit "=").
    assert (Htail : forall g pos prev,
              Re.opened g = [] ->
              Re.run ([Re.Many Py.isspace 0] ++ Re.lit ";" ++ [Re.Many Py.isspace 0]
                      ++ Re.lit "REASON" ++ [Re.Many Py.isspace 0] ++ Re.lit "="
                      ++ [Re.Many Py.isspace 0; Re.GroupOpen; Re.Many not_newline 1;
                          Re.GroupClose])
                g prev (";" +:+ " " +:+ "REASON" +:+ "=" +:+ rsn +:+ "") pos
              = Some ((pos + 9 + R)%nat,
                      {| Re.opened := [];
                         Re.closed := Re.closed g ++ [(pos + 9, pos + 9 + R)]%nat |})).
    { intros g pos prev Hg.
      apply (run_many Py.isspace 0 ""); [done | simpl; lia | done |].
      apply (run_lit ";").
      apply (run_many Py.isspace 0 " "); [done | simpl; lia | done |].
      apply (run_lit "REASON").
      apply (run_many Py.isspace 0 ""); [done | simpl; lia | done |].
      apply (run_lit "=").
      apply (run_many Py.isspace 0 ""); [done | simpl; lia | |].
      { by apply single_spaced_first. }
      apply run_open.
      apply (run_many not_newline 1 rsn); [done | lia | done |].
      eapply run_close; [reflexivity|].
      simpl. rewrite Hg. subst R. repeat (f_equal; try lia). }
    destruct He as (ds & Hds0 & Hds & [He | He]).
    - subst E. rewrite He.
      apply (run_many Py.isspace 0 ""); [done | simpl; lia | |].
      { apply (no_more_first _ Py.isdecimal); auto using decimal_not_space. }
      apply run_open.
      apply run_opt_skip.
      { apply (no_more_first _ Py.isdecimal); auto using decimal_not_minus. }
      apply (run_many Py.isdecimal 1 ds); [done | destruct ds; [done | simpl; lia] | done |].
      eapply run_close; [reflexivity|].
      rewrite Htail by done. simpl. subst L. repeat (f_equal; try lia).
    - subst E. rewrite He.
      apply (run_many Py.isspace 0 ""); [done | simpl; lia | done |].
      apply run_open.
      apply run_opt_take; [done|].
      apply (run_many Py.isdecimal 1 ds); [done | destruct ds; [done | simpl; lia] | done |].
      eapply run_close; [reflexivity|].
      rewrite Htail by done. simpl. subst L. repeat (f_equal; try lia). }
  eexists. split.
  { unfold Re.search. apply search_from_here. exact Hrun. }
  simpl Re.closed.
  split; [|split].
  - apply (group_of_span _ _ 0 "LABEL=" lab ("; END_INDEX=" +:+ e +:+ "; REASON=" +:+ rsn));
      [|done].
    simpl. do 2 f_equal.
  - apply (group_of_span _ _ 1 ("LABEL=" +:+ lab +:+ "; END_INDEX=") e ("; REASON=" +:+ rsn)).
    + simpl. rewrite !str_app_length. simpl. do 2 f_equal; lia.
    + subst line. unfold answer_line. by rewrite !str_app_assoc.
  - apply (group_of_span _ _ 2 ("LABEL=" +:+ lab +:+ "; END_INDEX=" +:+ e +:+ "; REASON=")
             rsn "").
    + simpl. rewrite !str_app_length. simpl. rewrite !str_app_length. simpl.
      do 2 f_equal; lia.
    + subst line. unfold answer_line. rewrite !str_app_assoc.
      by rewrite (str_app_nil_r rsn).
Qed.

(** A word, then nothing or whitespace: [split] cuts after the word. *)
Lemma split_word_then w rest :
  is_word w -> Py.starts_word rest = false ->
  Py.split (w +:+ rest) = w :: Py.split rest
  /\ Py.starts_word (w +:+ rest) = true.
Proof.
  intros [Hne Hw]. revert Hne Hw. induction w as [|a w IH]; [done|].
  intros _ Hw Hrest. simpl in Hw. apply andb_true_iff in Hw as [Ha Hw].
  apply negb_true_iff in Ha. simpl. rewrite Ha. split; [|done].
  destruct w as [|b w].
  - simpl. by rewrite Hrest.
  - destruct IH as [IHs IHw]; [done | done | done |]. by rewrite IHw, IHs.
Qed.

Lemma split_join_words (ws : list string) :
  Forall is_word ws -> Py.split (Py.join " " ws) = ws.
Proof.
  induction 1 as [|w ws Hw Hws IH]; [done|].
  destruct ws as [|w2 ws].
  - simpl. rewrite <- (str_app_nil_r w) at 1.
    by destruct (split_word_then w EmptyString Hw eq_refl) as [-> _].
  - change (Py.join " " (w :: w2 :: ws)) with (w +:+ " " +:+ Py.join " " (w2 :: ws)).
    destruct (split_word_then w (" " +:+ Py.join " " (w2 :: ws)) Hw eq_refl) as [-> _].
    f_equal. exact IH.
Qed.

Lemma squeeze_single_spaced_id t : single_spaced t -> squeeze t = t.
Proof. intros (ws & -> & Hws). unfold squeeze. by rewrite split_join_words. Qed.

Lemma is_word_app (x y : string) :
  x <> EmptyString ->
  all_chars (fun a => negb (Py.isspace a)) x = true ->
  all_chars (fun a => negb (Py.isspace a)) y = true ->
  is_word (x +:+ y).
Proof.
  intros Hx Hxc Hyc. split; [by destruct x | by rewrite all_chars_app, Hxc, Hyc].
Qed.

Lemma integer_text_no_space e :
  is_integer_text e -> all_chars (fun a => negb (Py.isspace a)) e = true.
Proof.
  intros (ds & _ & Hds & [-> | ->]); [|simpl];
    (eapply all_chars_weaken; [|exact Hds]);
    intros a Ha; by rewrite (decimal_not_space a Ha).
Qed.

(** The answer line is words joined by single spaces. *)
Lemma answer_line_single_spaced lab e rsn :
  all_chars is_label_char lab = true -> is_integer_text e ->
  single_spaced rsn -> rsn <> EmptyString ->
  single_spaced (answer_line lab e rsn).
Proof.
  intros Hlab He (ws & -> & Hws) Hne.
  destruct ws as [|w1 ws]; [done|].
  inversion Hws as [|? ? [Hw1 Hw1c] Hws']; subst.
  exists (("LABEL=" +:+ lab +:+ ";") :: ("END_INDEX=" +:+ e +:+ ";")
          :: ("REASON=" +:+ w1) :: ws).
  split.
  - unfold answer_line.
    change (Py.join " " (("LABEL=" +:+ lab +:+ ";") :: ("END_INDEX=" +:+ e +:+ ";")
                         :: ("REASON=" +:+ w1) :: ws))
      with (("LABEL=" +:+ lab +:+ ";") +:+ " " +:+ ("END_INDEX=" +:+ e +:+ ";") +:+ " "
            +:+ Py.join " " (("REASON=" +:+ w1) :: ws)).
    assert (Hj : Py.join " " (("REASON=" +:+ w1) :: ws)
                 = "REASON=" +:+ Py.join " " (w1 :: ws)).
    { destruct ws as [|w2 ws]; [done|].
      change (Py.join " " (("REASON=" +:+ w1) :: w2 :: ws))
        with (("REASON=" +:+ w1) +:+ " " +:+ Py.join " " (w2 :: ws)).
      change (Py.join " " (w1 :: w2 :: ws)) with (w1 +:+ " " +:+ Py.join " " (w2 :: ws)).
      by rewrite !str_app_assoc. }
    rewrite Hj, !str_app_assoc. reflexivity.
  - assert (Hlab' : all_chars (fun a => negb (Py.isspace a)) lab = true).
    { eapply all_chars_weaken; [|exact Hlab].
      intros a Ha. by rewrite (label_char_not_space a Ha). }
    pose proof (integer_text_no_space e He) as He'.
    repeat constructor; try done; simpl; by rewrite all_chars_app, ?Hlab', ?He'.
Qed.

Lemma index_here sub a s :
  String.prefix sub (String a s) = true ->
  String.index 0 sub (String a s) = Some O.
Proof.
  intros H.
  change (String.index 0 sub (String a s))
    with (if String.prefix sub (String a s) then Some O
          else match String.index 0 sub s with
               | Some n => Some (S n)
               | None => None
               end).
  by rewrite H.
Qed.

Lemma response_line_answer lab e rsn :
  all_chars is_label_char lab = true -> is_integer_text e ->
  single_spaced rsn -> rsn <> EmptyString ->
  response_line (answer_line lab e rsn) = answer_line lab e rsn.
Proof.
  intros Hlab He Hrsn Hne. unfold response_line.
  assert (Hfind : Py.find "LABEL=" (answer_line lab e rsn) = 0).
  { unfold Py.find, answer_line.
    change ("LABEL=" +:+ lab +:+ "; END_INDEX=" +:+ e +:+ "; REASON=" +:+ rsn)
      with (String "L" ("ABEL=" +:+ lab +:+ "; END_INDEX=" +:+ e +:+ "; REASON=" +:+ rsn)).
    rewrite index_here; [done|]. simpl. by destruct (lab +:+ _). }
  rewrite Hfind. simpl Z.geb. cbv iota. change (Z.to_nat 0) with O.
  unfold Py.slice_from. rewrite Nat.sub_0_r, substring_all.
  rewrite split_join_splitlines.
  apply squeeze_single_spaced_id. by apply answer_line_single_spaced.
Qed.

(** X12. The answer in the format the prompt asks for is read back field by
    field: for a label of capitals and underscores, an integer text and a
    reason of words separated by single spaces, the parser returns the reason
    as written, the label if it is TABLE_CAPTION or NOT_CAPTION (PARSE_ERROR
    otherwise) and the integer if it is -1, 0, 1 or 2 (-1 otherwise). *)
Theorem answer_line_round_trip lab e rsn :
  lab <> EmptyString -> all_chars is_label_char lab = true ->
  is_integer_text e ->
  single_spaced rsn -> rsn <> EmptyString ->
  parse_table_response (answer_line lab e rsn)
  = Ret {| label := if known_label lab then lab else "PARSE_ERROR";
           end_index :=
             match Py.int e with
             | Some z => if known_end_index z then z else -1
             | None => -1
             end;
           reason := rsn |}.
Proof.
  intros Hlab Hlabc He Hrsn Hne.
  destruct (answer_line_matches lab e rsn) as (m & Hm & H1 & H2 & H3); try done.
  rewrite <- (response_line_answer lab e rsn) in Hm, H1, H2, H3 by done.
  rewrite (parse_table_response_matched _ m lab e rsn Hm H1 H2 H3).
  rewrite (upper_label lab Hlabc), (strip_single_spaced rsn Hrsn).
  destruct (Py.int e); reflexivity.
Qed.

Lemma answer_line_round_trip_witness :
  parse_table_response "LABEL=TABLE_CAPTION; END_INDEX=1; REASON=short caption"
  = Ret {| label := "TABLE_CAPTION"; end_index := 1; reason := "short caption" |}.
Proof.
  apply (answer_line_round_trip "TABLE_CAPTION" "1" "short caption").
  - discriminate.
  - reflexivity.
  - exists "1"%string. split; [discriminate|]. split; [reflexivity | by left].
  - exists ["short"; "caption"]%string. split; [reflexivity|].
    repeat constructor; discriminate.
  - discriminate.
Defined.

(** ** Ids *)

(** The group of a pattern that ends in the number group. *)
Lemma number_group letter P t m :
  group_free P = true ->
  Re.search (P ++ NUMBER_GROUP letter) t = Some m ->
  exists g x y,
    Re.group t m 1 = Some g /\ is_number_text letter g /\ t = x +:+ g +:+ y.
Proof.
  intros HP Hm. unfold Re.search in Hm.
  apply (search_from_run _ t EmptyString) in Hm
    as (pre & post & g & -> & _ & Hrun & Hspans).
  change (EmptyString +:+ pre) with pre in Hrun.
  apply run_derives in Hrun as (read' & rest & Hd & _).
  apply derives_app in Hd as (r1 & s1 & g1 & Hd1 & Hg).
  pose proof (derives_group_free P HP _ _ _ _ _ _ Hd1) as ->.
  apply derives_whole in Hd1.
  unfold NUMBER_GROUP in Hg. simpl in Hg.
  destruct Hg as (ds & s2 & -> & Hds & Hlen & Hg).
  assert (Hds0 : ds <> EmptyString) by (intros ->; simpl in Hlen; lia).
  destruct Hg as [Hg | (a & s3 & -> & Ha & Hg)].
  - destruct Hg as (st & o & Ho & Hg). simpl in Ho. inversion Ho; subst st o.
    inversion Hg; subst read' rest g. simpl in Hspans.
    exists ds, r1, s2. split; [|split].
    + apply (group_of_span _ m 0 r1 ds s2); [by rewrite Hspans | done].
    + exists ds, EmptyString. rewrite str_app_nil_r. auto.
    + done.
  - destruct Hg as (st & o & Ho & Hg). simpl in Ho. inversion Ho; subst st o.
    inversion Hg; subst read' rest g. simpl in Hspans.
    exists (ds +:+ String a EmptyString), r1, s3. split; [|split].
    + apply (group_of_span _ m 0 r1 (ds +:+ String a EmptyString) s3).
      * rewrite Hspans. simpl. by rewrite !str_app_assoc.
      * rewrite Hd1. by rewrite !str_app_assoc.
    + exists ds, (String a EmptyString). eauto 10.
    + rewrite Hd1. by rewrite !str_app_assoc.
Qed.

Lemma slice_from_suffix (n : nat) s : exists x, s = x +:+ Py.slice_from n s.
Proof.
  unfold Py.slice_from. revert n. induction s as [|a s IH]; intros n.
  - exists EmptyString. by destruct n.
  - destruct n as [|n].
    + exists EmptyString. simpl. by rewrite substring_all.
    + destruct (IH n) as (x & Hx). exists (String a x). simpl. by rewrite <- Hx.
Qed.

Lemma figure_number_spec s m t :
  figure_number s m = Some t ->
  is_number_text Py.isalpha_ascii t /\ exists x y, s = x +:+ t +:+ y.
Proof.
  unfold figure_number. destruct (Re.search FIG_NUMBER _) as [mn|] eqn:E; [|done].
  intros Hg.
  apply (number_group Py.isalpha_ascii (Re.lit "Fig." ++ [Re.Many Py.isspace 0])) in E
    as (g & x & y & Hg' & Hnum & Htail); [|done].
  rewrite Hg' in Hg. inversion Hg; subst g. split; [done|].
  destruct (slice_from_suffix (Re.m_start m) s) as (x0 & Hs).
  exists (x0 +:+ x), y. rewrite Hs at 1. rewrite Htail. by rewrite !str_app_assoc.
Qed.

Lemma table_id_spec text t :
  table_id text = Some t ->
  is_number_text (Re.class_nocase Py.isalpha_ascii) t
  /\ exists x y, text = x +:+ t +:+ y.
Proof.
  unfold table_id. destruct (Re.search TABLE_NUMBER _) as [mn|] eqn:E; [|done].
  intros Hg.
  apply (number_group (Re.class_nocase Py.isalpha_ascii)
           (Re.WordBoundary :: Re.lit_nocase "Table" ++ [Re.Many Py.isspace 0]))
    in E as (g & x & y & Hg' & Hnum & Htext); [|done].
  rewrite Hg' in Hg. inversion Hg; subst g. eauto.
Qed.

Lemma join_head (s : string) (tl : list string) :
  exists y, Py.join " " (s :: tl) = s +:+ y.
Proof.
  destruct tl as [|s2 tl].
  - exists EmptyString. simpl. by rewrite str_app_nil_r.
  - by exists (" " +:+ Py.join " " (s2 :: tl)).
Qed.

Lemma slice_head (sentences : list string) (i e : Z) s :
  0 <= i <= e -> e < llen sentences ->
  sentences !! Z.to_nat i = Some s ->
  exists tl, Py.slice sentences i (e + 1) = s :: tl.
Proof.
  intros Hi He Hs. unfold Py.slice.
  rewrite !clamp_in_range by lia.
  destruct (drop (Z.to_nat i) sentences) as [|s' tl] eqn:Hd.
  - apply lookup_lt_Some in Hs. apply (f_equal length) in Hd.
    rewrite length_drop in Hd. simpl in Hd. lia.
  - pose proof (lookup_drop sentences (Z.to_nat i) 0) as Hl.
    rewrite Hd, Nat.add_0_r, Hs in Hl. simpl in Hl. inversion Hl; subst s'.
    replace (Z.to_nat (e + 1) - Z.to_nat i)%nat with (S (Z.to_nat (e - i))) by lia.
    simpl. eauto.
Qed.

Lemma figure_loop_ids sentences todo :
  forall i used results rs,
    0 <= i ->
    drop (Z.to_nat i) sentences = todo ->
    Forall (id_in_caption Py.isalpha_ascii) results ->
    figure_loop sentences i todo used results = Ret rs ->
    Forall (id_in_caption Py.isalpha_ascii) rs.
Proof.
  induction todo as [|s todo IH]; intros i used results rs Hi Hdrop Hall H.
  - simpl in H. by inversion H; subst rs.
  - assert (Hs : sentences !! Z.to_nat i = Some s).
    { pose proof (lookup_drop sentences (Z.to_nat i) 0) as Hl.
      rewrite Hdrop, Nat.add_0_r in Hl. done. }
    assert (Hdrop' : drop (Z.to_nat (i + 1)) sentences = todo).
    { replace (Z.to_nat (i + 1)) with (Z.to_nat i + 1)%nat by lia.
      rewrite <- drop_drop, Hdrop. done. }
    pose proof (lookup_lt_Some _ _ _ Hs) as Hin.
    simpl in H.
    destruct (Py.getitem used i) as [u|]; [simpl in H | discriminate].
    destruct u; [by apply (IH (i + 1) used results rs); try lia|].
    destruct (Re.search FIG_PATTERN s) as [m|];
      [|by apply (IH (i + 1) used results rs); try lia].
    destruct (mark_used _ _) as [used'|]; [simpl in H | discriminate].
    assert (Hi' : 0 <= i + 1) by lia.
    revert H. apply IH; [done | done |].
    apply Forall_app. split; [done|]. apply Forall_singleton.
    intros t Ht. simpl in Ht. apply figure_number_spec in Ht as [Hnum (x & y & Hxy)].
    split; [done|]. simpl.
    destruct (slice_head sentences i (Z.min (i + 2) (llen sentences - 1)) s)
      as (tl & ->); [unfold llen; lia | unfold llen; lia | done |].
    destruct (join_head s tl) as (y' & ->).
    exists x, (y +:+ y'). rewrite Hxy at 1. by rewrite !str_app_assoc.
Qed.

(** X13. An id is never free text.  The id of a figure record, when it has
    one, is digits 0..9 followed by at most one ASCII letter; the id of a
    table record is digits 0..9 followed by at most one character that
    [[a-zA-Z]] matches under IGNORECASE.  Either stands in the caption text
    of its record. *)
Theorem ids_are_numbers_of_the_caption {World : Type}
    (chat : World -> string -> string -> World * chat_result)
    (w : World) (sentences : list string) :
  exists figs w' tabs,
    detect_figure_captions sentences = Ret figs
    /\ detect_table_captions chat w sentences = Ret (w', tabs)
    /\ Forall (id_in_caption Py.isalpha_ascii) figs
    /\ Forall (id_in_caption (Re.class_nocase Py.isalpha_ascii)) tabs.
Proof.
  destruct (detect_figure_captions_spec sentences) as (figs & Hf & _).
  destruct (detect_table_captions_final chat sentences w) as (st & Hst & _ & Ht).
  exists figs, (t_world st), (t_results st). split; [done|]. split; [done|].
  split.
  - apply (figure_loop_ids sentences sentences 0
             (replicate (length sentences) false) [] figs); try done.
  - destruct (reachable_records chat sentences w st Hst) as [Hall _].
    eapply Forall_impl; [exact Hall|]. simpl.
    intros r [_ (lab & e & rsn & _ & _ & _ & _ & _ & _ & _ & Hcase)] t Hid.
    destruct (accepted _).
    + destruct Hcase as (_ & _ & Hidr). rewrite Hidr in Hid.
      by apply table_id_spec in Hid.
    + destruct Hcase as (_ & _ & Hidr). congruence.
Qed.

(** ** The keyword filter *)

Lemma search_any_branch (p : Re.pattern) (ps : list Re.pattern) s :
  In p ps -> Re.matches p s = true -> search_any ps s = true.
Proof. intros Hin Hm. unfold search_any. apply existsb_exists. eauto. Qed.

Lemma table_keyword_is_branch s :
  Re.matches TABLE_KEYWORD_PAT s = true -> search_any FIG_TABLE_PATTERN s = true.
Proof.
  intros H.
  apply (search_any_branch
           (Re.WordBoundary :: Re.GroupOpen
              :: (Re.lit_nocase "Table" ++ [Re.Opt (Re.is_char_nocase "s")])
              ++ [Re.GroupClose; Re.WordBoundary])).
  { simpl. auto 10. }
  apply matches_accepts in H; [|reflexivity].
  apply matches_accepts; [reflexivity|].
  destruct H as (pre & post & Hs & H). exists pre, post. split; [done|].
  exact H.
Qed.

Lemma space_not_word a : Py.isspace a = true -> Py.isword a = false.
Proof. each_char a. Qed.

Lemma decimal_is_word a : Py.isdecimal a = true -> Py.isword a = true.
Proof. each_char a. Qed.

Lemma figure_start_is_branch s :
  Re.matches FIG_PATTERN s = true -> search_any FIG_TABLE_PATTERN s = true.
Proof.
  intros H.
  apply (search_any_branch
           (Re.WordBoundary :: Re.GroupOpen
              :: (Re.lit_nocase "Fig" ++ [Re.Opt (Re.is_char_nocase ".")])
              ++ [Re.GroupClose; Re.WordBoundary])).
  { simpl. auto 10. }
  apply matches_accepts in H; [|reflexivity].
  apply matches_accepts; [reflexivity|].
  destruct H as (pre & post & Hs & H). exists pre, post. split; [done|].
  simpl in H. simpl.
  destruct H as (Hb & f & s1 & -> & Hf & i & s2 & -> & Hi & g & s3 & -> & Hg
                 & dot & s4 & -> & Hdot & ws & s5 & -> & Hws & _
                 & ds & s6 & -> & Hds & Hlen & _).
  split; [exact Hb|].
  exists f, (String i (String g (String dot (ws +:+ ds +:+ s6)))). split; [done|].
  split; [done|].
  exists i, (String g (String dot (ws +:+ ds +:+ s6))). split; [done|]. split; [done|].
  exists g, (String dot (ws +:+ ds +:+ s6)). split; [done|]. split; [done|].
  assert (Hgw : Py.isword g = true).
  { apply nocase_g in Hg as [-> | ->]; reflexivity. }
  assert (Hdw : Py.isword dot = false) by (revert Hdot; clear; each_char dot).
  destruct ws as [|c ws].
  - (* the digit follows the dot: the dot is taken *)
    right. exists dot, (ds +:+ s6). split; [done|]. split; [done|].
    split; [|done]. simpl. rewrite Hdw.
    destruct ds as [|d ds]; [simpl in Hlen; lia|]. simpl in *.
    apply andb_true_iff in Hds as [Hd _]. by rewrite (decimal_is_word d Hd).
  - (* whitespace follows the dot: the word ends before the dot *)
    left. split; [|done]. simpl. by rewrite Hgw, Hdw.
Qed.

(** X14. The keyword filter of extract_caption_rawtext.py drops no sentence
    that a detector of the batch script starts at: a sentence with the
    figure pattern or with the table keyword is kept. *)
Theorem filter_keeps_detector_candidates (sentences : list string) (s : string) :
  In s sentences ->
  Re.matches FIG_PATTERN s = true \/ Re.matches TABLE_KEYWORD_PAT s = true ->
  In s (filter_fig_table_sentences sentences).
Proof.
  intros Hin Hm. unfold filter_fig_table_sentences. apply filter_In. split; [done|].
  destruct Hm as [Hm | Hm];
    [by apply figure_start_is_branch | by apply table_keyword_is_branch].
Qed.

Lemma filter_keeps_detector_candidates_witness :
  In "See Fig. 3."%string
    (filter_fig_table_sentences
       ["The yield rose."; "See Fig. 3."; "Table 2 lists the yields."]).
Proof.
  apply (filter_keeps_detector_candidates
           ["The yield rose."; "See Fig. 3."; "Table 2 lists the yields."]
           "See Fig. 3.").
  - simpl. auto.
  - left. reflexivity.
Defined.
